(** * Surround-3: a real-time granular synthesis engine

    Shallow embedding of [CURRENT_ThinkingLFESolutions.cpp]: the sequence
    parser, the sequence-translation feature, the grain scheduler and the
    integer part of the render callback, with the properties of the written
    specification stated and settled against them.

    Conventions.  A [uint32_t] is a [Z] in [0, 2^32) and every operation
    that can wrap is written with [u32].  An [int] is a [Z]; [std::stoi]
    checks the [int] range itself.  A [std::string] is a [string]; a
    [std::vector] is a [list].  A C++ exception is the [Throw] branch of
    [result]. *)

From Stdlib Require Import ZArith String Ascii List Lia Bool QArith Qround Qabs.
From Stdlib Require Import DecimalString Decimal DecimalPos.
From stdpp Require Import base list.
Import ListNotations.

Local Open Scope Z_scope.

(** ** Exceptions *)

Inductive exn : Type :=
| invalid_argument
| out_of_range.

Inductive result (A : Type) : Type :=
| Ok (a : A)
| Throw (e : exn).

Arguments Ok {A} a.
Arguments Throw {A} e.

Definition bind {A B : Type} (r : result A) (k : A -> result B) : result B :=
  match r with
  | Ok a => k a
  | Throw e => Throw e
  end.

Notation "'let*' x ':=' r 'in' k" := (bind r (fun x => k))
  (at level 10, x name, r at level 100, k at level 200).

Definition is_Ok {A : Type} (r : result A) : bool :=
  match r with Ok _ => true | Throw _ => false end.

(** ** The sequence parser ([function_sequence_parse]) *)

Module Parse.

Local Open Scope string_scope.

(** [std::isspace] in the "C" locale: space, \t, \n, \v, \f, \r. *)
Definition isspace (c : ascii) : bool :=
  let n := nat_of_ascii c in
  Nat.eqb n 32 || (Nat.leb 9 n && Nat.leb n 13).

Definition isdigit (c : ascii) : bool :=
  let n := nat_of_ascii c in
  Nat.leb 48 n && Nat.leb n 57.

Definition digit_value (c : ascii) : Z := Z.of_nat (nat_of_ascii c) - 48.

(** [while (stream >> token)]: leading whitespace is skipped, a token is a
    maximal run of non-whitespace characters, and extraction fails (ending
    the loop) when only whitespace is left.  [cur] holds the characters of
    the token being read, most recent first. *)
Fixpoint tokens_from (cur : list ascii) (s : string) : list string :=
  match s with
  | EmptyString =>
      match cur with
      | [] => []
      | _ => [string_of_list_ascii (rev cur)]
      end
  | String c s' =>
      if isspace c then
        match cur with
        | [] => tokens_from [] s'
        | _ => string_of_list_ascii (rev cur) :: tokens_from [] s'
        end
      else tokens_from (c :: cur) s'
  end.

Definition tokens (s : string) : list string := tokens_from [] s.

(** [token.find('*')]: position of the first occurrence, or [npos]. *)
Fixpoint find_char (c : ascii) (s : string) : option nat :=
  match s with
  | EmptyString => None
  | String d s' =>
      if Ascii.eqb c d then Some O
      else match find_char c s' with
           | Some p => Some (S p)
           | None => None
           end
  end.

(** [s.substr(pos)]: the suffix from [pos] (here always [pos <= size]). *)
Fixpoint substr_from (pos : nat) (s : string) : string :=
  match pos, s with
  | O, _ => s
  | S p, String _ s' => substr_from p s'
  | S _, EmptyString => EmptyString
  end.

(** [s.substr(0, n)]. *)
Fixpoint substr_to (n : nat) (s : string) : string :=
  match n, s with
  | S p, String c s' => String c (substr_to p s')
  | _, _ => EmptyString
  end.

Definition INT_MAX : Z := 2147483647.
Definition INT_MIN : Z := -2147483648.

Fixpoint skip_space (s : string) : string :=
  match s with
  | String c s' => if isspace c then skip_space s' else s
  | EmptyString => s
  end.

(** The digits [strtol] consumes: the longest run of decimal digits at the
    front of the text; what follows them is left unread. *)
Fixpoint read_digits (acc : Z) (s : string) : Z :=
  match s with
  | String c s' =>
      if isdigit c then read_digits (acc * 10 + digit_value c) s' else acc
  | EmptyString => acc
  end.

Definition starts_with_digit (s : string) : bool :=
  match s with
  | String c _ => isdigit c
  | EmptyString => false
  end.

(** The optional sign in front of the digits. *)
Definition strip_sign (s : string) : bool * string :=
  match s with
  | String c r =>
      if Ascii.eqb c "-" then (true, r)
      else if Ascii.eqb c "+" then (false, r)
      else (false, s)
  | EmptyString => (false, s)
  end.

(** Whether the text starts, after blanks and a sign, with a digit, and
    the signed value of its leading digits. *)
Definition begins_with_integer (s : string) : bool :=
  starts_with_digit (snd (strip_sign (skip_space s))).

Definition leading_value (s : string) : Z :=
  let '(negative, body) := strip_sign (skip_space s) in
  let magnitude := read_digits 0 body in
  if negative then (- magnitude)%Z else magnitude.

Definition in_int_range (v : Z) : bool := ((INT_MIN <=? v) && (v <=? INT_MAX))%Z.

(** [std::stoi(s)] with the default base 10 and no [pos] argument: leading
    whitespace, an optional sign, then digits.  No digit at all throws
    [std::invalid_argument]; a value outside [int] throws
    [std::out_of_range]; characters after the digits are ignored. *)
Definition stoi (s : string) : result Z :=
  if begins_with_integer s then
    if in_int_range (leading_value s) then Ok (leading_value s)
    else Throw out_of_range
  else Throw invalid_argument.

(** The body of the [while] loop, one token at a time;
    [vector_sequence] is the vector built so far. *)
Fixpoint parse_tokens (toks : list string) (vector_sequence : list Z)
  : result (list Z) :=
  match toks with
  | [] => Ok vector_sequence
  | token :: rest =>
      if String.eqb token "x" then
        parse_tokens rest (vector_sequence ++ [-1])
      else
        match find_char "*" token with
        | Some pos_star =>
            let token_ch := substr_to pos_star token in
            let* stay_grain := stoi (substr_from (S pos_star) token) in
            let* object_ch := (if String.eqb token_ch "x" then Ok (-1)
                               else stoi token_ch) in
            parse_tokens rest
              (vector_sequence ++ repeat object_ch (Z.to_nat stay_grain))
        | None =>
            let* object_ch := stoi token in
            parse_tokens rest (vector_sequence ++ [object_ch])
        end
  end.

Definition function_sequence_parse (istring_sequence : string)
  : result (list Z) :=
  parse_tokens (tokens istring_sequence) [].

(** *** The grammar of the specification

    [NUMBER], ["x"], or [TOKEN "*" COUNT] with [TOKEN] a [NUMBER] or ["x"]
    and [COUNT] a positive integer.  A [NUMBER] is an optional sign and a
    non-empty run of decimal digits, with a value that fits an [int]. *)

Fixpoint all_digits (s : string) : bool :=
  match s with
  | EmptyString => true
  | String c s' => isdigit c && all_digits s'
  end.

Definition valid_integer (s : string) : bool :=
  let body := snd (strip_sign s) in
  starts_with_digit body && all_digits body.

Definition number_value (s : string) : Z :=
  let '(negative, body) := strip_sign s in
  let magnitude := read_digits 0 body in
  if negative then (- magnitude)%Z else magnitude.

Definition is_number (s : string) : bool :=
  valid_integer s && in_int_range (number_value s).

Definition wf_token (t : string) : bool :=
  if String.eqb t "x" then true
  else
    match find_char "*" t with
    | Some p =>
        let target := substr_to p t in
        let count := substr_from (S p) t in
        (String.eqb target "x" || is_number target)
        && is_number count && (0 <? number_value count)%Z
    | None => is_number t
    end.

Definition well_formed (s : string) : bool := forallb wf_token (tokens s).

(** The declared repeat count of a [TOKEN*COUNT] token, 1 for a singleton. *)
Definition declared_length (t : string) : nat :=
  if String.eqb t "x" then 1%nat
  else
    match find_char "*" t with
    | Some p => Z.to_nat (number_value (substr_from (S p) t))
    | None => 1%nat
    end.

Definition expansion_length (s : string) : nat :=
  list_sum (map declared_length (tokens s)).

(** A token that is not valid in the sense of the specification: some text
    that has to be an integer (the bare token, the count, or a target other
    than ["x"]) is not an optionally signed run of digits. *)
Definition invalid_token (t : string) : bool :=
  if String.eqb t "x" then false
  else
    match find_char "*" t with
    | Some p =>
        let target := substr_to p t in
        negb (valid_integer (substr_from (S p) t))
        || negb (String.eqb target "x" || valid_integer target)
    | None => negb (valid_integer t)
    end.

(** Text that does not even begin with an integer, or whose leading
    integer does not fit an [int]. *)
Definition rejected_integer (s : string) : bool :=
  negb (begins_with_integer s) || negb (in_int_range (leading_value s)).

Definition rejected_token (t : string) : bool :=
  if String.eqb t "x" then false
  else
    match find_char "*" t with
    | Some p =>
        let target := substr_to p t in
        rejected_integer (substr_from (S p) t)
        || (negb (String.eqb target "x") && rejected_integer target)
    | None => rejected_integer t
    end.

End Parse.

(** ** The sequence-translation feature ([show_sequence_translations]) *)

Module Translate.

Local Open Scope string_scope.

(** [std::to_string(int)]. *)
Definition to_string (n : Z) : string := NilZero.string_of_int (Z.to_int n).

(** [s.find(pat, pos)]: the least index [i >= pos] at which [pat] occurs
    in [s], or [npos] ([None]).  [s] is scanned from [here], the index of
    its first character in the whole string. *)
Fixpoint find_at (pat s : string) (here pos : nat) : option nat :=
  if Nat.leb pos here && String.prefix pat s then Some here
  else
    match s with
    | EmptyString => None
    | String _ s' => find_at pat s' (S here) pos
    end.

Definition find (s pat : string) (pos : nat) : option nat :=
  find_at pat s 0 pos.

(** [s.replace(pos, len, str)] for [pos + len <= s.size()]. *)
Definition replace (s : string) (pos len : nat) (str : string) : string :=
  Parse.substr_to pos s ++ str ++ Parse.substr_from (pos + len) s.

(** The loop
    [while ((index_str = translated.find(first, index_str)) != npos)
       { translated.replace(index_str, first.length(), second);
         index_str += second.length(); }].
    [None] stands for a loop still running when the fuel is spent. *)
Fixpoint replace_loop (fuel : nat) (first second translated : string)
  (index_str : nat) : option string :=
  match fuel with
  | O => None
  | S fuel' =>
      match find translated first index_str with
      | None => Some translated
      | Some i =>
          replace_loop fuel' first second
            (replace translated i (String.length first) second)
            (i + String.length second)
      end
  end.

Definition replace_all (first second translated : string) : option string :=
  replace_loop (S (String.length translated)) first second translated 0.

(** The [for (const auto& replacement : replacements)] loop. *)
Fixpoint apply_replacements (replacements : list (string * string))
  (translated : string) : option string :=
  match replacements with
  | [] => Some translated
  | (first, second) :: rest =>
      match replace_all first second translated with
      | Some translated' => apply_replacements rest translated'
      | None => None
      end
  end.

(** [std::sort] with the comparator
    [a.first.length() > b.first.length()], as an insertion sort: pairs
    with old texts of one length keep their order. *)
Fixpoint insert_by_length (r : string * string)
  (sorted : list (string * string)) : list (string * string) :=
  match sorted with
  | [] => [r]
  | r' :: rest =>
      if Nat.ltb (String.length (fst r)) (String.length (fst r'))
      then r' :: insert_by_length r rest
      else r :: sorted
  end.

Definition sort_by_length (l : list (string * string))
  : list (string * string) :=
  fold_right insert_by_length [] l.

(** The globals the feature reads. *)
Record translation_state : Type := {
  garray_channel_anchor : Z * Z * Z;   (* 0-based channels of objects 1-3 *)
  g_use_grain_hopping : bool;
  g_grain_sequence : list Z;
  g_original_sequence_string : string
}.

Definition old_ids (st : translation_state) : Z * Z * Z :=
  let '(a0, a1, a2) := garray_channel_anchor st in (a0 + 1, a1 + 1, a2 + 1)%Z.

(** [int mappings[6][3]]. *)
Definition mappings (new_objects : Z * Z * Z) : list (Z * Z * Z) :=
  let '(n0, n1, n2) := new_objects in
  [ (n0, n1, n2); (n0, n2, n1); (n1, n0, n2);
    (n1, n2, n0); (n2, n0, n1); (n2, n1, n0) ].

Definition replacements_of (old new : Z * Z * Z) : list (string * string) :=
  let '(o0, o1, o2) := old in
  let '(m0, m1, m2) := new in
  [ (to_string o0, to_string m0);
    (to_string o1, to_string m1);
    (to_string o2, to_string m2) ].

(** One iteration of the [option] loop: the text printed after
    [Option k:], before the arrow annotation. *)
Definition translate_option (st : translation_state) (mapping : Z * Z * Z)
  : option string :=
  apply_replacements
    (sort_by_length (replacements_of (old_ids st) mapping))
    (g_original_sequence_string st).

(** The translated texts in the order printed; nothing is printed unless
    hopping is on and the sequence is non-empty. *)
Definition show_sequence_translations (st : translation_state)
  : list (option string) :=
  if g_use_grain_hopping st && negb (Nat.eqb (length (g_grain_sequence st)) 0)
  then map (translate_option st) (mappings (old_ids st))
  else [].

End Translate.

(** ** Machine arithmetic *)

Definition u32 (z : Z) : Z := z mod 2 ^ 32.
Definition u16 (z : Z) : Z := z mod 2 ^ 16.

Definition is_u32 (z : Z) : Prop := 0 <= z < 2 ^ 32.

(** [for (i = 0; i < n; ++i) body(i)] threading the state [a]. *)
Definition for_loop {A : Type} (n : Z) (body : Z -> A -> A) (a : A) : A :=
  fold_left (fun acc i => body (Z.of_nat i) acc) (seq 0 (Z.to_nat n)) a.

(** Single-precision values as the rationals they denote.  [round] is
    round-to-nearest-even to 24 significant bits; exponent overflow and
    subnormals are left out (the values rounded here are frame counts
    scaled by a factor near 1). *)
Module Float32.

Local Open Scope Q_scope.

Definition round_half_even (q : Q) : Z :=
  let f := Qfloor q in
  match Qcompare (q - inject_Z f) (1 # 2) with
  | Lt => f
  | Gt => (f + 1)%Z
  | Eq => if Z.even f then f else (f + 1)%Z
  end.

(** [floor (log2 q)] for [q > 0]. *)
Definition floor_log2 (q : Q) : Z :=
  let k := (Z.log2 (Qnum q) - Z.log2 (Zpos (Qden q)))%Z in
  if Qle_bool (2 ^ k) q then k else (k - 1)%Z.

Definition round (q : Q) : Q :=
  match Qnum q with
  | Z0 => 0
  | _ =>
      let a := Qabs q in
      let ulp := 2 ^ (floor_log2 a - 23) in
      let m := inject_Z (round_half_even (a / ulp)) in
      if (Qnum q <? 0)%Z then - (m * ulp) else m * ulp
  end.

(** [static_cast<float>(n)] of an unsigned integer. *)
Definition of_u32 (n : Z) : Q := round (inject_Z n).

(** The product of two [float]s. *)
Definition mul (a b : Q) : Q := round (a * b).

(** [static_cast<uint32_t>(x)]: the fraction is discarded.  The source
    leaves the cast undefined for [x] outside [0, 2^32); such values are
    reduced here, and the statements that depend on the value assume the
    range. *)
Definition to_u32 (q : Q) : Z := u32 (Z.quot (Qnum q) (Zpos (Qden q))).

End Float32.

(** ** The grain engine *)

(** The arithmetic of audio samples.  Sample values, gains and the
    envelope are [float]s in the source; the engine is defined over any
    carrier with the constants and operations the render callback uses, so
    what is proved of it holds whatever the rounding of those operations.
    [f_gain_norm rms frames interval] stands for
    [kTargetRMS / (rms * sqrt(max(1.0, frames / interval)))]. *)
Class SampleOps (F : Type) : Type := {
  f_zero : F;                       (* 0.0f, also kDryGain *)
  f_one : F;                        (* 1.0f, also kWetGain *)
  f_add : F -> F -> F;
  f_mul : F -> F -> F;
  f_gain_norm : F -> Z -> Z -> F
}.

Inductive OSStatus : Type := noErr.

Module Engine.

Section WithSamples.

Context {F : Type} `{SampleOps F}.

Definition kframes_envelope : Z := 1024.
Definition max_density_cloud_grain : nat := 128.

(** [uint32_t g_channel_offset = 0]: never assigned by the program. *)
Definition g_channel_offset : Z := 0.

Record struct_grain : Type := {
  address_start_frame : Z;
  address_present_grain : Z;
  frames_grain : Z;
  gain_grain : F;
  frames_gain_envelope : Z -> F;
  status_callback_grain : bool;
  target_object : Z
}.

Record struct_process_grain : Type := {
  object_array_grains : list struct_grain;
  frames_object_grain : Z;
  count_present_frame : Z;
  active_envelopes_grain : Z
}.

Record AudioFileData : Type := {
  channels_file : Z;
  samples : Z -> Z -> F;            (* samples[channel][frame] *)
  frames_total : Z;
  present_frame : Z
}.

Record globals : Type := {
  global_ProcessGrain : struct_process_grain;
  global_AudioFileData : AudioFileData;
  g_grain_sequence : list Z;
  g_sequence_position : nat;
  g_use_grain_hopping : bool;
  garray_channel_anchor : Z * Z * Z;
  g_original_sequence_channels : Z * Z * Z;
  g_status_audio_playback : bool;
  g_run_channel_order_test : bool;
  g_jitter_range : Z;
  g_interval_multiplier : Q;
  g_travel_factor_min : Q;
  g_travel_factor_max : Q;
  garray_frames_envelope : Z -> F;
  g_envelope_rms : F
}.

(** Assignments to single globals. *)

Definition set_ProcessGrain (pg : struct_process_grain) (st : globals)
  : globals :=
  {| global_ProcessGrain := pg;
     global_AudioFileData := global_AudioFileData st;
     g_grain_sequence := g_grain_sequence st;
     g_sequence_position := g_sequence_position st;
     g_use_grain_hopping := g_use_grain_hopping st;
     garray_channel_anchor := garray_channel_anchor st;
     g_original_sequence_channels := g_original_sequence_channels st;
     g_status_audio_playback := g_status_audio_playback st;
     g_run_channel_order_test := g_run_channel_order_test st;
     g_jitter_range := g_jitter_range st;
     g_interval_multiplier := g_interval_multiplier st;
     g_travel_factor_min := g_travel_factor_min st;
     g_travel_factor_max := g_travel_factor_max st;
     garray_frames_envelope := garray_frames_envelope st;
     g_envelope_rms := g_envelope_rms st |}.

Definition set_present_frame (fr : Z) (st : globals) : globals :=
  {| global_ProcessGrain := global_ProcessGrain st;
     global_AudioFileData :=
       {| channels_file := channels_file (global_AudioFileData st);
          samples := samples (global_AudioFileData st);
          frames_total := frames_total (global_AudioFileData st);
          present_frame := fr |};
     g_grain_sequence := g_grain_sequence st;
     g_sequence_position := g_sequence_position st;
     g_use_grain_hopping := g_use_grain_hopping st;
     garray_channel_anchor := garray_channel_anchor st;
     g_original_sequence_channels := g_original_sequence_channels st;
     g_status_audio_playback := g_status_audio_playback st;
     g_run_channel_order_test := g_run_channel_order_test st;
     g_jitter_range := g_jitter_range st;
     g_interval_multiplier := g_interval_multiplier st;
     g_travel_factor_min := g_travel_factor_min st;
     g_travel_factor_max := g_travel_factor_max st;
     garray_frames_envelope := garray_frames_envelope st;
     g_envelope_rms := g_envelope_rms st |}.

Definition set_sequence (sequence : list Z) (position : nat) (hopping : bool)
  (st : globals) : globals :=
  {| global_ProcessGrain := global_ProcessGrain st;
     global_AudioFileData := global_AudioFileData st;
     g_grain_sequence := sequence;
     g_sequence_position := position;
     g_use_grain_hopping := hopping;
     garray_channel_anchor := garray_channel_anchor st;
     g_original_sequence_channels := g_original_sequence_channels st;
     g_status_audio_playback := g_status_audio_playback st;
     g_run_channel_order_test := g_run_channel_order_test st;
     g_jitter_range := g_jitter_range st;
     g_interval_multiplier := g_interval_multiplier st;
     g_travel_factor_min := g_travel_factor_min st;
     g_travel_factor_max := g_travel_factor_max st;
     garray_frames_envelope := garray_frames_envelope st;
     g_envelope_rms := g_envelope_rms st |}.

Definition set_channels (anchor original : Z * Z * Z) (st : globals)
  : globals :=
  {| global_ProcessGrain := global_ProcessGrain st;
     global_AudioFileData := global_AudioFileData st;
     g_grain_sequence := g_grain_sequence st;
     g_sequence_position := g_sequence_position st;
     g_use_grain_hopping := g_use_grain_hopping st;
     garray_channel_anchor := anchor;
     g_original_sequence_channels := original;
     g_status_audio_playback := g_status_audio_playback st;
     g_run_channel_order_test := g_run_channel_order_test st;
     g_jitter_range := g_jitter_range st;
     g_interval_multiplier := g_interval_multiplier st;
     g_travel_factor_min := g_travel_factor_min st;
     g_travel_factor_max := g_travel_factor_max st;
     garray_frames_envelope := garray_frames_envelope st;
     g_envelope_rms := g_envelope_rms st |}.

Definition set_flags (playback test : bool) (st : globals) : globals :=
  {| global_ProcessGrain := global_ProcessGrain st;
     global_AudioFileData := global_AudioFileData st;
     g_grain_sequence := g_grain_sequence st;
     g_sequence_position := g_sequence_position st;
     g_use_grain_hopping := g_use_grain_hopping st;
     garray_channel_anchor := garray_channel_anchor st;
     g_original_sequence_channels := g_original_sequence_channels st;
     g_status_audio_playback := playback;
     g_run_channel_order_test := test;
     g_jitter_range := g_jitter_range st;
     g_interval_multiplier := g_interval_multiplier st;
     g_travel_factor_min := g_travel_factor_min st;
     g_travel_factor_max := g_travel_factor_max st;
     garray_frames_envelope := garray_frames_envelope st;
     g_envelope_rms := g_envelope_rms st |}.

Definition set_parameters (jitter : Z) (multiplier travel_min travel_max : Q)
  (st : globals) : globals :=
  {| global_ProcessGrain := global_ProcessGrain st;
     global_AudioFileData := global_AudioFileData st;
     g_grain_sequence := g_grain_sequence st;
     g_sequence_position := g_sequence_position st;
     g_use_grain_hopping := g_use_grain_hopping st;
     garray_channel_anchor := garray_channel_anchor st;
     g_original_sequence_channels := g_original_sequence_channels st;
     g_status_audio_playback := g_status_audio_playback st;
     g_run_channel_order_test := g_run_channel_order_test st;
     g_jitter_range := jitter;
     g_interval_multiplier := multiplier;
     g_travel_factor_min := travel_min;
     g_travel_factor_max := travel_max;
     garray_frames_envelope := garray_frames_envelope st;
     g_envelope_rms := g_envelope_rms st |}.

Definition pool (st : globals) : list struct_grain :=
  object_array_grains (global_ProcessGrain st).

Definition active_count (st : globals) : Z :=
  active_envelopes_grain (global_ProcessGrain st).

Definition cursor (st : globals) : Z := present_frame (global_AudioFileData st).

Definition total_frames (st : globals) : Z :=
  frames_total (global_AudioFileData st).

(** *** [initialize_grain] *)

(** The grain as initialised and the sequence cursor afterwards.  The read
    [g_grain_sequence[g_sequence_position]] is undefined in the source when
    the cursor is out of bounds; it yields 0 here. *)
Definition initialize_grain (st : globals) (idata_grain : struct_grain)
  (iaddress_start_frame iframes_grain : Z) (igain_grain : F)
  : struct_grain * nat :=
  let hop :=
    g_use_grain_hopping st && negb (Nat.eqb (length (g_grain_sequence st)) 0) in
  let target :=
    if hop then default 0 (g_grain_sequence st !! g_sequence_position st)
    else -2 in
  let position :=
    if hop
    then Nat.modulo (S (g_sequence_position st)) (length (g_grain_sequence st))
    else g_sequence_position st in
  ({| address_start_frame := iaddress_start_frame;
      address_present_grain := 0;
      frames_grain := iframes_grain;
      gain_grain := igain_grain;
      frames_gain_envelope := garray_frames_envelope st;
      status_callback_grain := true;
      target_object := target |},
   position).

(** *** [function_process_grain] *)

(** The two numbers drawn from [rng]: [jitterDist(rng)] and
    [scaleDist(rng)]. *)
Record draws : Type := {
  jitter : Z;
  scale : Q
}.

(** The start frame: [present_frame + jitter] in [int64_t], clamped below
    by 0 and above by [frames_total - 1] (computed in [uint32_t]). *)
Definition spawn_start (st : globals) (d : draws) : Z :=
  let start_raw := cursor st + jitter d in
  let start_raw := if start_raw <? 0 then 0 else start_raw in
  let last := u32 (total_frames st - 1) in
  let start_raw := if last <? start_raw then last else start_raw in
  u32 start_raw.

(** [static_cast<uint32_t>(base_frames_grain * scaleDist(rng))], then the
    floor of 64 frames. *)
Definition spawn_scaled_length (st : globals) (d : draws) : Z :=
  let base_frames_grain := frames_object_grain (global_ProcessGrain st) in
  let field_frames_grain :=
    Float32.to_u32 (Float32.mul (Float32.of_u32 base_frames_grain) (scale d)) in
  if field_frames_grain <? 64 then 64 else field_frames_grain.

(** The length after the cut at the end of the source. *)
Definition spawn_length (st : globals) (d : draws) : Z :=
  let field_start_frame := spawn_start st d in
  let field_frames_grain := spawn_scaled_length st d in
  if total_frames st <? u32 (field_start_frame + field_frames_grain)
  then u32 (total_frames st - field_start_frame)
  else field_frames_grain.

Definition inactive (g : struct_grain) : Prop :=
  status_callback_grain g = false.

#[export] Instance inactive_dec (g : struct_grain) : Decision (inactive g).
Proof. unfold inactive. apply _. Defined.

Definition function_process_grain (st : globals) (d : draws) : globals :=
  let pg := global_ProcessGrain st in
  if 8 <=? active_envelopes_grain pg then st
  else
    match list_find inactive (object_array_grains pg) with
    | None => st
    | Some (k, slot_new_grain) =>
        let '(grain, position) :=
          initialize_grain st slot_new_grain
            (spawn_start st d) (spawn_length st d) f_one in
        set_sequence (g_grain_sequence st) position (g_use_grain_hopping st)
          (set_ProcessGrain
             {| object_array_grains := <[k := grain]> (object_array_grains pg);
                frames_object_grain := frames_object_grain pg;
                count_present_frame := count_present_frame pg;
                active_envelopes_grain := u32 (active_envelopes_grain pg + 1) |}
             st)
    end.

(** *** [function_callback_audio] *)

(** What the host passes in, with the draws the spawn of this callback
    makes if it happens. *)
Record callback_args : Type := {
  icount_frames : Z;
  outChannels : Z;
  rng : draws
}.

Definition mixIndex (a : callback_args) (ch fr : Z) : nat :=
  Z.to_nat (ch * icount_frames a + fr).

(** [interval_start_frames]. *)
Definition interval_start_frames (st : globals) : Z :=
  Float32.to_u32
    (Float32.mul (Float32.of_u32 (frames_object_grain (global_ProcessGrain st)))
       (g_interval_multiplier st)).

Definition set_count_present_frame (c : Z) (st : globals) : globals :=
  let pg := global_ProcessGrain st in
  set_ProcessGrain
    {| object_array_grains := object_array_grains pg;
       frames_object_grain := frames_object_grain pg;
       count_present_frame := c;
       active_envelopes_grain := active_envelopes_grain pg |} st.

(** The frame counter, the spawn attempt and the counter reset. *)
Definition trigger (st : globals) (a : callback_args) : globals :=
  let counted :=
    u32 (count_present_frame (global_ProcessGrain st) + icount_frames a) in
  if interval_start_frames st <=? counted
  then set_count_present_frame 0
         (function_process_grain (set_count_present_frame counted st) (rng a))
  else set_count_present_frame counted st.

(** The base layer: every cell of [mix] is assigned
    [kDryGain * (fr_read < total_fr ? samples[file_ch][fr_read] : 0.0f)]. *)
Definition dry_layer (st : globals) (a : callback_args) (mix : list F)
  : list F :=
  let fd := global_AudioFileData st in
  for_loop (outChannels a) (fun ch_callback =>
    for_loop (icount_frames a) (fun fr_callback mix =>
      let fr_read := u32 (present_frame fd + fr_callback) in
      let file_ch := ch_callback mod channels_file fd in
      <[mixIndex a ch_callback fr_callback :=
          f_mul f_zero
            (if fr_read <? frames_total fd then samples fd file_ch fr_read
             else f_zero)]> mix)) mix.

(** The channel a positive target is sent to ([target_ch]). *)
Definition resolve_target_ch (st : globals) (target : Z) : Z :=
  let '(o0, o1, o2) := g_original_sequence_channels st in
  let '(a0, a1, a2) := garray_channel_anchor st in
  if target =? o0 + 1 then a0
  else if target =? o1 + 1 then a1
  else if target =? o2 + 1 then a2
  else if target =? 1 then a0
  else if target =? 2 then a1
  else if target =? 3 then a2
  else u32 (target - 1).

Definition final_target_ch (st : globals) (target : Z) : Z :=
  u32 (resolve_target_ch st target + g_channel_offset).

(** [env_idx]: the sum is a [uint32_t], the product and the quotient are
    [size_t], the result is stored in a [uint32_t] and clamped.  A zero
    [frames_grain] is a division by zero in the source ([Z.div] gives 0);
    [envelope_index_in_bounds] shows the loop never meets one. *)
Definition env_idx (g : struct_grain) (count_frame_process : Z) : Z :=
  let raw :=
    u32 ((u32 (address_present_grain g + count_frame_process)
          * (kframes_envelope - 1)) / frames_grain g) in
  if kframes_envelope <=? raw then kframes_envelope - 1 else raw.

(** The body of the per-frame loop for one grain. *)
Definition mix_grain_frame (st : globals) (a : callback_args)
  (g : struct_grain) (grain_base_gain : F) (count_frame_process : Z)
  (mix : list F) : list F :=
  let fd := global_AudioFileData st in
  let frame_grain_audio :=
    u32 (address_start_frame g + address_present_grain g + count_frame_process) in
  if frames_total fd <=? frame_grain_audio then mix
  else
    let frame_env := frames_gain_envelope g (env_idx g count_frame_process) in
    let contribution (file_ch : Z) : F :=
      f_mul f_one
        (f_mul (samples fd file_ch frame_grain_audio)
           (f_mul frame_env grain_base_gain)) in
    if target_object g =? -1 then mix
    else if target_object g =? -2 then
      for_loop (outChannels a) (fun process_ch mix =>
        alter (fun v => f_add v (contribution (process_ch mod channels_file fd)))
          (mixIndex a process_ch count_frame_process) mix) mix
    else
      let target_ch := resolve_target_ch st (target_object g) in
      let final := final_target_ch st (target_object g) in
      if final <? outChannels a then
        alter (fun v => f_add v (contribution (target_ch mod channels_file fd)))
          (mixIndex a final count_frame_process) mix
      else mix.

Definition frames_grain_process (a : callback_args) (g : struct_grain) : Z :=
  Z.min (icount_frames a) (u32 (frames_grain g - address_present_grain g)).

Definition advance_grain (g : struct_grain) (n : Z) (still_active : bool)
  : struct_grain :=
  {| address_start_frame := address_start_frame g;
     address_present_grain := u32 (address_present_grain g + n);
     frames_grain := frames_grain g;
     gain_grain := gain_grain g;
     frames_gain_envelope := frames_gain_envelope g;
     status_callback_grain := still_active;
     target_object := target_object g |}.

(** One iteration of the loop over the pool: the grain, the active count
    and the mix afterwards. *)
Definition process_grain (st : globals) (a : callback_args) (interval : Z)
  (g : struct_grain) (active : Z) (mix : list F)
  : struct_grain * Z * list F :=
  if negb (status_callback_grain g) then (g, active, mix)
  else
    let gain_norm := f_gain_norm (g_envelope_rms st) (frames_grain g) interval in
    let grain_base_gain := f_mul (gain_grain g) gain_norm in
    let n := frames_grain_process a g in
    let mix' := for_loop n (mix_grain_frame st a g grain_base_gain) mix in
    if frames_grain g <=? u32 (address_present_grain g + n)
    then (advance_grain g n false, u32 (active - 1), mix')
    else (advance_grain g n true, active, mix').

Fixpoint process_grains (st : globals) (a : callback_args) (interval : Z)
  (grains : list struct_grain) (active : Z) (mix : list F)
  : list struct_grain * Z * list F :=
  match grains with
  | [] => ([], active, mix)
  | g :: rest =>
      let '(g', active', mix') := process_grain st a interval g active mix in
      let '(rest', active'', mix'') :=
        process_grains st a interval rest active' mix' in
      (g' :: rest', active'', mix'')
  end.

(** The render callback up to the end of the grain loop: the status
    returned, the globals afterwards and the [mix] vector.  The test tone
    and the conversion of [mix] to the device format, which follow in the
    source, are not part of the model. *)
Definition function_callback_audio (st : globals) (a : callback_args)
  : OSStatus * globals * list F :=
  let interval := interval_start_frames st in
  let st1 := trigger st a in
  let total_fr := total_frames st1 in
  let callback_start_fr := cursor st1 in
  let mix0 :=
    repeat f_zero (Z.to_nat (u32 (outChannels a * icount_frames a))) in
  let '(st2, mix1) :=
    if negb (g_run_channel_order_test st1) && g_status_audio_playback st1
    then (set_present_frame
            (Z.min (u32 (callback_start_fr + icount_frames a)) total_fr) st1,
          dry_layer st1 a mix0)
    else (st1, mix0) in
  if g_status_audio_playback st2 && (callback_start_fr <? total_fr) then
    let pg := global_ProcessGrain st2 in
    let '(grains, active, mix2) :=
      process_grains st2 a interval (object_array_grains pg)
        (active_envelopes_grain pg) mix1 in
    (noErr,
     set_ProcessGrain
       {| object_array_grains := grains;
          frames_object_grain := frames_object_grain pg;
          count_present_frame := count_present_frame pg;
          active_envelopes_grain := active |} st2,
     mix2)
  else (noErr, st2, mix1).

(** *** The control thread *)

(** What a command leaves behind: the globals, or the end of the process
    when an exception is not caught. *)
Inductive outcome : Type :=
| Continues (st : globals)
| Terminated (e : exn).

(** [setupGrainHopping]: the answer to the prompt and the line typed. *)
Definition setupGrainHopping (st : globals) (enable : bool)
  (user_sequence : string) : outcome :=
  if enable then
    match Parse.function_sequence_parse user_sequence with
    | Ok sequence =>
        Continues (set_flags true (g_run_channel_order_test st)
                     (set_sequence sequence 0 true st))
    | Throw e => Terminated e
    end
  else
    Continues (set_flags true (g_run_channel_order_test st)
                 (set_sequence (g_grain_sequence st) (g_sequence_position st)
                    false st)).

(** The ['h'] command of [flive_control_monitor]: an empty line keeps the
    sequence. *)
Definition live_sequence_change (st : globals) (user_input : string)
  : outcome :=
  if String.eqb user_input "" then Continues st
  else
    match Parse.function_sequence_parse user_input with
    | Ok sequence =>
        let position :=
          if Nat.leb (length sequence) (g_sequence_position st) then 0%nat
          else g_sequence_position st in
        Continues (set_sequence sequence position (g_use_grain_hopping st) st)
    | Throw e => Terminated e
    end.

(** The two statements of the ['h'] command that write the sequence.
    Nothing keeps the render thread from spawning between them: the
    assignment of the parsed vector (with [g_original_sequence_string],
    which the engine does not read), and the reset of the cursor when it
    is out of range of the vector. *)
Definition assign_sequence (sequence : list Z) (st : globals) : globals :=
  set_sequence sequence (g_sequence_position st) (g_use_grain_hopping st) st.

Definition reset_sequence_cursor (st : globals) : globals :=
  if Nat.leb (length (g_grain_sequence st)) (g_sequence_position st)
  then set_sequence (g_grain_sequence st) 0 (g_use_grain_hopping st) st
  else st.

(** The ['g'] command. *)
Definition live_grain_length (st : globals) (new_grain_length : Z) : globals :=
  if (256 <=? new_grain_length) && (new_grain_length <=? 8192) then
    let pg := global_ProcessGrain st in
    set_ProcessGrain
      {| object_array_grains := object_array_grains pg;
         frames_object_grain := new_grain_length;
         count_present_frame := count_present_frame pg;
         active_envelopes_grain := active_envelopes_grain pg |} st
  else st.

(** [function_anchor_configure] with the three numbers typed: each is
    decremented in [uint16_t] and reset to 0 when no such channel exists. *)
Definition function_anchor_configure (st : globals) (channels : Z)
  (typed : Z * Z * Z) (is_initial_setup : bool) : globals :=
  if channels <? 1 then st
  else
    let fix_channel (c : Z) : Z :=
      let c := u16 (c - 1) in
      if channels <=? c then 0 else c in
    let '(t0, t1, t2) := typed in
    let anchor := (fix_channel t0, fix_channel t1, fix_channel t2) in
    set_flags true (g_run_channel_order_test st)
      (set_channels anchor
         (if is_initial_setup then anchor else g_original_sequence_channels st)
         st).

(** The state [playAudioFile] installs before the stream starts: a pool of
    zeroed grains, the default parameters, and the channel test running. *)
Definition zero_grain : struct_grain :=
  {| address_start_frame := 0;
     address_present_grain := 0;
     frames_grain := 0;
     gain_grain := f_zero;
     frames_gain_envelope := fun _ => f_zero;
     status_callback_grain := false;
     target_object := 0 |}.

Definition initial (channels : Z) (source : Z -> Z -> F) (total : Z)
  (envelope : Z -> F) (rms : F) : globals :=
  {| global_ProcessGrain :=
       {| object_array_grains := repeat zero_grain max_density_cloud_grain;
          frames_object_grain := 2048;
          count_present_frame := 0;
          active_envelopes_grain := 0 |};
     global_AudioFileData :=
       {| channels_file := channels;
          samples := source;
          frames_total := total;
          present_frame := 0 |};
     g_grain_sequence := [];
     g_sequence_position := 0;
     g_use_grain_hopping := false;
     garray_channel_anchor := (0, 1, 2);
     g_original_sequence_channels := (0, 1, 2);
     g_status_audio_playback := false;
     g_run_channel_order_test := true;
     g_jitter_range := 1000;
     g_interval_multiplier := Float32.round (1 # 2);
     g_travel_factor_min := Float32.round (9 # 10);
     g_travel_factor_max := Float32.round (11 # 10);
     garray_frames_envelope := envelope;
     g_envelope_rms := rms |}.

(** *** Runs of the program *)

(** One atomic action of either thread.  The render thread runs the
    callback; the control thread changes the sequence, the parameters, the
    channels or the two flags (the latter also flipped by the channel test).
    [step_spawn] is a bare spawn attempt, as the callback makes it.  The
    ['h'] command is two actions, [step_sequence_assign] and
    [step_sequence_cursor], between which the render thread may run; the
    assignment of the vector itself is taken as one write. *)
Inductive step : globals -> globals -> Prop :=
| step_callback st a :
    is_u32 (icount_frames a) -> is_u32 (outChannels a) ->
    step st (snd (fst (function_callback_audio st a)))
| step_spawn st d :
    step st (function_process_grain st d)
| step_setup st enable text st' :
    setupGrainHopping st enable text = Continues st' ->
    step st st'
| step_sequence_assign st text sequence :
    text <> ""%string ->
    Parse.function_sequence_parse text = Ok sequence ->
    step st (assign_sequence sequence st)
| step_sequence_cursor st :
    step st (reset_sequence_cursor st)
| step_grain_length st n :
    step st (live_grain_length st n)
| step_parameters st j m lo hi :
    step st (set_parameters j m lo hi st)
| step_channels st channels typed is_initial_setup :
    step st (function_anchor_configure st channels typed is_initial_setup)
| step_flags st playback test :
    step st (set_flags playback test st).

Inductive reachable (st0 : globals) : globals -> Prop :=
| reachable_start : reachable st0 st0
| reachable_step st st' : reachable st0 st -> step st st' -> reachable st0 st'.

(** The states the program starts from: any source of [total] frames. *)
Definition starts (st0 : globals) : Prop :=
  exists channels source total envelope rms,
    is_u32 total /\ st0 = initial channels source total envelope rms.

(** *** Invariants and reference definitions *)

Definition active (g : struct_grain) : Prop := status_callback_grain g = true.

(** [count(g.active for g in pool)]. *)
Fixpoint count_active (grains : list struct_grain) : Z :=
  match grains with
  | [] => 0
  | g :: rest =>
      (if status_callback_grain g then 1 else 0) + count_active rest
  end.

(** The playhead of a grain never passes its length. *)
Definition grain_ok (g : struct_grain) : Prop :=
  0 <= address_present_grain g <= frames_grain g /\ frames_grain g < 2 ^ 32.

Record invariant (st : globals) : Prop := {
  inv_length : length (pool st) = max_density_cloud_grain;
  inv_count : active_count st = count_active (pool st);
  inv_limit : active_count st <= 8;
  inv_grains : Forall grain_ok (pool st)
}.

(** The read [g_grain_sequence[g_sequence_position]] is inside the
    vector. *)
Definition cursor_in_bounds (st : globals) : Prop :=
  g_grain_sequence st <> [] ->
  (g_sequence_position st < length (g_grain_sequence st))%nat.

(** What the loop over the pool makes of one grain. *)
Definition completes (a : callback_args) (g : struct_grain) : bool :=
  status_callback_grain g
  && (frames_grain g
      <=? u32 (address_present_grain g + frames_grain_process a g)).

Definition grain_after (a : callback_args) (g : struct_grain) : struct_grain :=
  if status_callback_grain g
  then advance_grain g (frames_grain_process a g) (negb (completes a g))
  else g.

(** A grain made silent, everything else kept. *)
Definition silenced (g : struct_grain) : struct_grain :=
  {| address_start_frame := address_start_frame g;
     address_present_grain := address_present_grain g;
     frames_grain := frames_grain g;
     gain_grain := gain_grain g;
     frames_gain_envelope := frames_gain_envelope g;
     status_callback_grain := status_callback_grain g;
     target_object := -1 |}.

(** The specification's [clamp] and its grain length
    [max(64, round(grainLength * s))] cut at the end of the source, with
    [round] to the nearest integer. *)
Definition clamp (x lo hi : Z) : Z := Z.min (Z.max x lo) hi.

Definition round_nearest (q : Q) : Z := Qfloor (q + (1 # 2))%Q.

Definition cut_at_end (total start len : Z) : Z :=
  if total <? start + len then total - start else len.

Definition claimed_length (st : globals) (d : draws) : Z :=
  let grainLength := frames_object_grain (global_ProcessGrain st) in
  cut_at_end (total_frames st) (clamp (cursor st + jitter d) 0 (total_frames st - 1))
    (Z.max 64 (round_nearest (inject_Z grainLength * scale d)%Q)).

(** The state a successful spawn into slot [k] leaves. *)
Definition spawned (st : globals) (d : draws) (k : nat) (slot : struct_grain)
  : globals :=
  let pg := global_ProcessGrain st in
  let gp :=
    initialize_grain st slot (spawn_start st d) (spawn_length st d) f_one in
  set_sequence (g_grain_sequence st) (snd gp) (g_use_grain_hopping st)
    (set_ProcessGrain
       {| object_array_grains := <[k := fst gp]> (object_array_grains pg);
          frames_object_grain := frames_object_grain pg;
          count_present_frame := count_present_frame pg;
          active_envelopes_grain := u32 (active_envelopes_grain pg + 1) |}
       st).

(** The two conditions of the callback: the one under which the source
    cursor moves, and the one under which the loop over the pool runs. *)
Definition cursor_moves (st : globals) : bool :=
  negb (g_run_channel_order_test st) && g_status_audio_playback st.

Definition grains_run (st : globals) : bool :=
  g_status_audio_playback st && (cursor st <? total_frames st).

(** [std::vector<float> mix(outChannels * icount_frames, 0.0f)], the size
    being a product of two [UInt32]. *)
Definition silent_mix (a : callback_args) : list F :=
  repeat f_zero (Z.to_nat (u32 (outChannels a * icount_frames a))).

(** The mix before the loop over the pool. *)
Definition base_mix (st : globals) (a : callback_args) : list F :=
  if cursor_moves st then dry_layer st a (silent_mix a) else silent_mix a.

(** A target that goes through one of the three objects: an id of the
    original sequence mapping or a legacy alias 1, 2, 3. *)
Definition maps_through_objects (st : globals) (target : Z) : bool :=
  let '(o0, o1, o2) := g_original_sequence_channels st in
  (target =? o0 + 1) || (target =? o1 + 1) || (target =? o2 + 1)
  || (target =? 1) || (target =? 2) || (target =? 3).

(** A grain aimed at an object id whose channel the device does not have. *)
Definition unroutable (st : globals) (a : callback_args) (g : struct_grain)
  : Prop :=
  target_object g <> -1 /\ target_object g <> -2
  /\ outChannels a <= final_target_ch st (target_object g).

(** The mix cell by cell, as the routing rules describe it.  The cell of
    channel [ch] at frame [f] starts from the base layer; every grain of
    the pool, in order, adds its sample for the frame when the grain is
    active, the frame is one it plays in this callback and lies inside the
    source, and the grain is routed to the channel: to every channel for
    the target -2, to none for -1, and otherwise to the one channel its
    target resolves to. *)
Definition base_cell (st : globals) (ch f : Z) : F :=
  if cursor_moves st then
    let fd := global_AudioFileData st in
    let fr_read := u32 (present_frame fd + f) in
    f_mul f_zero
      (if fr_read <? frames_total fd
       then samples fd (ch mod channels_file fd) fr_read
       else f_zero)
  else f_zero.

Definition plays_frame (st : globals) (a : callback_args) (g : struct_grain)
  (f : Z) : bool :=
  status_callback_grain g
  && (f <? frames_grain_process a g)
  && (u32 (address_start_frame g + address_present_grain g + f)
      <? total_frames st).

Definition routed_to (st : globals) (g : struct_grain) (ch : Z) : bool :=
  if target_object g =? -1 then false
  else if target_object g =? -2 then true
  else final_target_ch st (target_object g) =? ch.

Definition grain_sample (st : globals) (interval : Z) (g : struct_grain)
  (ch f : Z) : F :=
  let fd := global_AudioFileData st in
  let source_ch :=
    if target_object g =? -2 then ch
    else resolve_target_ch st (target_object g) in
  f_mul f_one
    (f_mul
       (samples fd (source_ch mod channels_file fd)
          (u32 (address_start_frame g + address_present_grain g + f)))
       (f_mul (frames_gain_envelope g (env_idx g f))
          (f_mul (gain_grain g)
             (f_gain_norm (g_envelope_rms st) (frames_grain g) interval)))).

Definition add_grain (st : globals) (a : callback_args) (interval : Z)
  (ch f : Z) (v : F) (g : struct_grain) : F :=
  if plays_frame st a g f && routed_to st g ch
  then f_add v (grain_sample st interval g ch f)
  else v.

Definition mixed_cell (st : globals) (a : callback_args) (interval : Z)
  (grains : list struct_grain) (ch f : Z) : F :=
  fold_left (add_grain st a interval ch f) grains (base_cell st ch f).

(** Iterating the callback over a list of arguments. *)
Definition run_callbacks (st : globals) (args : list callback_args) : globals :=
  fold_left (fun st a => snd (fst (function_callback_audio st a))) args st.

End WithSamples.

End Engine.

(** ** Printing a sequence ([function_print_vector]) *)

Module Print.

Local Open Scope string_scope.

(** One entry as the output loop writes it: [x] for -1, the number
    otherwise. *)
Definition print_entry (v : Z) : string :=
  if (v =? -1)%Z then "x" else Translate.to_string v.

(** The loop [for (i = 0; i < result.size(); ++i)], with a space after
    every entry but the last. *)
Fixpoint print_sequence (result : list Z) : string :=
  match result with
  | [] => ""
  | v :: rest =>
      match rest with
      | [] => print_entry v
      | _ => print_entry v ++ " " ++ print_sequence rest
      end
  end.

(** The value of a run of decimal digits read after [acc]. *)
Fixpoint uint_value (acc : Z) (d : Decimal.uint) : Z :=
  match d with
  | Decimal.Nil => acc
  | Decimal.D0 d => uint_value (acc * 10 + 0) d
  | Decimal.D1 d => uint_value (acc * 10 + 1) d
  | Decimal.D2 d => uint_value (acc * 10 + 2) d
  | Decimal.D3 d => uint_value (acc * 10 + 3) d
  | Decimal.D4 d => uint_value (acc * 10 + 4) d
  | Decimal.D5 d => uint_value (acc * 10 + 5) d
  | Decimal.D6 d => uint_value (acc * 10 + 6) d
  | Decimal.D7 d => uint_value (acc * 10 + 7) d
  | Decimal.D8 d => uint_value (acc * 10 + 8) d
  | Decimal.D9 d => uint_value (acc * 10 + 9) d
  end.

(** Texts without whitespace, and blank texts. *)
Fixpoint no_space (s : string) : bool :=
  match s with
  | EmptyString => true
  | String c s' => negb (Parse.isspace c) && no_space s'
  end.

Fixpoint all_space (s : string) : bool :=
  match s with
  | EmptyString => true
  | String c s' => Parse.isspace c && all_space s'
  end.

(** The number of entries a token adds when the parser accepts it: the
    count read after the first [*], none when that count is not positive,
    and one for a token without [*]. *)
Definition accepted_length (t : string) : nat :=
  if String.eqb t "x" then 1%nat
  else
    match Parse.find_char "*" t with
    | Some p => Z.to_nat (Parse.leading_value (Parse.substr_from (S p) t))
    | None => 1%nat
    end.

End Print.

(** ** The channel-order test ([triggerChannelOrderTest] and the test
    block of [function_callback_audio]) *)

Module ChannelTest.

Import Engine.

Section WithTone.

Context {F : Type} `{SampleOps F}.

(** The phase of a tone is a [float] whose arithmetic is kept abstract:
    [tone phase] is [g_test_gain * std::sin(phase)], and
    [next_phase channel_now phase] is [phase + inc], less [2 pi] once above
    it, where [inc] comes from the frequency of [channel_now]
    ([g_test_base_freq], [g_test_freq_step] and the sample rate, which the
    program never changes). *)
Context {P : Type} (phase_zero : P) (tone : P -> F)
  (next_phase : Z -> P -> P).

Abbreviation engine_globals := (@globals F).

(** The globals of the test, [g_run_channel_order_test] apart, which is a
    field of [globals]. *)
Record test_globals : Type := {
  gstatus_mute_toanchors : bool;
  g_output_channels : Z;
  g_test_frames_per_channel : Z;
  g_test_silence_frames : Z;
  g_test_frame_cursor : Z;
  g_test_phase : list P
}.

Definition triggerChannelOrderTest (framesPerChannel silenceFrames : Z)
  (st : engine_globals) (t : test_globals) : engine_globals * test_globals :=
  (set_flags (g_status_audio_playback st) true st,
   {| gstatus_mute_toanchors := false;
      g_output_channels := g_output_channels t;
      g_test_frames_per_channel := framesPerChannel;
      g_test_silence_frames := silenceFrames;
      g_test_frame_cursor := 0;
      g_test_phase := repeat phase_zero 6 |}).

(** [block], [channel_now] and [within] for the frame [fr] of a callback. *)
Definition block (t : test_globals) : Z :=
  u32 (g_test_frames_per_channel t + g_test_silence_frames t).

Definition channel_now (t : test_globals) (fr : Z) : Z :=
  let sine_frames_behind := u32 (g_test_frame_cursor t + fr) in
  if 0 <? block t then sine_frames_behind / block t else 0.

Definition within (t : test_globals) (fr : Z) : Z :=
  let sine_frames_behind := u32 (g_test_frame_cursor t + fr) in
  if 0 <? block t then sine_frames_behind mod block t else 0.

(** One output channel at one frame: the cell is assigned the tone when
    the channel is the one under test and [within] is in the sounding part
    of the block, [0.0f] otherwise.  The phase read and written is
    [g_test_phase[channel_now]] when there is one.  An index outside [mix]
    (the product of the two sizes wrapped) is undefined in the source; the
    assignment does nothing here. *)
Definition tone_channel (a : callback_args) (t : test_globals) (fr ch : Z)
  (pm : list P * list F) : list P * list F :=
  let '(phases, mix) := pm in
  let test_channel_with_offset := u32 (channel_now t fr + g_channel_offset) in
  if (ch =? test_channel_with_offset)
     && (within t fr <? g_test_frames_per_channel t)
  then
    let known := channel_now t fr <? Z.of_nat (length phases) in
    let phase :=
      if known
      then default phase_zero (phases !! Z.to_nat (channel_now t fr))
      else phase_zero in
    let phases' :=
      if known
      then <[Z.to_nat (channel_now t fr) :=
               next_phase (channel_now t fr) phase]> phases
      else phases in
    (phases', <[mixIndex a ch fr := tone phase]> mix)
  else (phases, <[mixIndex a ch fr := f_zero]> mix).

(** The loop over the output channels for one frame. *)
Definition tone_channels (a : callback_args) (t : test_globals) (fr : Z)
  (phases : list P) (mix : list F) : list P * list F :=
  for_loop (outChannels a) (tone_channel a t fr) (phases, mix).

(** The loop over the frames, left by [break] at the first frame that
    belongs to no channel of the device; the flag returned says whether it
    was. *)
Fixpoint test_frames (a : callback_args) (t : test_globals) (frames : list Z)
  (phases : list P) (mix : list F) : bool * list P * list F :=
  match frames with
  | [] => (false, phases, mix)
  | fr :: rest =>
      if g_output_channels t <=? channel_now t fr then (true, phases, mix)
      else
        let '(phases', mix') := tone_channels a t fr phases mix in
        test_frames a t rest phases' mix'
  end.

Definition frames_of (a : callback_args) : list Z :=
  map Z.of_nat (seq 0 (Z.to_nat (icount_frames a))).

(** The test block of the callback. *)
Definition channel_order_test (st : engine_globals) (t : test_globals)
  (a : callback_args) (mix : list F) : engine_globals * test_globals * list F :=
  if g_run_channel_order_test st && (0 <? g_output_channels t) then
    let '(ended, phases, mix') :=
      test_frames a t (frames_of a) (g_test_phase t) mix in
    (if ended then set_flags (g_status_audio_playback st) false st else st,
     {| gstatus_mute_toanchors :=
          if ended then true else gstatus_mute_toanchors t;
        g_output_channels := g_output_channels t;
        g_test_frames_per_channel := g_test_frames_per_channel t;
        g_test_silence_frames := g_test_silence_frames t;
        g_test_frame_cursor := u32 (g_test_frame_cursor t + icount_frames a);
        g_test_phase := phases |},
     mix')
  else (st, t, mix).

(** The callback with the test block: everything before the conversion of
    [mix] to the format of the device. *)
Definition render (st : engine_globals) (t : test_globals) (a : callback_args)
  : OSStatus * engine_globals * test_globals * list F :=
  let '(status, st1, mix) := function_callback_audio st a in
  let '(st2, t2, mix2) := channel_order_test st1 t a mix in
  (status, st2, t2, mix2).

Definition after_render (s : engine_globals * test_globals) (a : callback_args)
  : engine_globals * test_globals :=
  let '(_, st', t', _) := render (fst s) (snd s) a in (st', t').

Definition run_renders (st : engine_globals) (t : test_globals)
  (args : list callback_args) : engine_globals * test_globals :=
  fold_left after_render args (st, t).

(** What the test leaves in the cell of channel [ch] at frame [fr]: a
    value of the tone, or exactly zero. *)
Definition test_cell (t : test_globals) (fr ch : Z) (cell : F) : Prop :=
  if (ch =? channel_now t fr) && (within t fr <? g_test_frames_per_channel t)
  then exists phase, cell = tone phase
  else cell = f_zero.

End WithTone.

End ChannelTest.

(** ** Concrete data for running the definitions *)

(** Integer samples with a unit normalisation gain: an interpretation of
    the sample arithmetic under which the engine can be evaluated. *)
#[export] Instance integer_samples : SampleOps Z := {|
  f_zero := 0;
  f_one := 1;
  f_add := Z.add;
  f_mul := Z.mul;
  f_gain_norm := fun _ _ _ => 1
|}.

(** Objects 1, 2, 3 on channels 1, 2, 3 and the sequence text ["1 2 3"]. *)
Definition translation_example : Translate.translation_state :=
  {| Translate.garray_channel_anchor := (0, 1, 2);
     Translate.g_use_grain_hopping := true;
     Translate.g_grain_sequence := [1; 2; 3];
     Translate.g_original_sequence_string := "1 2 3" |}.

(** A mono source of 4096 frames, as installed before the stream starts. *)
Definition example_start : @Engine.globals Z :=
  Engine.initial 1 (fun _ fr => fr + 1) 4096 (fun _ => 1) 1.

(** A travel factor that is a [float] (1 + 3 * 2^-13) inside the default
    range, with no jitter. *)
Definition example_draws : Engine.draws :=
  {| Engine.jitter := 0; Engine.scale := 8195 # 8192 |}.

(** Eight callbacks of 512 frames on two output channels, which bring the
    cursor of [example_start] to the end of its 4096 frames; the spawn of
    the last one draws the jitter -1000. *)
Definition example_args (j : Z) : Engine.callback_args :=
  {| Engine.icount_frames := 512;
     Engine.outChannels := 2;
     Engine.rng := {| Engine.jitter := j; Engine.scale := 1 |} |}.

Definition example_run : list Engine.callback_args :=
  repeat (example_args 0) 7 ++ [example_args (-1000)].

Definition example_at_end : @Engine.globals Z :=
  Engine.run_callbacks (Engine.set_flags true false example_start) example_run.

(** [example_start] after [setupGrainHopping] with the line ["1 2 3"]. *)
Definition example_hopping : @Engine.globals Z :=
  Engine.set_flags true true
    (Engine.set_sequence [1; 2; 3] 0 true example_start).

(** A callback long enough to reach the trigger interval at once, and the
    grain its spawn puts in slot 0 of [example_start]. *)
Definition example_long_args : Engine.callback_args :=
  {| Engine.icount_frames := 1024;
     Engine.outChannels := 2;
     Engine.rng := {| Engine.jitter := 0; Engine.scale := 1 |} |}.

Definition example_grain : @Engine.struct_grain Z :=
  {| Engine.address_start_frame := 0;
     Engine.address_present_grain := 0;
     Engine.frames_grain := 2048;
     Engine.gain_grain := 1;
     Engine.frames_gain_envelope := fun _ => 1;
     Engine.status_callback_grain := true;
     Engine.target_object := -2 |}.

(** The grain stranded in slot 1 of [example_at_end]. *)
Definition example_stranded : @Engine.struct_grain Z :=
  {| Engine.address_start_frame := 2584;
     Engine.address_present_grain := 512;
     Engine.frames_grain := 1512;
     Engine.gain_grain := 1;
     Engine.frames_gain_envelope := fun _ => 1;
     Engine.status_callback_grain := true;
     Engine.target_object := -2 |}.

(** A grain aimed at object id 7, on a device with two channels. *)
Definition example_far_grain : @Engine.struct_grain Z :=
  {| Engine.address_start_frame := 0;
     Engine.address_present_grain := 0;
     Engine.frames_grain := 2048;
     Engine.gain_grain := 1;
     Engine.frames_gain_envelope := fun _ => 1;
     Engine.status_callback_grain := true;
     Engine.target_object := 7 |}.

(** [example_start] with playback on after eight spawn attempts: the pool
    holds eight grains of 2048 frames at playhead 0.  A callback of 2048
    frames plays each of them to its end. *)
Definition example_full : @Engine.globals Z :=
  Nat.iter 8 (fun st => Engine.function_process_grain st example_draws)
    (Engine.set_flags true false example_start).

Definition example_whole_args : Engine.callback_args :=
  {| Engine.icount_frames := 2048;
     Engine.outChannels := 2;
     Engine.rng := {| Engine.jitter := 0; Engine.scale := 1 |} |}.

(** A source of 2^32 - 1 frames, playing, with the cursor 256 frames
    before 2^32. *)
Definition example_huge : @Engine.globals Z :=
  Engine.set_present_frame 4294967040
    (Engine.set_flags true false
       (Engine.initial 1 (fun _ fr => fr + 1) 4294967295 (fun _ => 1) 1)).

(** Two grains spawned from the sequence [5; 7], and a callback of four
    frames on a device with six channels: the first grain is sent to
    channel 5, the second ([example_far_grain]) has no channel. *)
Definition example_routing : @Engine.globals Z :=
  Nat.iter 2 (fun st => Engine.function_process_grain st example_draws)
    (Engine.set_flags true false
       (Engine.set_sequence [5; 7] 0 true example_start)).

Definition example_wide_args : Engine.callback_args :=
  {| Engine.icount_frames := 4;
     Engine.outChannels := 6;
     Engine.rng := {| Engine.jitter := 0; Engine.scale := 1 |} |}.

(** The globals of a channel test on a device with two channels, as they
    are before [triggerChannelOrderTest]; in the examples a phase is a step
    count and the tone is the count itself. *)
Definition example_test : @ChannelTest.test_globals Z :=
  {| ChannelTest.gstatus_mute_toanchors := true;
     ChannelTest.g_output_channels := 2;
     ChannelTest.g_test_frames_per_channel := 24000;
     ChannelTest.g_test_silence_frames := 4800;
     ChannelTest.g_test_frame_cursor := 0;
     ChannelTest.g_test_phase := [] |}.

Definition example_tone (phase : Z) : Z := phase.

Definition example_next_phase (channel_now phase : Z) : Z := phase + 1.

(** * Properties *)

(** ** The sequence parser *)

Section ParseFacts.

Import Parse.
Local Open Scope string_scope.

Lemma digit_not_space c : isdigit c = true -> isspace c = false.
Proof.
  unfold isdigit, isspace. intros Hd.
  apply andb_true_iff in Hd as [Hlo Hhi].
  apply Nat.leb_le in Hlo. apply Nat.leb_le in Hhi.
  apply orb_false_iff. split.
  - apply Nat.eqb_neq. lia.
  - apply andb_false_iff. right. apply Nat.leb_gt. lia.
Qed.

(** On a [NUMBER] of the grammar [stoi] returns its decimal value. *)
Lemma stoi_number s : is_number s = true -> stoi s = Ok (number_value s).
Proof.
  unfold is_number, valid_integer. intros Hn.
  apply andb_true_iff in Hn as [Hvalid Hrange].
  apply andb_true_iff in Hvalid as [Hstart _].
  assert (Hskip : skip_space s = s).
  { destruct s as [|c s]; [reflexivity|]. cbn [skip_space].
    replace (isspace c) with false; [reflexivity|]. symmetry.
    unfold strip_sign in Hstart.
    destruct (Ascii.eqb_spec c "-") as [-> | _]; [reflexivity|].
    destruct (Ascii.eqb_spec c "+") as [-> | _]; [reflexivity|].
    now apply digit_not_space. }
  unfold stoi, begins_with_integer, leading_value. rewrite Hskip, Hstart.
  fold (number_value s). now rewrite Hrange.
Qed.

Lemma list_sum_step (n : nat) (l : list nat) :
  list_sum (n :: l) = (n + list_sum l)%nat.
Proof. reflexivity. Qed.

(** Parsing a list of well-formed tokens succeeds and appends to the
    vector as many entries as the tokens declare. *)
Lemma parse_tokens_well_formed toks :
  forall acc,
    forallb wf_token toks = true ->
    exists sequence,
      parse_tokens toks acc = Ok sequence /\
      length sequence = (length acc + list_sum (map declared_length toks))%nat.
Proof.
  induction toks as [|t toks IH]; intros acc Hwf.
  - exists acc. split; [reflexivity | simpl; lia].
  - cbn [forallb] in Hwf. apply andb_true_iff in Hwf as [Ht Hrest].
    cbn [parse_tokens map]. rewrite list_sum_step.
    unfold wf_token in Ht. unfold declared_length at 1.
    destruct (String.eqb t "x") eqn:Hx.
    + destruct (IH (acc ++ [(-1)%Z])%list Hrest) as (sq & Hp & Hl).
      exists sq. split; [exact Hp|]. rewrite Hl, length_app. simpl. lia.
    + destruct (find_char "*" t) as [p|] eqn:Hstar.
      * apply andb_true_iff in Ht as [Ht Hpos].
        apply andb_true_iff in Ht as [Htarget Hcount].
        rewrite (stoi_number _ Hcount). cbn [bind].
        set (n := Z.to_nat (number_value (substr_from (S p) t))).
        assert (Hobj : exists v,
                  (if String.eqb (substr_to p t) "x" then Ok (-1)%Z
                   else stoi (substr_to p t)) = Ok v).
        { destruct (String.eqb (substr_to p t) "x"); [now eexists|].
          simpl in Htarget. rewrite (stoi_number _ Htarget). now eexists. }
        destruct Hobj as [v ->]. cbn [bind].
        destruct (IH (acc ++ repeat v n)%list Hrest) as (sq & Hp & Hl).
        exists sq. split; [exact Hp|].
        rewrite Hl, length_app, repeat_length. lia.
      * rewrite (stoi_number _ Ht). cbn [bind].
        destruct (IH (acc ++ [number_value t])%list Hrest) as (sq & Hp & Hl).
        exists sq. split; [exact Hp|]. rewrite Hl, length_app. simpl. lia.
Qed.

(** C4.  The parser maps ["1 2 3*5 x 2*7 x*3"] to the 18 entries
    [1,2,3,3,3,3,3,-1,2,2,2,2,2,2,2,-1,-1,-1]; and on every well-formed
    input it succeeds with a sequence whose length is the sum of the
    declared repeat counts plus the number of singleton tokens. *)
Theorem parse_expansion :
  (function_sequence_parse "1 2 3*5 x 2*7 x*3"
     = Ok [1; 2; 3; 3; 3; 3; 3; -1; 2; 2; 2; 2; 2; 2; 2; -1; -1; -1]%Z
   /\ length [1; 2; 3; 3; 3; 3; 3; -1; 2; 2; 2; 2; 2; 2; 2; -1; -1; -1]%Z
      = 18%nat)
  /\ forall s,
       well_formed s = true ->
       exists sequence,
         function_sequence_parse s = Ok sequence /\
         length sequence = expansion_length s.
Proof.
  split; [split; reflexivity|].
  intros s Hwf. unfold function_sequence_parse, expansion_length.
  destruct (parse_tokens_well_formed (tokens s) [] Hwf) as (sq & Hp & Hl).
  exists sq. split; [exact Hp | exact Hl].
Qed.

Lemma parse_expansion_witness :
  well_formed "7 x*2 4*3" = true /\
  exists sequence,
    function_sequence_parse "7 x*2 4*3" = Ok sequence /\
    length sequence = expansion_length "7 x*2 4*3".
Proof.
  split; [reflexivity|].
  exact (proj2 parse_expansion "7 x*2 4*3" eq_refl).
Defined.

Lemma stoi_is_Ok s : is_Ok (stoi s) = negb (rejected_integer s).
Proof.
  unfold stoi, rejected_integer.
  destruct (begins_with_integer s), (in_int_range (leading_value s));
    reflexivity.
Qed.

Lemma stoi_rejected s :
  rejected_integer s = true -> exists e, stoi s = Throw e.
Proof.
  intros Hr. pose proof (stoi_is_Ok s) as Hok. rewrite Hr in Hok.
  destruct (stoi s) as [v|e]; [discriminate Hok | now exists e].
Qed.

Lemma stoi_accepted s :
  rejected_integer s = false -> stoi s = Ok (leading_value s).
Proof.
  unfold stoi, rejected_integer.
  destruct (begins_with_integer s), (in_int_range (leading_value s));
    simpl; intros Hr; try discriminate Hr; reflexivity.
Qed.

(** The loop stops with an exception at the first rejected token, and
    runs to the end when there is none. *)
Lemma parse_tokens_is_Ok toks :
  forall acc,
    is_Ok (parse_tokens toks acc) = negb (existsb rejected_token toks).
Proof.
  induction toks as [|t toks IH]; intros acc; [reflexivity|].
  cbn [parse_tokens existsb]. unfold rejected_token at 1.
  destruct (String.eqb t "x") eqn:Hx; [apply IH|].
  destruct (find_char "*" t) as [p|].
  - destruct (rejected_integer (substr_from (S p) t)) eqn:Hcount.
    + destruct (stoi_rejected _ Hcount) as [e ->]. reflexivity.
    + rewrite (stoi_accepted _ Hcount). cbn [bind orb].
      destruct (String.eqb (substr_to p t) "x"); cbn [negb andb bind].
      * apply IH.
      * destruct (rejected_integer (substr_to p t)) eqn:Htarget.
        -- destruct (stoi_rejected _ Htarget) as [e ->]. reflexivity.
        -- rewrite (stoi_accepted _ Htarget). cbn [bind]. apply IH.
  - destruct (rejected_integer t) eqn:Hbare.
    + destruct (stoi_rejected _ Hbare) as [e ->]. reflexivity.
    + rewrite (stoi_accepted _ Hbare). cbn [bind]. apply IH.
Qed.

(** C8, as stated, fails: ["12abc"] and ["3*5*2"] are not valid integers
    on a side of [*] or as a bare token, and the parser reads the leading
    digits and drops the rest without any error. *)
Lemma parse_accepts_trailing_text :
  existsb invalid_token (tokens "1 12abc 3*5*2") = true /\
  invalid_token "12abc" = true /\
  invalid_token "3*5*2" = true /\
  function_sequence_parse "1 12abc 3*5*2" = Ok [1; 12; 3; 3; 3; 3; 3]%Z.
Proof. repeat split; reflexivity. Qed.

End ParseFacts.

(** ** The sequence-translation feature *)

Section TranslateFacts.

Import Translate.
Local Open Scope string_scope.

Lemma append_length (s1 s2 : string) :
  String.length (s1 ++ s2) = (String.length s1 + String.length s2)%nat.
Proof. induction s1 as [|c s1 IH]; cbn; [reflexivity | now rewrite IH]. Qed.

Lemma prefix_length (pat s : string) :
  String.prefix pat s = true -> (String.length pat <= String.length s)%nat.
Proof.
  revert pat. induction s as [|c s IH]; intros [|d pat]; cbn;
    try lia; try discriminate.
  destruct (Ascii.ascii_dec d c); [|intros Hp; discriminate Hp].
  intros Hp. specialize (IH pat Hp). lia.
Qed.

Lemma substr_to_length (n : nat) (s : string) :
  (n <= String.length s)%nat -> String.length (Parse.substr_to n s) = n.
Proof.
  revert n. induction s as [|c s IH]; intros [|n]; cbn; try lia.
  intros Hn. rewrite IH; lia.
Qed.

Lemma substr_from_length (n : nat) (s : string) :
  String.length (Parse.substr_from n s) = (String.length s - n)%nat.
Proof.
  revert n. induction s as [|c s IH]; intros [|n]; cbn; try lia. apply IH.
Qed.

Lemma find_at_bounds (pat s : string) :
  forall here pos i,
    find_at pat s here pos = Some i ->
    (pos <= i /\ here <= i
     /\ i - here + String.length pat <= String.length s)%nat.
Proof.
  induction s as [|c s IH]; intros here pos i; cbn [find_at].
  - destruct (Nat.leb pos here && String.prefix pat "") eqn:Hhit;
      [|discriminate].
    intros [= <-]. apply andb_true_iff in Hhit as [Hle Hp].
    apply Nat.leb_le in Hle. apply prefix_length in Hp. lia.
  - destruct (Nat.leb pos here && String.prefix pat (String c s)) eqn:Hhit.
    + intros [= <-]. apply andb_true_iff in Hhit as [Hle Hp].
      apply Nat.leb_le in Hle. apply prefix_length in Hp. lia.
    + intros Hfind. apply IH in Hfind. cbn [String.length]. lia.
Qed.

(** The replacement loop always ends: with a non-empty old text, the part
    of the string still to be searched shrinks at every replacement, and
    the fuel of [replace_all] covers it. *)
Lemma replace_loop_terminates (first second : string) :
  first <> "" ->
  forall fuel translated index_str,
    (index_str <= String.length translated)%nat ->
    (String.length translated - index_str < fuel)%nat ->
    exists result,
      replace_loop fuel first second translated index_str = Some result.
Proof.
  intros Hne fuel.
  assert (Hpos : (1 <= String.length first)%nat)
    by (destruct first; [contradiction | cbn; lia]).
  induction fuel as [|fuel IH]; intros translated index_str Hidx Hfuel; [lia|].
  cbn [replace_loop].
  destruct (find translated first index_str) as [i|] eqn:Hfind;
    [|now eexists].
  apply find_at_bounds in Hfind as (Hlo & _ & Hhi).
  apply IH; unfold replace;
    rewrite !append_length, substr_from_length, substr_to_length; lia.
Qed.

Lemma replace_all_terminates (first second translated : string) :
  first <> "" ->
  exists result, replace_all first second translated = Some result.
Proof.
  intros Hne. apply replace_loop_terminates; [exact Hne | lia | lia].
Qed.

(** C1 (the code does not do what the claim says).  On objects 1, 2, 3
    and the text ["1 2 3"] six texts are printed, one per mapping, but the
    three replacements of a mapping are applied one after the other to the
    same text, so ids already rewritten are rewritten again: the option
    annotated 1->2, 2->3, 3->1 prints ["1 1 1"], not ["2 3 1"], and no
    order of its three replacements yields ["2 3 1"]. *)
Theorem translation_rotate_left_collapses :
  show_sequence_translations translation_example
    = [Some "1 2 3"; Some "1 2 2"; Some "1 1 3";
       Some "1 1 1"; Some "2 1 2"; Some "1 2 1"]
  /\ mappings (old_ids translation_example) !! 3%nat = Some (2, 3, 1)%Z
  /\ translate_option translation_example (2, 3, 1)%Z = Some "1 1 1"
  /\ forall order,
       order ≡ₚ replacements_of (1, 2, 3)%Z (2, 3, 1)%Z ->
       apply_replacements order "1 2 3" <> Some "2 3 1".
Proof.
  split; [reflexivity|]. split; [reflexivity|]. split; [reflexivity|].
  intros order Hperm. symmetry in Hperm.
  apply permutations_Permutation in Hperm.
  let l := eval vm_compute in
             (permutations (replacements_of (1, 2, 3)%Z (2, 3, 1)%Z)) in
  change (order ∈ l) in Hperm.
  repeat match goal with
         | H : _ ∈ _ :: _ |- _ => apply elem_of_cons in H as [-> | H]
         | H : _ ∈ [] |- _ => apply elem_of_nil in H; destruct H
         end; intros Heq; vm_compute in Heq; discriminate Heq.
Qed.

End TranslateFacts.


(** ** The grain engine *)

Section EngineFacts.

Context {F : Type} `{SampleOps F}.

Import Engine.

Abbreviation grain := (@struct_grain F).
Abbreviation state := (@globals F).

Ltac unfold_u32 :=
  unfold is_u32, u32 in *; change (2 ^ 32) with 4294967296 in *.

Lemma u32_range z : 0 <= u32 z < 2 ^ 32.
Proof. unfold u32. apply Z.mod_pos_bound. reflexivity. Qed.

Lemma u32_small z : 0 <= z < 2 ^ 32 -> u32 z = z.
Proof. unfold u32. apply Z.mod_small. Qed.

Lemma to_u32_range q : 0 <= Float32.to_u32 q < 2 ^ 32.
Proof. unfold Float32.to_u32. apply u32_range. Qed.

(** *** Counting the active grains *)

Lemma count_active_bounds (grains : list grain) :
  0 <= count_active grains <= Z.of_nat (length grains).
Proof.
  induction grains as [|g rest IH]; simpl; [lia|].
  destruct (status_callback_grain g); lia.
Qed.

Lemma count_active_insert (grains : list grain) :
  forall k g g',
    grains !! k = Some g ->
    count_active (<[k := g']> grains)
    = count_active grains
      - (if status_callback_grain g then 1 else 0)
      + (if status_callback_grain g' then 1 else 0).
Proof.
  induction grains as [|g0 rest IH]; intros k g g' Hk; [discriminate Hk|].
  destruct k as [|k]; simpl in *.
  - injection Hk as ->. lia.
  - rewrite (IH k g g' Hk). lia.
Qed.

(** A lower count means a grain that was active is not any more. *)
Lemma count_active_drop (a : callback_args) (grains : list grain) :
  count_active (map (grain_after a) grains) < count_active grains ->
  exists k g,
    grains !! k = Some g /\ active g /\ completes a g = true.
Proof.
  induction grains as [|g rest IH]; simpl; [lia|].
  unfold grain_after at 1, completes at 1.
  destruct (status_callback_grain g) eqn:Hs; simpl.
  - destruct (frames_grain g
              <=? u32 (address_present_grain g + frames_grain_process a g))
      eqn:Hdone; simpl.
    + intros _. exists 0%nat, g. repeat split; [exact Hs|].
      unfold completes. now rewrite Hs, Hdone.
    + intros Hlt. destruct IH as (k & g1 & Hk & Hg1); [lia|].
      exists (S k), g1. split; [exact Hk | exact Hg1].
  - rewrite Hs. intros Hlt. destruct IH as (k & g1 & Hk & Hg1); [lia|].
    exists (S k), g1. split; [exact Hk | exact Hg1].
Qed.

(** *** The spawn *)

Lemma spawn_cases (st : state) d :
  (function_process_grain st d = st
   /\ (8 <= active_count st \/ list_find inactive (pool st) = None))
  \/ (active_count st < 8
      /\ exists k slot,
           list_find inactive (pool st) = Some (k, slot)
           /\ function_process_grain st d = spawned st d k slot).
Proof.
  unfold function_process_grain, active_count, pool.
  destruct (8 <=? active_envelopes_grain (global_ProcessGrain st)) eqn:Hfull.
  - left. split; [reflexivity|]. left. now apply Z.leb_le.
  - apply Z.leb_gt in Hfull.
    destruct (list_find inactive
                (object_array_grains (global_ProcessGrain st)))
      as [[k slot]|] eqn:Hfind.
    + right. split; [exact Hfull|]. exists k, slot. split; [reflexivity|].
      unfold spawned. now destruct (initialize_grain _ _ _ _ _).
    + left. split; [reflexivity|]. now right.
Qed.

Lemma spawn_length_range (st : state) d : 0 <= spawn_length st d < 2 ^ 32.
Proof.
  unfold spawn_length, spawn_scaled_length.
  destruct (total_frames st <? _); [apply u32_range|].
  destruct (Float32.to_u32 _ <? 64) eqn:Hlt; [unfold_u32; lia|].
  apply to_u32_range.
Qed.

Lemma initialize_grain_position (st : state) slot start len gain :
  g_grain_sequence st <> [] ->
  (g_sequence_position st < length (g_grain_sequence st))%nat ->
  (snd (initialize_grain st slot start len gain)
   < length (g_grain_sequence st))%nat.
Proof.
  intros Hne Hpos. unfold initialize_grain. cbn [snd].
  destruct (g_use_grain_hopping st && _); [|exact Hpos].
  apply Nat.mod_upper_bound. destruct (g_grain_sequence st); [contradiction|].
  discriminate.
Qed.

Lemma spawned_invariant (st : state) d k slot :
  invariant st ->
  active_count st < 8 ->
  list_find inactive (pool st) = Some (k, slot) ->
  invariant (spawned st d k slot).
Proof.
  intros [Hlen Hcount Hlimit Hgrains] Hfree Hfind.
  apply list_find_Some in Hfind as (Hk & Hslot & _).
  unfold inactive in Hslot.
  pose proof (count_active_bounds (pool st)) as Hbounds.
  assert (Hu : u32 (active_count st + 1) = active_count st + 1)
    by (apply u32_small; unfold_u32; lia).
  unfold pool, active_count in *.
  constructor; unfold spawned, pool, active_count;
    cbn [global_ProcessGrain object_array_grains active_envelopes_grain
         set_sequence set_ProcessGrain g_grain_sequence g_sequence_position].
  - now rewrite length_insert.
  - rewrite Hu, (count_active_insert _ k slot _ Hk), Hslot. cbn. lia.
  - rewrite Hu. lia.
  - apply Forall_insert; [exact Hgrains|].
    unfold grain_ok. cbn. pose proof (spawn_length_range st d). lia.
Qed.

Lemma spawn_invariant (st : state) d :
  invariant st -> invariant (function_process_grain st d).
Proof.
  intros Hinv.
  destruct (spawn_cases st d) as [[-> _] | (Hfree & k & slot & Hfind & ->)];
    [exact Hinv | now apply spawned_invariant].
Qed.

(** *** The loop over the pool *)

Lemma process_grain_result (st : state) a interval g count mix :
  exists mix',
    process_grain st a interval g count mix
    = (grain_after a g,
       if completes a g then u32 (count - 1) else count,
       mix').
Proof.
  unfold process_grain, grain_after, completes.
  destruct (status_callback_grain g); cbn [negb andb]; [|now eexists].
  fold (frames_grain_process a g).
  destruct (frames_grain g
            <=? u32 (address_present_grain g + frames_grain_process a g));
    now eexists.
Qed.

Lemma process_grains_pool (st : state) a interval grains :
  forall count mix,
    fst (fst (process_grains st a interval grains count mix))
    = map (grain_after a) grains.
Proof.
  induction grains as [|g rest IH]; intros count mix; [reflexivity|].
  cbn [process_grains map].
  destruct (process_grain_result st a interval g count mix) as [mix' ->].
  specialize (IH (if completes a g then u32 (count - 1) else count) mix').
  destruct (process_grains st a interval rest _ mix') as [[rest' c] m].
  cbn in *. now rewrite IH.
Qed.

Lemma grain_after_ok a (g : grain) :
  0 <= icount_frames a -> grain_ok g -> grain_ok (grain_after a g).
Proof.
  intros HF [Hp Hf]. unfold grain_after.
  destruct (status_callback_grain g); [|now split].
  unfold grain_ok, advance_grain, frames_grain_process. cbn.
  rewrite (u32_small (frames_grain g - address_present_grain g))
    by (unfold_u32; lia).
  rewrite u32_small by (unfold_u32; lia). lia.
Qed.

(** A grain is completed exactly when its playhead has reached its
    length; a grain that was inactive stays as it is. *)
Lemma grain_after_status a (g : grain) :
  status_callback_grain (grain_after a g)
  = status_callback_grain g && negb (completes a g).
Proof.
  unfold grain_after, completes.
  destruct (status_callback_grain g) eqn:Hs; [reflexivity | now rewrite Hs].
Qed.

Lemma count_active_after a (grains : list grain) :
  count_active (map (grain_after a) grains) <= count_active grains.
Proof.
  induction grains as [|g rest IH]; cbn [map count_active]; [lia|].
  rewrite grain_after_status.
  destruct (status_callback_grain g), (completes a g); cbn; lia.
Qed.

Lemma process_grains_count (st : state) a interval grains :
  forall count mix,
    count_active grains <= count < 2 ^ 32 ->
    snd (fst (process_grains st a interval grains count mix))
    = count - (count_active grains - count_active (map (grain_after a) grains)).
Proof.
  induction grains as [|g rest IH]; intros count mix Hc.
  - cbn. lia.
  - cbn [process_grains map count_active] in *.
    destruct (process_grain_result st a interval g count mix) as [mix' ->].
    rewrite grain_after_status.
    pose proof (count_active_bounds rest) as Hb.
    assert (Hstep :
      count_active rest
      <= (if completes a g then u32 (count - 1) else count) < 2 ^ 32
      /\ (if completes a g then u32 (count - 1) else count)
         = count - (if status_callback_grain g && completes a g
                    then 1 else 0)).
    { unfold completes.
      destruct (status_callback_grain g); cbn [andb]; [|lia].
      destruct (frames_grain g <=? _); [|lia].
      rewrite u32_small by (unfold_u32; lia). unfold_u32. lia. }
    destruct Hstep as [Hrange Heq].
    specialize (IH _ mix' Hrange).
    destruct (process_grains st a interval rest _ mix') as [[rest' c] m].
    cbn [fst snd] in *. rewrite IH, Heq.
    destruct (status_callback_grain g), (completes a g); cbn; lia.
Qed.

(** *** The invariant along a run *)

Lemma invariant_ext (st st' : state) :
  pool st' = pool st ->
  active_count st' = active_count st ->
  invariant st -> invariant st'.
Proof.
  intros Hp Ha [Hlen Hcount Hlimit Hgrains].
  constructor; rewrite ?Hp, ?Ha; assumption.
Qed.

Lemma invariant_set_count c (st : state) :
  invariant st -> invariant (set_count_present_frame c st).
Proof. apply invariant_ext; reflexivity. Qed.

Lemma invariant_set_present_frame fr (st : state) :
  invariant st -> invariant (set_present_frame fr st).
Proof. apply invariant_ext; reflexivity. Qed.

Lemma trigger_invariant (st : state) a : invariant st -> invariant (trigger st a).
Proof.
  intros Hinv. unfold trigger.
  destruct (interval_start_frames st <=? _).
  - apply invariant_set_count, spawn_invariant, invariant_set_count, Hinv.
  - apply invariant_set_count, Hinv.
Qed.

Lemma callback_invariant (st : state) a :
  is_u32 (icount_frames a) ->
  invariant st ->
  invariant (snd (fst (function_callback_audio st a))).
Proof.
  intros HF Hinv. apply (trigger_invariant st a) in Hinv.
  unfold function_callback_audio.
  set (st1 := trigger st a) in *.
  set (gate := negb (g_run_channel_order_test st1) && g_status_audio_playback st1).
  set (st2 := if gate
              then set_present_frame
                     (Z.min (u32 (cursor st1 + icount_frames a))
                        (total_frames st1)) st1
              else st1).
  assert (Hinv2 : invariant st2).
  { unfold st2. destruct gate; [|exact Hinv].
    apply invariant_set_present_frame, Hinv. }
  assert (Hplay : g_status_audio_playback st2 = g_status_audio_playback st1)
    by (unfold st2; now destruct gate).
  replace (if gate then _ else _) with
    (st2, if gate
          then dry_layer st1 a
                 (repeat f_zero
                    (Z.to_nat (u32 (outChannels a * icount_frames a))))
          else repeat f_zero
                 (Z.to_nat (u32 (outChannels a * icount_frames a))))
    by (unfold st2; now destruct gate).
  cbv beta iota.
  destruct (g_status_audio_playback st2 && _); [|exact Hinv2].
  set (mix1 := if gate then _ else _).
  pose proof (process_grains_pool st2 a (interval_start_frames st)
                (pool st2) (active_count st2) mix1) as Hpool.
  destruct Hinv2 as [Hlen Hcount Hlimit Hgrains].
  pose proof (count_active_bounds (pool st2)) as Hb.
  pose proof (process_grains_count st2 a (interval_start_frames st)
                (pool st2) (active_count st2) mix1
                ltac:(unfold_u32; lia)) as Hcnt.
  unfold pool, active_count in *.
  destruct (process_grains st2 a _ _ _ mix1) as [[grains count] mix2].
  cbn [fst snd] in *. subst grains count.
  pose proof (count_active_after a
                (object_array_grains (global_ProcessGrain st2))) as Hle.
  constructor; unfold pool, active_count;
    cbn [global_ProcessGrain object_array_grains active_envelopes_grain
         set_ProcessGrain g_grain_sequence g_sequence_position].
  - now rewrite length_map.
  - lia.
  - lia.
  - apply Forall_map. eapply Forall_impl; [exact Hgrains|].
    intros g Hg. apply grain_after_ok; [unfold is_u32 in HF; lia | exact Hg].
Qed.

Lemma initial_invariant channels source total envelope rms :
  invariant (initial channels source total envelope rms : state).
Proof.
  constructor.
  - apply repeat_length.
  - reflexivity.
  - cbn. lia.
  - apply Forall_forall. intros g Hg.
    apply list_elem_of_In, repeat_spec in Hg. subst g.
    unfold grain_ok. cbn. lia.
Qed.

Lemma set_sequence_invariant (st : state) sequence position hopping :
  invariant st -> invariant (set_sequence sequence position hopping st).
Proof. apply invariant_ext; reflexivity. Qed.

Lemma setup_invariant (st st' : state) enable text :
  setupGrainHopping st enable text = Continues st' ->
  invariant st -> invariant st'.
Proof.
  unfold setupGrainHopping. intros Hrun Hinv. destruct enable.
  - destruct (Parse.function_sequence_parse text) as [sequence|e];
      [|discriminate Hrun].
    injection Hrun as <-.
    revert Hinv. apply invariant_ext; reflexivity.
  - injection Hrun as <-.
    revert Hinv. apply invariant_ext; reflexivity.
Qed.

Lemma reset_sequence_cursor_invariant (st : state) :
  invariant st -> invariant (reset_sequence_cursor st).
Proof.
  unfold reset_sequence_cursor. destruct (Nat.leb _ _); [|exact id].
  apply set_sequence_invariant.
Qed.

(** The ['h'] command carried out without interruption is the assignment
    followed by the reset of the cursor. *)
Lemma live_sequence_change_steps (st st' : state) text :
  text <> ""%string ->
  live_sequence_change st text = Continues st' ->
  exists sequence,
    Parse.function_sequence_parse text = Ok sequence
    /\ st' = reset_sequence_cursor (assign_sequence sequence st).
Proof.
  unfold live_sequence_change. intros Htext Hrun.
  destruct (String.eqb_spec text ""); [contradiction|].
  destruct (Parse.function_sequence_parse text) as [sequence|e];
    [|discriminate Hrun].
  injection Hrun as <-. exists sequence. split; [reflexivity|].
  unfold reset_sequence_cursor, assign_sequence.
  cbn [set_sequence g_grain_sequence g_sequence_position].
  now destruct (Nat.leb (length sequence) (g_sequence_position st)).
Qed.

Lemma step_invariant (st st' : state) :
  step st st' -> invariant st -> invariant st'.
Proof.
  intros Hstep Hinv. destruct Hstep.
  - now apply callback_invariant.
  - now apply spawn_invariant.
  - eapply setup_invariant; eassumption.
  - now apply set_sequence_invariant.
  - now apply reset_sequence_cursor_invariant.
  - unfold live_grain_length. destruct (_ && _); [|exact Hinv].
    revert Hinv. apply invariant_ext; reflexivity.
  - revert Hinv. apply invariant_ext; reflexivity.
  - unfold function_anchor_configure. destruct (channels <? 1); [exact Hinv|].
    destruct typed as [[t0 t1] t2].
    revert Hinv. apply invariant_ext; reflexivity.
  - revert Hinv. apply invariant_ext; reflexivity.
Qed.

Lemma reachable_invariant (st0 st : state) :
  starts st0 -> reachable st0 st -> invariant st.
Proof.
  intros (channels & source & total & envelope & rms & _ & ->) Hreach.
  induction Hreach as [|st st' _ IH Hstep].
  - apply initial_invariant.
  - exact (step_invariant st st' Hstep IH).
Qed.

(** *** The shape of a callback *)

Lemma spawn_frame (st : state) d :
  let st' := function_process_grain st d in
  global_AudioFileData st' = global_AudioFileData st
  /\ g_status_audio_playback st' = g_status_audio_playback st
  /\ g_run_channel_order_test st' = g_run_channel_order_test st
  /\ garray_channel_anchor st' = garray_channel_anchor st
  /\ g_original_sequence_channels st' = g_original_sequence_channels st
  /\ g_grain_sequence st' = g_grain_sequence st.
Proof.
  cbv zeta.
  destruct (spawn_cases st d) as [[-> _] | (_ & k & slot & _ & ->)];
    repeat split; reflexivity.
Qed.

Lemma trigger_frame (st : state) a :
  let st' := trigger st a in
  global_AudioFileData st' = global_AudioFileData st
  /\ g_status_audio_playback st' = g_status_audio_playback st
  /\ g_run_channel_order_test st' = g_run_channel_order_test st
  /\ garray_channel_anchor st' = garray_channel_anchor st
  /\ g_original_sequence_channels st' = g_original_sequence_channels st
  /\ g_grain_sequence st' = g_grain_sequence st.
Proof.
  cbv zeta. unfold trigger.
  destruct (interval_start_frames st <=? _); [|repeat split; reflexivity].
  exact (spawn_frame (set_count_present_frame _ st) (rng a)).
Qed.

Lemma trigger_conditions (st : state) a :
  cursor (trigger st a) = cursor st
  /\ total_frames (trigger st a) = total_frames st
  /\ cursor_moves (trigger st a) = cursor_moves st
  /\ grains_run (trigger st a) = grains_run st.
Proof.
  destruct (trigger_frame st a) as (Hfd & Hplay & Htest & _).
  unfold cursor, total_frames, cursor_moves, grains_run, cursor, total_frames.
  now rewrite Hfd, Hplay, Htest.
Qed.

Lemma callback_shape (st : state) a :
  let st1 := trigger st a in
  let st2 :=
    if cursor_moves st1
    then set_present_frame
           (Z.min (u32 (cursor st1 + icount_frames a)) (total_frames st1)) st1
    else st1 in
  let r :=
    process_grains st2 a (interval_start_frames st) (pool st2)
      (active_count st2) (base_mix st1 a) in
  function_callback_audio st a
  = if grains_run st1
    then (noErr,
          set_ProcessGrain
            {| object_array_grains := fst (fst r);
               frames_object_grain :=
                 frames_object_grain (global_ProcessGrain st2);
               count_present_frame :=
                 count_present_frame (global_ProcessGrain st2);
               active_envelopes_grain := snd (fst r) |} st2,
          snd r)
    else (noErr, st2, base_mix st1 a).
Proof.
  cbv zeta. unfold function_callback_audio, base_mix, grains_run, cursor_moves.
  fold (silent_mix a).
  destruct (negb (g_run_channel_order_test (trigger st a))
            && g_status_audio_playback (trigger st a));
    cbv beta iota;
    (destruct (g_status_audio_playback _ && _); [|reflexivity]);
    unfold pool, active_count;
    destruct (process_grains _ a _ _ _ _) as [[grains count] mix2];
    reflexivity.
Qed.

(** The cursor after a callback. *)
Lemma callback_cursor (st : state) a :
  cursor (snd (fst (function_callback_audio st a)))
  = if cursor_moves st
    then Z.min (u32 (cursor st + icount_frames a)) (total_frames st)
    else cursor st.
Proof.
  rewrite callback_shape. cbv zeta.
  destruct (trigger_conditions st a) as (Hc & Ht & Hm & Hr).
  rewrite Hm, Hc, Ht.
  destruct (grains_run (trigger st a)); cbn [fst snd];
    destruct (cursor_moves st); try reflexivity; exact Hc.
Qed.

(** The pool and the active count after a callback. *)
Lemma callback_pool (st : state) a :
  pool (snd (fst (function_callback_audio st a)))
  = if grains_run st
    then map (grain_after a) (pool (trigger st a))
    else pool (trigger st a).
Proof.
  rewrite callback_shape. cbv zeta.
  destruct (trigger_conditions st a) as (_ & _ & _ & ->).
  destruct (grains_run st); cbn [fst snd].
  - unfold pool at 1. cbn [set_ProcessGrain global_ProcessGrain
                            object_array_grains].
    rewrite process_grains_pool.
    now destruct (cursor_moves (trigger st a)).
  - now destruct (cursor_moves (trigger st a)).
Qed.

Lemma callback_active_count (st : state) a :
  invariant st ->
  active_count (snd (fst (function_callback_audio st a)))
  = if grains_run st
    then count_active (map (grain_after a) (pool (trigger st a)))
    else active_count (trigger st a).
Proof.
  intros Hinv. apply (trigger_invariant st a) in Hinv.
  rewrite callback_shape. cbv zeta.
  destruct (trigger_conditions st a) as (_ & _ & _ & ->).
  destruct (grains_run st); cbn [fst snd];
    [|now destruct (cursor_moves (trigger st a))].
  unfold active_count at 1.
  cbn [set_ProcessGrain global_ProcessGrain active_envelopes_grain].
  destruct Hinv as [_ Hcount Hlimit _].
  pose proof (count_active_bounds (pool (trigger st a))) as Hb.
  assert (Hp : forall fr,
            pool (set_present_frame fr (trigger st a)) = pool (trigger st a))
    by reflexivity.
  assert (Ha : forall fr,
            active_count (set_present_frame fr (trigger st a))
            = active_count (trigger st a)) by reflexivity.
  destruct (cursor_moves (trigger st a)); rewrite ?Hp, ?Ha;
    (rewrite process_grains_count by (unfold_u32; lia)); lia.
Qed.

(** *** The concurrency limit *)

Lemma spawn_refused (st : state) d :
  8 <= active_count st -> function_process_grain st d = st.
Proof.
  intros Hfull. unfold function_process_grain.
  unfold active_count in Hfull. apply Z.leb_le in Hfull. now rewrite Hfull.
Qed.

Lemma trigger_refused (st : state) a :
  8 <= active_count st ->
  pool (trigger st a) = pool st /\ active_count (trigger st a) = active_count st.
Proof.
  intros Hfull. unfold trigger.
  destruct (interval_start_frames st <=? _); [|split; reflexivity].
  rewrite spawn_refused by exact Hfull. split; reflexivity.
Qed.

Lemma lookup_map {A B : Type} (f : A -> B) (l : list A) (k : nat) :
  map f l !! k = f <$> (l !! k).
Proof.
  revert k. induction l as [|x l IH]; intros [|k]; cbn; auto.
Qed.

Lemma control_keeps_pool (st st' : state) :
  step st st' ->
  (exists a, st' = snd (fst (function_callback_audio st a)))
  \/ (exists d, st' = function_process_grain st d)
  \/ (pool st' = pool st /\ active_count st' = active_count st).
Proof.
  intros Hstep. destruct Hstep.
  - left. now eexists.
  - right. left. now eexists.
  - right. right. unfold setupGrainHopping in *.
    destruct enable;
      [destruct (Parse.function_sequence_parse text); [|discriminate]|];
      match goal with Hrun : Continues _ = Continues _ |- _ =>
        injection Hrun as <- end; split; reflexivity.
  - right. right. split; reflexivity.
  - right. right. unfold reset_sequence_cursor.
    destruct (Nat.leb _ _); split; reflexivity.
  - right. right. unfold live_grain_length.
    destruct (_ && _); split; reflexivity.
  - right. right. split; reflexivity.
  - right. right. unfold function_anchor_configure.
    destruct (channels <? 1); [split; reflexivity|].
    destruct typed as [[t0 t1] t2]. split; reflexivity.
  - right. right. split; reflexivity.
Qed.

Lemma count_active_full (grains : list grain) :
  Forall (fun g => ~ inactive g) grains ->
  count_active grains = Z.of_nat (length grains).
Proof.
  induction 1 as [|g rest Hg Hrest IH]; [reflexivity|].
  cbn [count_active length]. rewrite IH. unfold inactive in Hg.
  destruct (status_callback_grain g); [lia | contradiction].
Qed.

Lemma free_slot_exists (st : state) :
  invariant st ->
  active_count st < 8 ->
  exists k slot, list_find inactive (pool st) = Some (k, slot).
Proof.
  intros [Hlen Hcount _ _] Hfree.
  destruct (list_find inactive (pool st)) as [[k slot]|] eqn:Hfind;
    [now exists k, slot|].
  apply list_find_None, count_active_full in Hfind.
  rewrite Hlen in Hfind. unfold max_density_cloud_grain in Hfind.
  cbn in Hfind. lia.
Qed.

Lemma spawn_below_limit (st : state) d :
  invariant st ->
  active_count st < 8 ->
  exists k slot,
    list_find inactive (pool st) = Some (k, slot)
    /\ function_process_grain st d = spawned st d k slot
    /\ active_count (function_process_grain st d) = active_count st + 1.
Proof.
  intros Hinv Hfree.
  destruct (free_slot_exists st Hinv Hfree) as (k & slot & Hfind).
  destruct (spawn_cases st d)
    as [[_ [Hfull | Hnone]] | (_ & k' & slot' & Hfind' & Heq)];
    [lia | congruence |].
  rewrite Hfind in Hfind'. injection Hfind' as <- <-.
  exists k, slot. split; [exact Hfind|]. split; [exact Heq|].
  rewrite Heq.
  pose proof (inv_count st Hinv) as Hcount.
  pose proof (count_active_bounds (pool st)) as Hb.
  unfold spawned, active_count, pool in *.
  cbn [set_sequence set_ProcessGrain global_ProcessGrain
       active_envelopes_grain].
  apply u32_small. unfold_u32. lia.
Qed.

(** C3.  Along every run the active-grain count stays at or below 8.
    At the limit a spawn attempt returns the globals as they were: no
    slot, counter or sequence cursor is touched and nothing is queued.
    From the limit the count only leaves 8 through a callback in which a
    grain that was active completes and is released; and below the limit
    a spawn attempt succeeds, raising the count by one. *)
Theorem active_grains_never_exceed_limit (st0 st : state) :
  starts st0 ->
  reachable st0 st ->
  active_count st <= 8
  /\ (8 <= active_count st -> forall d, function_process_grain st d = st)
  /\ (forall st',
        step st st' ->
        active_count st = 8 ->
        active_count st' = 8
        \/ (active_count st' < 8
            /\ exists a k g g',
                 st' = snd (fst (function_callback_audio st a))
                 /\ pool st !! k = Some g /\ active g
                 /\ completes a g = true
                 /\ pool st' !! k = Some g' /\ inactive g'))
  /\ (active_count st < 8 ->
      forall d,
        active_count (function_process_grain st d) = active_count st + 1).
Proof.
  intros Hstart Hreach.
  pose proof (reachable_invariant st0 st Hstart Hreach) as Hinv.
  split; [apply Hinv|]. split; [intros Hfull d; now apply spawn_refused|].
  split;
    [|intros Hfree d;
      now destruct (spawn_below_limit st d Hinv Hfree) as (k & slot & _ & _ & ?)].
  intros st' Hstep Hfull.
  destruct (control_keeps_pool st st' Hstep)
    as [[a ->] | [[d ->] | [_ Hsame]]].
  - destruct (trigger_refused st a ltac:(lia)) as [Hp Ha].
    rewrite (callback_active_count st a Hinv), callback_pool, Hp, Ha.
    destruct (grains_run st); [|now left].
    pose proof (count_active_after a (pool st)) as Hle.
    pose proof (inv_count st Hinv) as Hcount.
    destruct (Z.eq_dec (count_active (map (grain_after a) (pool st)))
                (count_active (pool st))) as [Heq|Hne]; [left; lia|].
    right. split; [lia|].
    destruct (count_active_drop a (pool st) ltac:(lia))
      as (k & g & Hk & Hact & Hdone).
    exists a, k, g, (grain_after a g).
    repeat split; try assumption.
    + now rewrite lookup_map, Hk.
    + unfold inactive. rewrite grain_after_status, Hdone.
      now destruct (status_callback_grain g).
  - left. rewrite spawn_refused by lia. exact Hfull.
  - left. lia.
Qed.

(** *** The sequence cursor *)

Lemma spawned_target (st : state) d k slot :
  g_use_grain_hopping st = true ->
  g_grain_sequence st <> [] ->
  (k < length (pool st))%nat ->
  exists g',
    pool (spawned st d k slot) !! k = Some g'
    /\ target_object g'
       = default 0 (g_grain_sequence st !! g_sequence_position st)
    /\ g_sequence_position (spawned st d k slot)
       = Nat.modulo (S (g_sequence_position st)) (length (g_grain_sequence st)).
Proof.
  intros Hhop Hne Hk.
  assert (Hlen : Nat.eqb (length (g_grain_sequence st)) 0 = false)
    by (destruct (g_grain_sequence st); [contradiction | reflexivity]).
  eexists. split; [|split].
  - unfold spawned, pool.
    cbn [set_sequence set_ProcessGrain global_ProcessGrain object_array_grains].
    apply list_lookup_insert_eq. exact Hk.
  - unfold initialize_grain. cbn [fst target_object]. now rewrite Hhop, Hlen.
  - unfold spawned. cbn [set_sequence g_sequence_position].
    unfold initialize_grain. cbn [snd]. now rewrite Hhop, Hlen.
Qed.

Lemma spawn_takes_token (st : state) d :
  invariant st ->
  active_count st < 8 ->
  g_use_grain_hopping st = true ->
  g_grain_sequence st <> [] ->
  active_count (function_process_grain st d) = active_count st + 1
  /\ g_use_grain_hopping (function_process_grain st d) = true
  /\ g_grain_sequence (function_process_grain st d) = g_grain_sequence st
  /\ g_sequence_position (function_process_grain st d)
     = Nat.modulo (S (g_sequence_position st)) (length (g_grain_sequence st)).
Proof.
  intros Hinv Hfree Hhop Hne.
  destruct (spawn_below_limit st d Hinv Hfree)
    as (k & slot & Hfind & Heq & Hcount).
  split; [exact Hcount|]. rewrite Heq.
  apply list_find_Some in Hfind as (Hk & _). apply lookup_lt_Some in Hk.
  destruct (spawned_target st d k slot Hhop Hne Hk) as (g' & _ & _ & Hpos).
  split; [exact Hhop|]. split; [reflexivity | exact Hpos].
Qed.

(** What holds of the cursor whatever the interleaving: a spawn that takes
    its target from the sequence leaves the cursor inside the vector, and
    so does the reset that ends the ['h'] command. *)
Lemma cursor_restored (st : state) d :
  (invariant st -> active_count st < 8 -> g_use_grain_hopping st = true ->
   cursor_in_bounds (function_process_grain st d))
  /\ cursor_in_bounds (reset_sequence_cursor st).
Proof.
  split.
  - intros Hinv Hfree Hhop Hne.
    destruct (spawn_frame st d) as (_ & _ & _ & _ & _ & Hseq).
    rewrite Hseq in *.
    destruct (spawn_takes_token st d Hinv Hfree Hhop Hne) as (_ & _ & _ & ->).
    apply Nat.mod_upper_bound.
    destruct (g_grain_sequence st); [contradiction | discriminate].
  - unfold cursor_in_bounds, reset_sequence_cursor.
    destruct (Nat.leb _ _) eqn:Hle;
      cbn [set_sequence g_grain_sequence g_sequence_position].
    + intros Hne. destruct (g_grain_sequence st); [contradiction | cbn; lia].
    + intros _. now apply Nat.leb_gt in Hle.
Qed.

(** C9.  The claim fails in a run.  The ['h'] command first assigns the
    new vector and only then looks at the cursor, and the render thread
    may spawn in between.  From any start, after [setupGrainHopping] with
    the line ["1 2 3"] and two spawns the cursor is 2; the assignment of
    the sequence parsed from ["5"] leaves a vector of length 1 with the
    cursor still at 2.  A spawn attempt made in that state is not refused
    and takes its target from [g_grain_sequence[2]], which is outside the
    vector.  The reset of the cursor, which the command performs next,
    would have brought the cursor back inside. *)
Theorem sequence_read_escapes_during_replacement (st0 : state) d :
  starts st0 ->
  exists st,
    reachable st0 st
    /\ g_use_grain_hopping st = true
    /\ g_grain_sequence st = [5]
    /\ g_sequence_position st = 2%nat
    /\ ~ cursor_in_bounds st
    /\ g_grain_sequence st !! g_sequence_position st = None
    /\ active_count (function_process_grain st d) = active_count st + 1
    /\ g_sequence_position (function_process_grain st d)
       = Nat.modulo (S (g_sequence_position st)) (length (g_grain_sequence st))
    /\ cursor_in_bounds (reset_sequence_cursor st).
Proof.
  intros Hstart.
  pose (s1 := set_flags true (g_run_channel_order_test st0)
                (set_sequence [1; 2; 3] 0 true st0)).
  assert (H1 : reachable st0 s1).
  { apply (reachable_step _ st0); [apply reachable_start|].
    apply (step_setup _ true "1 2 3"). reflexivity. }
  assert (Hc1 : active_count s1 = 0).
  { destruct Hstart as (channels & source & total & envelope & rms & _ & ->).
    reflexivity. }
  pose proof (reachable_invariant st0 s1 Hstart H1) as Hinv1.
  destruct (spawn_takes_token s1 d Hinv1 ltac:(lia) eq_refl ltac:(discriminate))
    as (Hc2 & Hhop2 & Hseq2 & Hpos2).
  assert (H2 : reachable st0 (function_process_grain s1 d))
    by (apply (reachable_step _ s1); [exact H1 | apply step_spawn]).
  pose proof (reachable_invariant st0 _ Hstart H2) as Hinv2.
  destruct (spawn_takes_token (function_process_grain s1 d) d Hinv2
              ltac:(lia) Hhop2 ltac:(rewrite Hseq2; discriminate))
    as (Hc3 & Hhop3 & Hseq3 & Hpos3).
  rewrite Hseq2, Hpos2 in Hpos3. rewrite Hseq2 in Hseq3.
  set (s3 := function_process_grain (function_process_grain s1 d) d) in *.
  assert (H3 : reachable st0 s3)
    by (apply (reachable_step _ (function_process_grain s1 d));
        [exact H2 | apply step_spawn]).
  assert (H4 : reachable st0 (assign_sequence [5] s3)).
  { apply (reachable_step _ s3); [exact H3|].
    apply (step_sequence_assign _ "5"); [discriminate | reflexivity]. }
  pose proof (reachable_invariant st0 _ Hstart H4) as Hinv4.
  assert (Hpos4 : g_sequence_position (assign_sequence [5] s3) = 2%nat)
    by exact Hpos3.
  exists (assign_sequence [5] s3).
  split; [exact H4|]. split; [exact Hhop3|]. split; [reflexivity|].
  split; [exact Hpos4|]. split.
  { intros Hin. unfold cursor_in_bounds in Hin. rewrite Hpos4 in Hin.
    specialize (Hin ltac:(discriminate)). cbn in Hin. lia. }
  split; [now rewrite Hpos4|].
  destruct (spawn_takes_token (assign_sequence [5] s3) d Hinv4)
    as (Hc5 & _ & _ & Hpos5).
  { change (active_count (assign_sequence [5] s3)) with (active_count s3).
    lia. }
  { exact Hhop3. }
  { discriminate. }
  split; [exact Hc5|]. split; [exact Hpos5|].
  apply (cursor_restored (assign_sequence [5] s3) d).
Qed.

(** *** The envelope index *)

Lemma env_idx_range (g : grain) f : 0 <= env_idx g f < 1024.
Proof.
  unfold env_idx, kframes_envelope.
  destruct (1024 <=? _) eqn:Hbig; [lia|].
  apply Z.leb_gt in Hbig. split; [apply u32_range | exact Hbig].
Qed.

(** C10.  For every grain the loop of a callback visits in a run, and
    every frame [f] it processes for that grain, the divisor
    [frames_grain] is not zero and the clamped envelope index lies in
    [0, 1024), whatever the length of the grain. *)
Theorem envelope_index_in_bounds (st0 st : state) (a : callback_args) :
  starts st0 ->
  reachable st0 st ->
  forall g f,
    g ∈ pool (trigger st a) ->
    active g ->
    0 <= f < frames_grain_process a g ->
    0 < frames_grain g /\ 0 <= env_idx g f < 1024.
Proof.
  intros Hstart Hreach g f Hin _ Hf.
  split; [|apply env_idx_range].
  pose proof (trigger_invariant st a
                (reachable_invariant st0 st Hstart Hreach)) as Hinv.
  pose proof (inv_grains _ Hinv) as Hgrains.
  rewrite Forall_forall in Hgrains.
  destruct (Hgrains g Hin) as [Hp Hlen].
  unfold frames_grain_process in Hf.
  rewrite u32_small in Hf by (unfold_u32; lia). lia.
Qed.

(** *** The geometry of a spawned grain *)

Lemma spawn_start_clamp (st : state) d :
  is_u32 (cursor st) ->
  1 <= total_frames st < 2 ^ 32 ->
  spawn_start st d = clamp (cursor st + jitter d) 0 (total_frames st - 1).
Proof.
  intros Hc Ht. unfold spawn_start, clamp.
  rewrite (u32_small (total_frames st - 1)) by (unfold_u32; lia).
  destruct (cursor st + jitter d <? 0) eqn:Hneg;
    [apply Z.ltb_lt in Hneg | apply Z.ltb_ge in Hneg].
  - destruct (total_frames st - 1 <? 0) eqn:Hlast;
      [apply Z.ltb_lt in Hlast; lia | apply Z.ltb_ge in Hlast].
    rewrite u32_small by (unfold_u32; lia). lia.
  - destruct (total_frames st - 1 <? cursor st + jitter d) eqn:Hlast;
      [apply Z.ltb_lt in Hlast | apply Z.ltb_ge in Hlast];
      rewrite u32_small by (unfold_u32; lia); lia.
Qed.

Lemma spawn_scaled_length_max (st : state) d :
  spawn_scaled_length st d
  = Z.max 64
      (Float32.to_u32
         (Float32.mul
            (Float32.of_u32 (frames_object_grain (global_ProcessGrain st)))
            (scale d))).
Proof.
  unfold spawn_scaled_length.
  destruct (Float32.to_u32 _ <? 64) eqn:Hlt;
    [apply Z.ltb_lt in Hlt | apply Z.ltb_ge in Hlt]; lia.
Qed.

(** C5 (amended).  A spawn into slot [k], on a source with at least one
    frame and when the 32-bit sum of start and length does not wrap:
    the start frame is [clamp(currentFrame + j, 0, totalFrames - 1)]; the
    length is [max(64, trunc(grainLength * s))], the product taken in
    single precision and its fraction discarded by the cast (not rounded
    to nearest), cut to [totalFrames - start] when it would overrun the
    source; so [start + length <= totalFrames]. *)
Theorem spawned_grain_geometry (st : state) d k slot :
  is_u32 (cursor st) ->
  1 <= total_frames st < 2 ^ 32 ->
  active_count st < 8 ->
  list_find inactive (pool st) = Some (k, slot) ->
  clamp (cursor st + jitter d) 0 (total_frames st - 1)
  + Z.max 64
      (Float32.to_u32
         (Float32.mul
            (Float32.of_u32 (frames_object_grain (global_ProcessGrain st)))
            (scale d))) < 2 ^ 32 ->
  exists g,
    pool (function_process_grain st d) !! k = Some g
    /\ address_start_frame g
       = clamp (cursor st + jitter d) 0 (total_frames st - 1)
    /\ frames_grain g
       = cut_at_end (total_frames st) (address_start_frame g)
           (Z.max 64
              (Float32.to_u32
                 (Float32.mul
                    (Float32.of_u32
                       (frames_object_grain (global_ProcessGrain st)))
                    (scale d))))
    /\ address_present_grain g = 0
    /\ status_callback_grain g = true
    /\ address_start_frame g + frames_grain g <= total_frames st.
Proof.
  intros Hc Ht Hfree Hfind Hwrap.
  destruct (spawn_cases st d) as [[_ [Hfull | Hnone]] | (_ & k' & slot' & Hf & ->)];
    [lia | congruence |].
  rewrite Hfind in Hf. injection Hf as <- <-.
  apply list_find_Some in Hfind as (Hk & _). apply lookup_lt_Some in Hk.
  eexists. split.
  { unfold spawned, pool.
    cbn [set_sequence set_ProcessGrain global_ProcessGrain object_array_grains].
    apply list_lookup_insert_eq. exact Hk. }
  unfold initialize_grain.
  cbn [fst address_start_frame frames_grain address_present_grain
       status_callback_grain].
  pose proof (spawn_start_clamp st d Hc Ht) as Hstart.
  pose proof (spawn_scaled_length_max st d) as Hlen.
  pose proof (to_u32_range
                (Float32.mul
                   (Float32.of_u32
                      (frames_object_grain (global_ProcessGrain st)))
                   (scale d))) as Hcast.
  unfold spawn_length. rewrite Hlen, Hstart.
  set (start := clamp (cursor st + jitter d) 0 (total_frames st - 1)) in *.
  set (len := Z.max 64 _) in *.
  assert (Hsrange : 0 <= start <= total_frames st - 1)
    by (unfold start, clamp; lia).
  rewrite (u32_small (start + len)) by (unfold_u32; lia).
  rewrite (u32_small (total_frames st - start)) by (unfold_u32; lia).
  unfold cut_at_end.
  split; [reflexivity|]. split; [reflexivity|].
  split; [reflexivity|]. split; [reflexivity|].
  destruct (total_frames st <? start + len) eqn:Hcut;
    [apply Z.ltb_lt in Hcut | apply Z.ltb_ge in Hcut]; lia.
Qed.

(** *** The source cursor and the end of the source *)

Lemma spawn_keeps_active (st : state) d k g :
  pool st !! k = Some g -> active g ->
  pool (function_process_grain st d) !! k = Some g.
Proof.
  intros Hk Hact.
  destruct (spawn_cases st d) as [[-> _] | (_ & k' & slot & Hfind & ->)];
    [exact Hk|].
  apply list_find_Some in Hfind as (Hk' & Hslot & _).
  unfold spawned, pool in *.
  cbn [set_sequence set_ProcessGrain global_ProcessGrain object_array_grains].
  rewrite list_lookup_insert_ne; [exact Hk|].
  intros ->. rewrite Hk in Hk'. injection Hk' as ->.
  unfold active, inactive in *. congruence.
Qed.

Lemma trigger_keeps_active (st : state) a k g :
  pool st !! k = Some g -> active g -> pool (trigger st a) !! k = Some g.
Proof.
  intros Hk Hact. unfold trigger.
  destruct (interval_start_frames st <=? _); [|exact Hk].
  exact (spawn_keeps_active (set_count_present_frame _ st) (rng a) k g Hk Hact).
Qed.

Lemma base_mix_trigger (st : state) a :
  base_mix (trigger st a) a = base_mix st a.
Proof.
  destruct (trigger_conditions st a) as (_ & _ & Hm & _).
  destruct (trigger_frame st a) as (Hfd & _).
  unfold base_mix, dry_layer. now rewrite Hm, Hfd.
Qed.

Lemma callback_mix_at_rest (st : state) a :
  grains_run st = false ->
  snd (function_callback_audio st a) = base_mix st a.
Proof.
  intros Hrest. rewrite callback_shape. cbv zeta.
  destruct (trigger_conditions st a) as (_ & _ & _ & ->).
  rewrite Hrest. cbn [snd]. apply base_mix_trigger.
Qed.

(** C2 (amended).  In a callback of [F] frames, while playback is enabled
    and no channel test runs, the source cursor becomes
    [min((cursor + F) mod 2^32, total)], and otherwise it stays.  As long
    as the 32-bit sum [cursor + F] does not wrap this is
    [min(cursor + F, total)]: the cursor never moves back and never passes
    the end.  When the sum wraps the cursor falls back to
    [cursor + F - 2^32], below where it was.  While the cursor is short
    of the end the grains of the pool are advanced by the callback.  Once
    the cursor is at the end when a callback starts, the loop over the pool
    is skipped: every grain that was active is left exactly as it was (not
    advanced, not released), the active count is that left by the spawn
    attempt, and the mix holds the base layer only. *)
Theorem cursor_clamped_and_grains_frozen_at_end (st : state) a :
  is_u32 (icount_frames a) ->
  is_u32 (cursor st) ->
  let st' := snd (fst (function_callback_audio st a)) in
  cursor st'
  = (if cursor_moves st
     then Z.min ((cursor st + icount_frames a) mod 2 ^ 32) (total_frames st)
     else cursor st)
  /\ (cursor st + icount_frames a < 2 ^ 32 ->
      cursor st'
      = (if cursor_moves st
         then Z.min (cursor st + icount_frames a) (total_frames st)
         else cursor st)
      /\ (cursor st <= total_frames st ->
          cursor st <= cursor st' <= total_frames st))
  /\ (2 ^ 32 <= cursor st + icount_frames a ->
      cursor_moves st = true ->
      cursor st'
      = Z.min (cursor st + icount_frames a - 2 ^ 32) (total_frames st)
      /\ cursor st' < cursor st)
  /\ (cursor st < total_frames st ->
      g_status_audio_playback st = true ->
      pool st' = map (grain_after a) (pool (trigger st a)))
  /\ (total_frames st <= cursor st ->
      (forall k g, pool st !! k = Some g -> active g -> pool st' !! k = Some g)
      /\ pool st' = pool (trigger st a)
      /\ active_count st' = active_count (trigger st a)
      /\ snd (function_callback_audio st a) = base_mix st a).
Proof.
  intros HF Hc. cbv zeta.
  assert (Hcur :
    cursor (snd (fst (function_callback_audio st a)))
    = (if cursor_moves st
       then Z.min ((cursor st + icount_frames a) mod 2 ^ 32) (total_frames st)
       else cursor st)) by apply callback_cursor.
  split; [exact Hcur|]. split; [|split; [|split]].
  - intros Hwrap. rewrite Hcur.
    rewrite (Z.mod_small (cursor st + icount_frames a))
      by (unfold is_u32 in *; lia).
    split; [reflexivity|].
    intros Hle. unfold is_u32 in HF. destruct (cursor_moves st); lia.
  - intros Hwrap Hmoves. rewrite Hcur, Hmoves.
    assert (Hmod : (cursor st + icount_frames a) mod 2 ^ 32
                   = cursor st + icount_frames a - 2 ^ 32).
    { unfold is_u32 in *. change (2 ^ 32) with 4294967296 in *.
      symmetry. apply (Z.mod_unique _ _ 1); lia. }
    rewrite Hmod. split; [reflexivity|]. unfold is_u32 in *. lia.
  - intros Hlt Hplay. rewrite callback_pool. unfold grains_run.
    rewrite Hplay. apply Z.ltb_lt in Hlt. now rewrite Hlt.
  - intros Hend.
    assert (Hrest : grains_run st = false).
    { unfold grains_run. apply Z.ltb_ge in Hend. rewrite Hend.
      apply andb_false_r. }
    assert (Hpool :
      pool (snd (fst (function_callback_audio st a))) = pool (trigger st a))
      by (now rewrite callback_pool, Hrest).
    split; [|split; [exact Hpool|split]].
    + intros k g Hk Hact. rewrite Hpool. now apply trigger_keeps_active.
    + rewrite callback_shape. cbv zeta.
      destruct (trigger_conditions st a) as (_ & _ & _ & ->).
      rewrite Hrest. cbn [fst snd].
      now destruct (cursor_moves (trigger st a)).
    + now apply callback_mix_at_rest.
Qed.

(** *** The mix, cell by cell *)

Lemma for_loop_snoc {A : Type} (n : nat) (body : Z -> A -> A) (x : A) :
  for_loop (Z.of_nat (S n)) body x
  = body (Z.of_nat n) (for_loop (Z.of_nat n) body x).
Proof.
  unfold for_loop. rewrite !Nat2Z.id, seq_S, fold_left_app. reflexivity.
Qed.

Lemma for_loop_length {A : Type} (n : Z) (body : Z -> list A -> list A)
  (mix : list A) :
  (forall i m, length (body i m) = length m) ->
  length (for_loop n body mix) = length mix.
Proof.
  intros Hbody. unfold for_loop.
  generalize (seq 0 (Z.to_nat n)). intros l. revert mix.
  induction l as [|i l IH]; intros mix; [reflexivity|].
  cbn [fold_left]. now rewrite IH, Hbody.
Qed.

(** A loop of updates at distinct cells. *)
Lemma for_loop_alter {A : Type} (idx : Z -> nat) (h : Z -> A -> A)
  (mix : list A) (n : nat) :
  (forall i j, 0 <= i < Z.of_nat n -> 0 <= j < Z.of_nat n ->
               idx i = idx j -> i = j) ->
  let mix' :=
    for_loop (Z.of_nat n) (fun i m => alter (h i) (idx i) m) mix in
  (forall j, 0 <= j < Z.of_nat n -> mix' !! idx j = h j <$> mix !! idx j)
  /\ (forall p, (forall j, 0 <= j < Z.of_nat n -> p <> idx j) ->
                mix' !! p = mix !! p).
Proof.
  cbv zeta. induction n as [|n IH]; intros Hinj.
  - split; [intros j Hj; lia | reflexivity].
  - rewrite for_loop_snoc.
    destruct IH as [IHhit IHmiss].
    { intros i j Hi Hj. apply Hinj; lia. }
    split.
    + intros j Hj.
      destruct (Z.eq_dec j (Z.of_nat n)) as [-> | Hne].
      * rewrite list_lookup_alter_eq, IHmiss; [reflexivity|].
        intros j Hj' Heq. apply Hinj in Heq; lia.
      * rewrite list_lookup_alter_ne; [apply IHhit; lia|].
        intros Heq. apply Hinj in Heq; lia.
    + intros p Hp. rewrite list_lookup_alter_ne;
        [|intros <-; apply (Hp (Z.of_nat n)); [lia | reflexivity]].
      apply IHmiss. intros j Hj. apply Hp. lia.
Qed.

Lemma mixIndex_injective a ch fr ch' fr' :
  0 <= ch -> 0 <= ch' ->
  0 <= fr < icount_frames a -> 0 <= fr' < icount_frames a ->
  mixIndex a ch fr = mixIndex a ch' fr' -> ch = ch' /\ fr = fr'.
Proof.
  unfold mixIndex. intros Hch Hch' Hfr Hfr' Heq.
  apply Z2Nat.inj in Heq; [|nia..].
  assert (Hsame : ch = ch').
  { destruct (Z.lt_trichotomy ch ch') as [Hlt | [Heq' | Hgt]]; [|exact Heq'|].
    - assert (ch * icount_frames a + icount_frames a <= ch' * icount_frames a)
        by nia. lia.
    - assert (ch' * icount_frames a + icount_frames a <= ch * icount_frames a)
        by nia. lia. }
  subst ch'. split; [reflexivity | lia].
Qed.

Lemma lookup_repeat {A : Type} (x : A) (n k : nat) :
  (k < n)%nat -> repeat x n !! k = Some x.
Proof.
  revert k. induction n as [|n IH]; intros [|k] Hk; cbn; try lia; auto.
  apply IH. lia.
Qed.

Lemma for_loop_insert {A : Type} (idx : Z -> nat) (val : Z -> A)
  (mix : list A) (n : nat) :
  (forall i j, 0 <= i < Z.of_nat n -> 0 <= j < Z.of_nat n ->
               idx i = idx j -> i = j) ->
  length (for_loop (Z.of_nat n) (fun i m => <[idx i := val i]> m) mix)
  = length mix
  /\ (forall j, 0 <= j < Z.of_nat n -> (idx j < length mix)%nat ->
        for_loop (Z.of_nat n) (fun i m => <[idx i := val i]> m) mix !! idx j
        = Some (val j))
  /\ (forall p, (forall j, 0 <= j < Z.of_nat n -> p <> idx j) ->
        for_loop (Z.of_nat n) (fun i m => <[idx i := val i]> m) mix !! p
        = mix !! p).
Proof.
  induction n as [|n IH]; intros Hinj.
  - split; [reflexivity|]. split; [intros j Hj; lia | reflexivity].
  - rewrite for_loop_snoc.
    destruct IH as (IHlen & IHhit & IHmiss).
    { intros i j Hi Hj. apply Hinj; lia. }
    split; [now rewrite length_insert|]. split.
    + intros j Hj Hlt.
      destruct (Z.eq_dec j (Z.of_nat n)) as [-> | Hne].
      * apply list_lookup_insert_eq. now rewrite IHlen.
      * rewrite list_lookup_insert_ne; [apply IHhit; [lia | exact Hlt]|].
        intros Heq. apply Hinj in Heq; lia.
    + intros p Hp. rewrite list_lookup_insert_ne;
        [|intros <-; apply (Hp (Z.of_nat n)); [lia | reflexivity]].
      apply IHmiss. intros j Hj. apply Hp. lia.
Qed.

(** The base layer assigns every cell of the mix. *)
Lemma dry_layer_cells (st : state) a (n : nat) (mix : list F) :
  0 <= icount_frames a ->
  let fd := global_AudioFileData st in
  let val ch fr :=
    f_mul f_zero
      (if u32 (present_frame fd + fr) <? frames_total fd
       then samples fd (ch mod channels_file fd) (u32 (present_frame fd + fr))
       else f_zero) in
  let mix' :=
    for_loop (Z.of_nat n) (fun ch_callback =>
      for_loop (icount_frames a) (fun fr_callback mix =>
        <[mixIndex a ch_callback fr_callback :=
            val ch_callback fr_callback]> mix)) mix in
  length mix' = length mix
  /\ (forall ch fr,
        0 <= ch < Z.of_nat n -> 0 <= fr < icount_frames a ->
        (mixIndex a ch fr < length mix)%nat ->
        mix' !! mixIndex a ch fr = Some (val ch fr)).
Proof.
  intros HF. cbv zeta. induction n as [|n (IHlen & IHhit)].
  - split; [reflexivity|]. intros ch fr Hch. lia.
  - rewrite for_loop_snoc.
    set (done := for_loop (Z.of_nat n) _ mix) in *.
    pose proof (for_loop_insert
                (fun fr => mixIndex a (Z.of_nat n) fr)
                (fun fr =>
                   f_mul f_zero
                     (if u32 (present_frame (global_AudioFileData st) + fr)
                         <? frames_total (global_AudioFileData st)
                      then samples (global_AudioFileData st)
                             (Z.of_nat n
                              mod channels_file (global_AudioFileData st))
                             (u32 (present_frame (global_AudioFileData st)
                                   + fr))
                      else f_zero))
                done (Z.to_nat (icount_frames a))) as Hinner.
    rewrite Z2Nat.id in Hinner by exact HF.
    destruct Hinner as (Hlen & Hhit & Hmiss).
    { intros i j Hi Hj Heq. apply mixIndex_injective in Heq; lia. }
    split; [now rewrite Hlen|].
    intros ch fr Hch Hfr Hlt.
    destruct (Z.eq_dec ch (Z.of_nat n)) as [-> | Hne].
    + apply Hhit; [lia | now rewrite IHlen].
    + rewrite Hmiss; [apply IHhit; [lia | exact Hfr | exact Hlt]|].
      intros j Hj Heq. apply mixIndex_injective in Heq; lia.
Qed.

Lemma base_mix_cell (st : state) a ch f :
  0 <= outChannels a -> 0 <= icount_frames a ->
  outChannels a * icount_frames a < 2 ^ 32 ->
  0 <= ch < outChannels a -> 0 <= f < icount_frames a ->
  base_mix st a !! mixIndex a ch f = Some (base_cell st ch f).
Proof.
  intros Hout HF Hsize Hch Hf.
  assert (Hidx : (mixIndex a ch f < length (silent_mix a))%nat).
  { unfold silent_mix. rewrite repeat_length, u32_small by (unfold_u32; nia).
    unfold mixIndex. apply Z2Nat.inj_lt; nia. }
  unfold base_mix, base_cell. destruct (cursor_moves st).
  - unfold dry_layer.
    pose proof (dry_layer_cells st a (Z.to_nat (outChannels a)) (silent_mix a)
                  HF) as Hdry.
    cbv zeta in Hdry. rewrite Z2Nat.id in Hdry by exact Hout.
    apply (proj2 Hdry); [exact Hch | exact Hf | exact Hidx].
  - unfold silent_mix in *. rewrite repeat_length in Hidx.
    now apply lookup_repeat.
Qed.

(** One frame of one grain. *)
Lemma mix_grain_frame_cell (st : state) a interval (g : grain) f mix ch' f' :
  0 <= outChannels a ->
  0 <= f < icount_frames a ->
  0 <= ch' < outChannels a ->
  0 <= f' < icount_frames a ->
  mix_grain_frame st a g
    (f_mul (gain_grain g)
       (f_gain_norm (g_envelope_rms st) (frames_grain g) interval)) f mix
    !! mixIndex a ch' f'
  = (fun v =>
       if (f' =? f)
          && (u32 (address_start_frame g + address_present_grain g + f)
              <? total_frames st)
          && routed_to st g ch'
       then f_add v (grain_sample st interval g ch' f)
       else v) <$> mix !! mixIndex a ch' f'.
Proof.
  intros Hout Hf Hch' Hf'.
  assert (Hid : forall o : option F, o = (fun v => v) <$> o)
    by (intros [v|]; reflexivity).
  unfold mix_grain_frame, routed_to, grain_sample, total_frames.
  rewrite Z.leb_antisym.
  destruct (u32 (address_start_frame g + address_present_grain g + f)
            <? frames_total (global_AudioFileData st));
    cbn [negb]; rewrite ?andb_false_r; cbn [andb]; [|apply Hid].
  rewrite andb_true_r.
  destruct (target_object g =? -1); [rewrite andb_false_r; apply Hid|].
  destruct (target_object g =? -2).
  - rewrite andb_true_r.
    match goal with
    | |- for_loop _ (fun process_ch mix0 => alter (@?h process_ch) _ mix0) _
         !! _ = _ =>
        pose proof (for_loop_alter (fun process_ch => mixIndex a process_ch f)
                      h mix (Z.to_nat (outChannels a))) as Hloop
    end.
    cbv zeta in Hloop. rewrite Z2Nat.id in Hloop by exact Hout.
    destruct Hloop as [Hhit Hmiss].
    { intros i j Hi Hj Heq. apply mixIndex_injective in Heq; lia. }
    destruct (Z.eqb_spec f' f) as [-> | Hne].
    + rewrite Hhit by lia. reflexivity.
    + rewrite Hmiss; [apply Hid|].
      intros j Hj Heq. apply mixIndex_injective in Heq; lia.
  - pose proof (u32_range (resolve_target_ch st (target_object g)
                           + g_channel_offset)) as Hfinal.
    fold (final_target_ch st (target_object g)) in Hfinal.
    destruct (final_target_ch st (target_object g) <? outChannels a) eqn:Hin;
      [apply Z.ltb_lt in Hin | apply Z.ltb_ge in Hin].
    + destruct (Z.eqb_spec f' f) as [-> | Hne];
        [destruct (Z.eqb_spec (final_target_ch st (target_object g)) ch')
           as [-> | Hne]|]; cbn [andb].
      * apply list_lookup_alter_eq.
      * rewrite list_lookup_alter_ne; [apply Hid|].
        intros Heq. apply mixIndex_injective in Heq; lia.
      * rewrite list_lookup_alter_ne; [apply Hid|].
        intros Heq. apply mixIndex_injective in Heq; lia.
    + replace (final_target_ch st (target_object g) =? ch') with false
        by (symmetry; apply Z.eqb_neq; lia).
      rewrite andb_false_r. apply Hid.
Qed.

(** The frames of one grain. *)
Lemma grain_frames_cell (st : state) a interval (g : grain) (n : nat) mix
  ch f :
  0 <= outChannels a ->
  Z.of_nat n <= icount_frames a ->
  0 <= ch < outChannels a ->
  0 <= f < icount_frames a ->
  for_loop (Z.of_nat n)
    (mix_grain_frame st a g
       (f_mul (gain_grain g)
          (f_gain_norm (g_envelope_rms st) (frames_grain g) interval))) mix
    !! mixIndex a ch f
  = (fun v =>
       if (f <? Z.of_nat n)
          && (u32 (address_start_frame g + address_present_grain g + f)
              <? total_frames st)
          && routed_to st g ch
       then f_add v (grain_sample st interval g ch f)
       else v) <$> mix !! mixIndex a ch f.
Proof.
  intros Hout Hn Hch Hf. induction n as [|n IH].
  - replace (f <? Z.of_nat 0) with false by (symmetry; apply Z.ltb_ge; lia).
    cbn [andb]. unfold for_loop. rewrite Nat2Z.id. cbn [seq fold_left].
    now destruct (mix !! mixIndex a ch f).
  - rewrite for_loop_snoc, mix_grain_frame_cell by lia.
    rewrite IH by lia.
    destruct (mix !! mixIndex a ch f) as [v|]; [|reflexivity].
    cbn [fmap option_fmap option_map]. f_equal.
    destruct (Z.eqb_spec f (Z.of_nat n)) as [-> | Hne].
    + replace (Z.of_nat n <? Z.of_nat n) with false
        by (symmetry; apply Z.ltb_irrefl).
      replace (Z.of_nat n <? Z.of_nat (S n)) with true
        by (symmetry; apply Z.ltb_lt; lia).
      reflexivity.
    + cbn [andb].
      replace (f <? Z.of_nat (S n)) with (f <? Z.of_nat n); [reflexivity|].
      destruct (Z.ltb_spec f (Z.of_nat n));
        symmetry; [apply Z.ltb_lt | apply Z.ltb_ge]; lia.
Qed.

(** One grain, then the pool. *)
Lemma process_grain_cell (st : state) a interval (g : grain) count mix ch f :
  0 <= outChannels a -> 0 <= icount_frames a ->
  0 <= ch < outChannels a ->
  0 <= f < icount_frames a ->
  snd (process_grain st a interval g count mix) !! mixIndex a ch f
  = (fun v => add_grain st a interval ch f v g) <$> mix !! mixIndex a ch f.
Proof.
  intros Hout HF Hch Hf. unfold process_grain, add_grain, plays_frame.
  destruct (status_callback_grain g); cbn [negb andb snd];
    [|now destruct (mix !! mixIndex a ch f)].
  assert (Hn : 0 <= frames_grain_process a g <= icount_frames a).
  { unfold frames_grain_process.
    pose proof (u32_range (frames_grain g - address_present_grain g)). lia. }
  assert (Hloop :
    for_loop (frames_grain_process a g)
      (mix_grain_frame st a g
         (f_mul (gain_grain g)
            (f_gain_norm (g_envelope_rms st) (frames_grain g) interval))) mix
      !! mixIndex a ch f
    = (fun v =>
         if (f <? frames_grain_process a g)
            && (u32 (address_start_frame g + address_present_grain g + f)
                <? total_frames st)
            && routed_to st g ch
         then f_add v (grain_sample st interval g ch f)
         else v) <$> mix !! mixIndex a ch f).
  { rewrite <- (Z2Nat.id (frames_grain_process a g)) by lia.
    apply grain_frames_cell; [exact Hout | lia | exact Hch | exact Hf]. }
  destruct (frames_grain g <=? _); cbn [snd]; exact Hloop.
Qed.

Lemma process_grains_cell (st : state) a interval (grains : list grain) ch f :
  0 <= outChannels a -> 0 <= icount_frames a ->
  0 <= ch < outChannels a ->
  0 <= f < icount_frames a ->
  forall count mix,
    snd (process_grains st a interval grains count mix) !! mixIndex a ch f
    = fold_left (add_grain st a interval ch f) grains
        <$> mix !! mixIndex a ch f.
Proof.
  intros Hout HF Hch Hf.
  induction grains as [|g rest IH]; intros count mix.
  - cbn. now destruct (mix !! mixIndex a ch f).
  - cbn [process_grains fold_left].
    pose proof (process_grain_cell st a interval g count mix ch f
                  Hout HF Hch Hf) as Hg.
    destruct (process_grain st a interval g count mix) as [[g' c'] m'].
    cbn [snd] in Hg. specialize (IH c' m').
    destruct (process_grains st a interval rest c' m') as [[r c] m].
    cbn [snd] in IH |- *. rewrite IH, Hg.
    now destruct (mix !! mixIndex a ch f).
Qed.

(** The states of a callback agree on everything the mix reads. *)
Lemma add_grain_ext (st st' : state) a interval ch f v (g : grain) :
  frames_total (global_AudioFileData st')
  = frames_total (global_AudioFileData st) ->
  samples (global_AudioFileData st') = samples (global_AudioFileData st) ->
  channels_file (global_AudioFileData st')
  = channels_file (global_AudioFileData st) ->
  garray_channel_anchor st' = garray_channel_anchor st ->
  g_original_sequence_channels st' = g_original_sequence_channels st ->
  g_envelope_rms st' = g_envelope_rms st ->
  add_grain st' a interval ch f v g = add_grain st a interval ch f v g.
Proof.
  intros Ht Hs Hc Ha Ho Hr.
  unfold add_grain, plays_frame, routed_to, grain_sample, final_target_ch,
    resolve_target_ch, total_frames.
  now rewrite Ht, Hs, Hc, Ha, Ho, Hr.
Qed.

Lemma fold_left_agree {A B : Type} (h h' : A -> B -> A) (l : list B) :
  (forall v x, h v x = h' v x) ->
  forall v, fold_left h l v = fold_left h' l v.
Proof.
  intros Hh. induction l as [|x l IH]; intros v; [reflexivity|].
  cbn. now rewrite Hh, IH.
Qed.

Lemma spawn_keeps_rms (st : state) d :
  g_envelope_rms (function_process_grain st d) = g_envelope_rms st.
Proof.
  destruct (spawn_cases st d) as [[-> _] | (_ & k & slot & _ & ->)];
    reflexivity.
Qed.

Lemma trigger_keeps_rms (st : state) a :
  g_envelope_rms (trigger st a) = g_envelope_rms st.
Proof.
  unfold trigger. destruct (interval_start_frames st <=? _); [|reflexivity].
  exact (spawn_keeps_rms (set_count_present_frame _ st) (rng a)).
Qed.

(** The mix of a callback. *)
Lemma callback_mix_cell (st : state) a ch f :
  0 <= outChannels a -> 0 <= icount_frames a ->
  outChannels a * icount_frames a < 2 ^ 32 ->
  0 <= ch < outChannels a -> 0 <= f < icount_frames a ->
  snd (function_callback_audio st a) !! mixIndex a ch f
  = Some (if grains_run st
          then mixed_cell st a (interval_start_frames st)
                 (pool (trigger st a)) ch f
          else base_cell st ch f).
Proof.
  intros Hout HF Hsize Hch Hf.
  destruct (trigger_frame st a) as (Hfd & Hplay & Htest & Hanchor & Horig & _).
  destruct (trigger_conditions st a) as (_ & _ & Hmoves & Hruns).
  pose proof (trigger_keeps_rms st a) as Hrms.
  assert (Hbase :
    base_mix (trigger st a) a !! mixIndex a ch f = Some (base_cell st ch f)).
  { rewrite base_mix_cell by assumption. unfold base_cell.
    now rewrite Hmoves, Hfd. }
  rewrite callback_shape. cbv zeta. rewrite Hruns.
  destruct (grains_run st); cbn [snd]; [|exact Hbase].
  rewrite process_grains_cell, Hbase by assumption.
  cbn [fmap option_fmap option_map]. f_equal. unfold mixed_cell.
  replace (pool (if cursor_moves (trigger st a) then _ else trigger st a))
    with (pool (trigger st a))
    by (now destruct (cursor_moves (trigger st a))).
  apply fold_left_agree. intros v g. apply add_grain_ext;
    destruct (cursor_moves (trigger st a));
    cbn [set_present_frame global_AudioFileData frames_total samples
         channels_file garray_channel_anchor g_original_sequence_channels
         g_envelope_rms];
    congruence.
Qed.

(** *** Routing *)

Lemma resolve_direct (st : state) target :
  maps_through_objects st target = false ->
  resolve_target_ch st target = u32 (target - 1).
Proof.
  unfold maps_through_objects, resolve_target_ch.
  destruct (g_original_sequence_channels st) as [[o0 o1] o2].
  destruct (garray_channel_anchor st) as [[a0 a1] a2].
  intros Hno. repeat (apply orb_false_iff in Hno as [Hno ?]).
  repeat match goal with Hx : (_ =? _) = false |- _ => rewrite Hx; clear Hx end.
  reflexivity.
Qed.

Lemma for_loop_unchanged {A : Type} (n : Z) (body : Z -> A -> A) (x : A) :
  (forall i y, body i y = y) -> for_loop n body x = x.
Proof.
  intros Hid. unfold for_loop.
  induction (seq 0 (Z.to_nat n)) as [|i l IH]; [reflexivity|].
  cbn [fold_left]. now rewrite Hid.
Qed.

Lemma mix_grain_frame_unroutable (st : state) a g gain f mix :
  unroutable st a g -> mix_grain_frame st a g gain f mix = mix.
Proof.
  intros (Hsilent & Hall & Hout). unfold mix_grain_frame.
  destruct (frames_total _ <=? _); [reflexivity|].
  apply Z.eqb_neq in Hsilent. apply Z.eqb_neq in Hall.
  apply Z.ltb_ge in Hout. now rewrite Hsilent, Hall, Hout.
Qed.

Lemma mix_grain_frame_silenced (st : state) a g gain f mix :
  mix_grain_frame st a (silenced g) gain f mix = mix.
Proof.
  unfold mix_grain_frame. now destruct (frames_total _ <=? _).
Qed.

Lemma process_grain_unroutable (st : state) a interval g count mix :
  unroutable st a g ->
  process_grain st a interval g count mix
  = (grain_after a g, if completes a g then u32 (count - 1) else count, mix).
Proof.
  intros Hun.
  destruct (process_grain_result st a interval g count mix) as [mix' Heq].
  rewrite Heq. f_equal.
  apply (f_equal snd) in Heq. cbn [snd] in Heq. rewrite <- Heq.
  unfold process_grain.
  destruct (status_callback_grain g); cbn [negb]; [|reflexivity].
  assert (Hloop : forall gain,
            for_loop (frames_grain_process a g)
              (mix_grain_frame st a g gain) mix = mix)
    by (intros gain; apply for_loop_unchanged; intros i y;
        now apply mix_grain_frame_unroutable).
  rewrite Hloop. now destruct (frames_grain g <=? _).
Qed.

Lemma process_grain_silenced (st : state) a interval g count mix :
  process_grain st a interval (silenced g) count mix
  = (grain_after a (silenced g),
     if completes a g then u32 (count - 1) else count, mix).
Proof.
  destruct (process_grain_result st a interval (silenced g) count mix)
    as [mix' Heq].
  rewrite Heq. f_equal.
  apply (f_equal snd) in Heq. cbn [snd] in Heq. rewrite <- Heq.
  unfold process_grain.
  destruct (status_callback_grain (silenced g)); cbn [negb]; [|reflexivity].
  assert (Hloop : forall gain,
            for_loop (frames_grain_process a (silenced g))
              (mix_grain_frame st a (silenced g) gain) mix = mix)
    by (intros gain; apply for_loop_unchanged; intros i y;
        apply mix_grain_frame_silenced).
  rewrite Hloop. now destruct (frames_grain (silenced g) <=? _).
Qed.

Lemma process_grains_unroutable (st : state) a interval g grains :
  unroutable st a g ->
  forall k count mix,
    grains !! k = Some g ->
    snd (process_grains st a interval grains count mix)
    = snd (process_grains st a interval (<[k := silenced g]> grains) count mix)
    /\ snd (fst (process_grains st a interval grains count mix))
       = snd (fst (process_grains st a interval
                     (<[k := silenced g]> grains) count mix)).
Proof.
  intros Hun.
  induction grains as [|g0 rest IH]; intros k count mix Hk; [discriminate Hk|].
  destruct k as [|k]; cbn [process_grains]; cbn in Hk.
  - injection Hk as ->. cbn [insert list_insert].
    cbn [process_grains].
    rewrite (process_grain_unroutable st a interval g count mix Hun).
    rewrite (process_grain_silenced st a interval g count mix).
    destruct (process_grains st a interval rest _ mix) as [[rest' c] m].
    split; reflexivity.
  - change (<[S k := silenced g]> (g0 :: rest))
      with (g0 :: <[k := silenced g]> rest).
    cbn [process_grains].
    destruct (process_grain st a interval g0 count mix) as [[g0' c0] m0].
    specialize (IH k c0 m0 Hk).
    destruct (process_grains st a interval rest c0 m0) as [[r1 c1] m1].
    destruct (process_grains st a interval (<[k := silenced g]> rest) c0 m0)
      as [[r2 c2] m2].
    exact IH.
Qed.

(** C6.  A positive target that is neither an id of the original sequence
    mapping nor a legacy alias 1, 2, 3 is sent to channel [id - 1], and to
    that channel only.  When the channel resolved for a grain is not below
    the output channel count, no frame of the grain changes the mix; the
    loop over the pool leaves the mix and the active count it would leave
    were that grain silent; and the callback returns [noErr].  The other
    grains, frames and channels are mixed as usual: every cell of the mix
    the callback builds is the base layer plus, in pool order, the sample
    of each active grain that plays the frame inside the source and is
    routed to the channel. *)
Theorem unroutable_target_is_skipped (st : state) (a : callback_args) :
  (forall target,
     0 < target < 2 ^ 31 ->
     maps_through_objects st target = false ->
     resolve_target_ch st target = target - 1
     /\ final_target_ch st target = target - 1)
  /\ (forall g gain f mix,
        unroutable st a g -> mix_grain_frame st a g gain f mix = mix)
  /\ (forall interval grains k g count mix,
        grains !! k = Some g ->
        unroutable st a g ->
        snd (process_grains st a interval grains count mix)
        = snd (process_grains st a interval
                 (<[k := silenced g]> grains) count mix)
        /\ snd (fst (process_grains st a interval grains count mix))
           = snd (fst (process_grains st a interval
                         (<[k := silenced g]> grains) count mix))
        /\ fst (fst (process_grains st a interval grains count mix))
           = map (grain_after a) grains)
  /\ fst (fst (function_callback_audio st a)) = noErr
  /\ (forall g : grain,
        0 < target_object g < 2 ^ 31 ->
        maps_through_objects st (target_object g) = false ->
        (forall ch, routed_to st g ch = (target_object g - 1 =? ch))
        /\ (outChannels a <= target_object g - 1 ->
            unroutable st a g
            /\ forall ch interval f v,
                 0 <= ch < outChannels a ->
                 add_grain st a interval ch f v g = v))
  /\ (0 <= outChannels a ->
      0 <= icount_frames a ->
      outChannels a * icount_frames a < 2 ^ 32 ->
      forall ch f,
        0 <= ch < outChannels a ->
        0 <= f < icount_frames a ->
        snd (function_callback_audio st a) !! mixIndex a ch f
        = Some (if grains_run st
                then mixed_cell st a (interval_start_frames st)
                       (pool (trigger st a)) ch f
                else base_cell st ch f)).
Proof.
  assert (Hdirect : forall target,
    0 < target < 2 ^ 31 ->
    maps_through_objects st target = false ->
    resolve_target_ch st target = target - 1
    /\ final_target_ch st target = target - 1).
  { intros target Hpos Hno.
    assert (Hres : resolve_target_ch st target = target - 1).
    { rewrite (resolve_direct st target Hno).
      apply u32_small. unfold_u32. change (2 ^ 31) with 2147483648 in Hpos.
      lia. }
    split; [exact Hres|].
    unfold final_target_ch, g_channel_offset. rewrite Hres, Z.add_0_r.
    apply u32_small. unfold_u32. change (2 ^ 31) with 2147483648 in Hpos. lia. }
  split; [exact Hdirect|]. split; [|split; [|split; [|split]]].
  - intros g gain f mix Hun. now apply mix_grain_frame_unroutable.
  - intros interval grains k g count mix Hk Hun.
    destruct (process_grains_unroutable st a interval g grains Hun k count mix Hk)
      as [Hmix Hcount].
    split; [exact Hmix|]. split; [exact Hcount|].
    apply process_grains_pool.
  - now destruct (fst (fst (function_callback_audio st a))).
  - intros g Hpos Hno.
    destruct (Hdirect (target_object g) Hpos Hno) as [_ Hfinal].
    assert (Hrouted : forall ch,
      routed_to st g ch = (target_object g - 1 =? ch)).
    { intros ch. unfold routed_to. rewrite Hfinal.
      replace (target_object g =? -1) with false
        by (symmetry; apply Z.eqb_neq; lia).
      replace (target_object g =? -2) with false
        by (symmetry; apply Z.eqb_neq; lia).
      reflexivity. }
    split; [exact Hrouted|]. intros Hfar. split.
    + unfold unroutable. rewrite Hfinal. lia.
    + intros ch interval f v Hch. unfold add_grain. rewrite Hrouted.
      replace (target_object g - 1 =? ch) with false
        by (symmetry; apply Z.eqb_neq; lia).
      now rewrite andb_false_r.
  - intros Hout HF Hsize ch f Hch Hf. now apply callback_mix_cell.
Qed.

(** *** A sequence that does not parse *)

(** C8 (amended).  When some token of the text has, where an integer is
    read (the count after the first [*], the target before it unless it
    is ["x"], or the whole of a bare token other than ["x"]), a text that
    does not begin with an optionally signed decimal integer fitting an
    [int], the parser throws; neither caller catches the exception, so no
    sequence is installed and the process ends. *)
Theorem rejected_token_is_fatal (st : state) (text : string) :
  existsb Parse.rejected_token (Parse.tokens text) = true ->
  exists e,
    Parse.function_sequence_parse text = Throw e
    /\ live_sequence_change st text = Terminated e
    /\ setupGrainHopping st true text = Terminated e.
Proof.
  intros Hrej.
  pose proof (parse_tokens_is_Ok (Parse.tokens text) []) as Hok.
  rewrite Hrej in Hok.
  unfold live_sequence_change, setupGrainHopping.
  destruct (String.eqb_spec text "") as [-> | Hne]; [discriminate Hrej|].
  unfold Parse.function_sequence_parse.
  destruct (Parse.parse_tokens (Parse.tokens text) []) as [sequence|e];
    [discriminate Hok|].
  exists e. repeat split.
Qed.

End EngineFacts.


(** ** The properties at concrete inputs *)

Section Examples.

Import Engine.

Lemma translation_rotate_left_collapses_witness :
  Translate.apply_replacements
    (Translate.replacements_of (1, 2, 3) (2, 3, 1)) "1 2 3"
  <> Some "2 3 1"%string.
Proof.
  apply (proj2 (proj2 (proj2 translation_rotate_left_collapses))).
  reflexivity.
Defined.

Lemma active_grains_never_exceed_limit_witness :
  active_count example_full = 8
  /\ function_process_grain example_full example_draws = example_full
  /\ (let st' :=
        snd (fst (function_callback_audio example_full example_whole_args)) in
      active_count st' < 8
      /\ (exists a k g g',
            st' = snd (fst (function_callback_audio example_full a))
            /\ pool example_full !! k = Some g /\ active g
            /\ completes a g = true
            /\ pool st' !! k = Some g' /\ inactive g')
      /\ active_count (function_process_grain st' example_draws)
         = active_count st' + 1).
Proof.
  assert (Hstart : starts example_start).
  { exists 1, (fun _ fr => fr + 1), 4096, (fun _ => 1), 1.
    split; [unfold is_u32; lia | reflexivity]. }
  assert (Hfull : reachable example_start example_full).
  { unfold example_full. cbn [Nat.iter].
    do 8 refine (reachable_step _ _ _ _ (step_spawn _ _)).
    exact (reachable_step _ _ _ (reachable_start _) (step_flags _ _ _)). }
  assert (Hstep :
    step example_full
      (snd (fst (function_callback_audio example_full example_whole_args)))).
  { apply step_callback; vm_compute; split; discriminate || reflexivity. }
  destruct (active_grains_never_exceed_limit example_start example_full
              Hstart Hfull) as (_ & Hrefuse & Hleave & _).
  split; [vm_compute; reflexivity|].
  split; [apply Hrefuse; vm_compute; discriminate|].
  cbv zeta.
  destruct (Hleave _ Hstep) as [Hstay | (Hlt & Hwho)];
    [vm_compute; reflexivity | vm_compute in Hstay; discriminate Hstay |].
  split; [exact Hlt|]. split; [exact Hwho|].
  apply (proj2 (proj2 (proj2
           (active_grains_never_exceed_limit example_start _ Hstart
              (reachable_step _ _ _ Hfull Hstep))))).
  exact Hlt.
Defined.

Lemma sequence_read_escapes_during_replacement_witness :
  exists st,
    reachable example_start st
    /\ g_use_grain_hopping st = true
    /\ g_grain_sequence st = [5]
    /\ g_sequence_position st = 2%nat
    /\ ~ cursor_in_bounds st
    /\ g_grain_sequence st !! g_sequence_position st = None
    /\ active_count (function_process_grain st example_draws)
       = active_count st + 1
    /\ g_sequence_position (function_process_grain st example_draws)
       = Nat.modulo (S (g_sequence_position st)) (length (g_grain_sequence st))
    /\ cursor_in_bounds (reset_sequence_cursor st).
Proof.
  apply (sequence_read_escapes_during_replacement example_start example_draws).
  exists 1, (fun _ fr => fr + 1), 4096, (fun _ => 1), 1.
  split; [unfold is_u32; lia | reflexivity].
Defined.

Lemma envelope_index_in_bounds_witness :
  0 < frames_grain example_grain /\ 0 <= env_idx example_grain 5 < 1024.
Proof.
  refine (envelope_index_in_bounds example_start example_start
            example_long_args _ _ example_grain 5 _ _ _).
  - exists 1, (fun _ fr => fr + 1), 4096, (fun _ => 1), 1.
    split; [unfold is_u32; lia | reflexivity].
  - apply reachable_start.
  - apply (list_elem_of_lookup_2 _ 0%nat). reflexivity.
  - reflexivity.
  - vm_compute. split; [discriminate | reflexivity].
Defined.

(** C5, as stated, fails: with grain length 2048 and the travel factor
    1 + 3/8192, a [float] inside the default range [0.9f, 1.1f], the
    product is 2048.75; the spawned grain has 2048 frames, and rounding
    would give 2049. *)
Lemma spawn_length_is_not_rounded :
  Qeq_bool (Float32.round (scale example_draws)) (scale example_draws) = true
  /\ Qle_bool (g_travel_factor_min example_start) (scale example_draws) = true
  /\ Qle_bool (scale example_draws) (g_travel_factor_max example_start) = true
  /\ frames_grain
       <$> pool (function_process_grain example_start example_draws) !! 0%nat
     = Some 2048
  /\ claimed_length example_start example_draws = 2049.
Proof.
  repeat (split; [vm_compute; reflexivity|]). vm_compute. reflexivity.
Qed.

Lemma spawned_grain_geometry_witness :
  exists g,
    pool (function_process_grain example_start example_draws) !! 0%nat = Some g
    /\ address_start_frame g = 0
    /\ frames_grain g = 2048.
Proof.
  destruct (spawned_grain_geometry example_start example_draws 0 zero_grain)
    as (g & Hg & Hstart & Hlen & _).
  - unfold is_u32. vm_compute. split; [discriminate | reflexivity].
  - vm_compute. split; [discriminate | reflexivity].
  - reflexivity.
  - reflexivity.
  - reflexivity.
  - exists g. split; [exact Hg|]. split; [exact Hstart|].
    rewrite Hlen, Hstart. reflexivity.
Defined.

(** C2, as stated, fails: after the run [example_run] the cursor is at the
    end of the 4096 frames while the grain of slot 1 has played 512 of its
    1512 frames; the next callback leaves the whole pool as it was, that
    grain still at frame 512, and a mix of zeros, where the grain would
    have advanced to frame 1024 had it kept playing. *)
Lemma grains_stop_at_end_of_source :
  cursor example_at_end = 4096
  /\ total_frames example_at_end = 4096
  /\ g_status_audio_playback example_at_end = true
  /\ pool example_at_end !! 1%nat = Some example_stranded
  /\ address_present_grain (grain_after (example_args 0) example_stranded)
     = 1024
  /\ pool (snd (fst (function_callback_audio example_at_end (example_args 0))))
     = pool example_at_end
  /\ snd (function_callback_audio example_at_end (example_args 0))
     = repeat 0 1024.
Proof.
  repeat (split; [vm_compute; reflexivity|]). vm_compute. reflexivity.
Qed.

Lemma cursor_clamped_and_grains_frozen_at_end_witness :
  pool (snd (fst (function_callback_audio example_at_end (example_args 0))))
    !! 1%nat
  = Some example_stranded
  /\ cursor (snd (fst (function_callback_audio example_huge (example_args 0))))
     = 256.
Proof.
  split.
  - refine (proj1 (proj2 (proj2 (proj2 (proj2
              (cursor_clamped_and_grains_frozen_at_end
                 example_at_end (example_args 0) _ _)))) _)
              1%nat example_stranded _ _).
    + vm_compute. split; [discriminate | reflexivity].
    + vm_compute. split; [discriminate | reflexivity].
    + vm_compute. discriminate.
    + vm_compute. reflexivity.
    + reflexivity.
  - refine (proj1 (proj1 (proj2 (proj2
              (cursor_clamped_and_grains_frozen_at_end
                 example_huge (example_args 0) _ _))) _ _)).
    + vm_compute. split; [discriminate | reflexivity].
    + vm_compute. split; [discriminate | reflexivity].
    + vm_compute. discriminate.
    + reflexivity.
Defined.

Lemma unroutable_target_is_skipped_witness :
  pool example_routing !! 1%nat = Some example_far_grain
  /\ unroutable example_routing example_wide_args example_far_grain
  /\ snd (function_callback_audio example_routing example_wide_args)
       !! mixIndex example_wide_args 4 3 = Some 4
  /\ snd (function_callback_audio example_routing example_wide_args)
       !! mixIndex example_wide_args 5 3 = Some 0.
Proof.
  destruct (unroutable_target_is_skipped example_routing example_wide_args)
    as (_ & _ & _ & _ & Hroute & Hcell).
  split; [vm_compute; reflexivity|]. split.
  - apply (Hroute example_far_grain).
    + vm_compute. split; reflexivity.
    + reflexivity.
    + vm_compute. discriminate.
  - assert (H0 : 0 <= outChannels example_wide_args)
      by (vm_compute; discriminate).
    assert (H1 : 0 <= icount_frames example_wide_args)
      by (vm_compute; discriminate).
    assert (H2 : outChannels example_wide_args
                 * icount_frames example_wide_args < 2 ^ 32)
      by (vm_compute; reflexivity).
    split.
    + rewrite (Hcell H0 H1 H2 4 3); [vm_compute; reflexivity | |];
        vm_compute; split; discriminate || reflexivity.
    + rewrite (Hcell H0 H1 H2 5 3); [vm_compute; reflexivity | |];
        vm_compute; split; discriminate || reflexivity.
Defined.

Lemma rejected_token_is_fatal_witness :
  exists e,
    Parse.function_sequence_parse "1 abc" = Throw e
    /\ live_sequence_change example_start "1 abc" = Terminated e
    /\ setupGrainHopping example_start true "1 abc" = Terminated e.
Proof.
  apply (rejected_token_is_fatal example_start "1 abc"). reflexivity.
Defined.

End Examples.

(** ** More on the sequence parser *)

Section ParseMore.

Import Parse Print.
Local Open Scope string_scope.

Lemma digit_is_not_sign c :
  isdigit c = true -> Ascii.eqb c "-" = false /\ Ascii.eqb c "+" = false.
Proof.
  intros Hd. split.
  - destruct (Ascii.eqb_spec c "-") as [->|]; [discriminate Hd | reflexivity].
  - destruct (Ascii.eqb_spec c "+") as [->|]; [discriminate Hd | reflexivity].
Qed.

(** *** Tokens *)

Lemma tokens_from_separator (c : ascii) (s1 s2 : string) :
  isspace c = true ->
  forall cur,
    tokens_from cur (s1 ++ String c s2) = (tokens_from cur s1 ++ tokens s2)%list.
Proof.
  intros Hc. induction s1 as [|d s1 IH]; intros cur.
  - cbn [append tokens_from]. rewrite Hc. unfold tokens.
    destruct cur; reflexivity.
  - cbn [append tokens_from]. destruct (isspace d).
    + destruct cur; cbn [app]; now rewrite IH.
    + apply IH.
Qed.

Lemma tokens_from_no_space (s : string) :
  no_space s = true ->
  forall cur,
    tokens_from cur s
    = tokens_from (rev (list_ascii_of_string s) ++ cur)%list "".
Proof.
  induction s as [|c s IH]; intros Hs cur; [reflexivity|].
  cbn [no_space] in Hs. apply andb_true_iff in Hs as [Hc Hs].
  apply negb_true_iff in Hc. cbn [tokens_from list_ascii_of_string rev].
  rewrite Hc, (IH Hs). now rewrite <- app_assoc.
Qed.

Lemma tokens_single (s : string) :
  s <> "" -> no_space s = true -> tokens s = [s].
Proof.
  intros Hne Hs. unfold tokens. rewrite (tokens_from_no_space s Hs).
  rewrite app_nil_r. cbn [tokens_from].
  destruct (rev (list_ascii_of_string s)) as [|c l] eqn:Hrev.
  - apply (f_equal (@rev ascii)) in Hrev. rewrite rev_involutive in Hrev.
    destruct s; [contradiction | discriminate Hrev].
  - rewrite <- Hrev, rev_involutive, string_of_list_ascii_of_string.
    reflexivity.
Qed.

Lemma tokens_all_space (s : string) :
  all_space s = true <-> tokens s = [].
Proof.
  unfold tokens. split.
  - induction s as [|c s IH]; [reflexivity|]. cbn [all_space tokens_from].
    intros Hs. apply andb_true_iff in Hs as [-> Hs]. now apply IH.
  - assert (Hcur : forall t cur, cur <> [] -> tokens_from cur t <> []).
    { induction t as [|c t IHt]; intros cur Hne; cbn [tokens_from].
      - destruct cur; [contradiction | discriminate].
      - destruct (isspace c).
        + destruct cur; [contradiction | discriminate].
        + apply IHt. discriminate. }
    induction s as [|c s IH]; [reflexivity|]. cbn [all_space tokens_from].
    destruct (isspace c); [exact IH|].
    intros Hnil. now apply Hcur in Hnil.
Qed.

(** *** The loop over the tokens *)

Lemma parse_tokens_shift toks :
  forall acc,
    parse_tokens toks acc
    = let* sequence := parse_tokens toks [] in Ok (acc ++ sequence)%list.
Proof.
  induction toks as [|t toks IH]; intros acc.
  - cbn. now rewrite app_nil_r.
  - cbn [parse_tokens].
    destruct (String.eqb t "x").
    + rewrite (IH (acc ++ [(-1)%Z])%list), (IH ([] ++ [(-1)%Z])%list).
      destruct (parse_tokens toks []); cbn; [|reflexivity].
      now rewrite <- app_assoc.
    + destruct (find_char "*" t) as [p|].
      * destruct (stoi (substr_from (S p) t)) as [n|e]; cbn [bind];
          [|reflexivity].
        destruct (if String.eqb (substr_to p t) "x" then Ok (-1)%Z
                  else stoi (substr_to p t)) as [v|e]; cbn [bind];
          [|reflexivity].
        rewrite (IH (acc ++ _)%list), (IH ([] ++ _)%list).
        destruct (parse_tokens toks []); cbn; [|reflexivity].
        now rewrite <- app_assoc.
      * destruct (stoi t) as [v|e]; cbn [bind]; [|reflexivity].
        rewrite (IH (acc ++ _)%list), (IH ([] ++ _)%list).
        destruct (parse_tokens toks []); cbn; [|reflexivity].
        now rewrite <- app_assoc.
Qed.

Lemma parse_tokens_app toks1 toks2 :
  forall acc,
    parse_tokens (toks1 ++ toks2) acc
    = let* sequence := parse_tokens toks1 acc in parse_tokens toks2 sequence.
Proof.
  induction toks1 as [|t toks1 IH]; intros acc; [reflexivity|].
  cbn [app parse_tokens].
  destruct (String.eqb t "x"); [apply IH|].
  destruct (find_char "*" t) as [p|].
  - destruct (stoi (substr_from (S p) t)) as [n|e]; cbn [bind]; [|reflexivity].
    destruct (if String.eqb (substr_to p t) "x" then Ok (-1)%Z
              else stoi (substr_to p t)) as [v|e]; cbn [bind]; [|reflexivity].
    apply IH.
  - destruct (stoi t) as [v|e]; cbn [bind]; [|reflexivity]. apply IH.
Qed.

(** X1.  Two texts joined by a whitespace character parse to the
    concatenation of their sequences; the exception of the first text that
    fails is the one thrown. *)
Theorem parse_concatenation (c : ascii) (s1 s2 : string) :
  isspace c = true ->
  function_sequence_parse (s1 ++ String c s2)
  = let* sequence1 := function_sequence_parse s1 in
    let* sequence2 := function_sequence_parse s2 in
    Ok (sequence1 ++ sequence2)%list.
Proof.
  intros Hc. unfold function_sequence_parse, tokens.
  rewrite (tokens_from_separator c s1 s2 Hc), parse_tokens_app.
  destruct (parse_tokens (tokens_from [] s1) []) as [sequence1|e];
    cbn [bind]; [|reflexivity].
  apply parse_tokens_shift.
Qed.

Lemma parse_concatenation_witness :
  function_sequence_parse ("1 2*2" ++ String " " "x 3")
  = Ok [1; 2; 2; -1; 3]%Z.
Proof.
  rewrite (parse_concatenation " " "1 2*2" "x 3"); reflexivity.
Defined.

Lemma stoi_value s v : stoi s = Ok v -> v = leading_value s /\ in_int_range v = true.
Proof.
  unfold stoi. destruct (begins_with_integer s); [|discriminate].
  destruct (in_int_range (leading_value s)) eqn:Hr; [|discriminate].
  intros [= <-]. now split.
Qed.

Lemma parse_tokens_accepted_length toks :
  forall acc sequence,
    parse_tokens toks acc = Ok sequence ->
    length sequence = (length acc + list_sum (map accepted_length toks))%nat.
Proof.
  induction toks as [|t toks IH]; intros acc sequence.
  - intros [= <-]. cbn. lia.
  - cbn [parse_tokens map]. rewrite list_sum_step.
    unfold accepted_length at 1.
    destruct (String.eqb t "x").
    + intros Hp. rewrite (IH _ _ Hp), length_app. cbn. lia.
    + destruct (find_char "*" t) as [p|].
      * destruct (stoi (substr_from (S p) t)) as [n|e] eqn:Hn; cbn [bind];
          [|discriminate].
        apply stoi_value in Hn as [-> _].
        destruct (if String.eqb (substr_to p t) "x" then Ok (-1)%Z
                  else stoi (substr_to p t)) as [v|e]; cbn [bind];
          [|discriminate].
        intros Hp. rewrite (IH _ _ Hp), length_app, repeat_length. lia.
      * destruct (stoi t) as [v|e]; cbn [bind]; [|discriminate].
        intros Hp. rewrite (IH _ _ Hp), length_app. cbn. lia.
Qed.

(** X2.  Whatever text the parser accepts, well formed or not, the
    sequence has one entry per token without [*] and, per token with [*],
    as many entries as the integer read after the first [*]; a count that
    is zero or negative is accepted and adds no entry. *)
Theorem accepted_sequence_length (text : string) (sequence : list Z) :
  function_sequence_parse text = Ok sequence ->
  length sequence = list_sum (map accepted_length (tokens text)).
Proof.
  intros Hp. apply parse_tokens_accepted_length in Hp. exact Hp.
Qed.

Lemma accepted_sequence_length_witness :
  length [7; 9]%Z
  = list_sum (map accepted_length (tokens "7 5*0 6*-3 9")).
Proof.
  apply (accepted_sequence_length "7 5*0 6*-3 9"). reflexivity.
Defined.

Lemma parse_tokens_range toks :
  forall acc sequence,
    parse_tokens toks acc = Ok sequence ->
    Forall (fun v => in_int_range v = true) acc ->
    Forall (fun v => in_int_range v = true) sequence.
Proof.
  induction toks as [|t toks IH]; intros acc sequence.
  - now intros [= <-].
  - cbn [parse_tokens]. destruct (String.eqb t "x").
    + intros Hp Hacc. apply (IH _ _ Hp).
      apply Forall_app. split; [exact Hacc | now repeat constructor].
    + destruct (find_char "*" t) as [p|].
      * destruct (stoi (substr_from (S p) t)) as [n|e]; cbn [bind];
          [|discriminate].
        destruct (String.eqb (substr_to p t) "x").
        -- cbn [bind]. intros Hp Hacc. apply (IH _ _ Hp).
           apply Forall_app. split; [exact Hacc|].
           apply Forall_forall. intros v Hv.
           apply list_elem_of_In, repeat_spec in Hv. now subst v.
        -- destruct (stoi (substr_to p t)) as [v|e] eqn:Hv; cbn [bind];
             [|discriminate].
           apply stoi_value in Hv as [_ Hv].
           intros Hp Hacc. apply (IH _ _ Hp).
           apply Forall_app. split; [exact Hacc|].
           apply Forall_forall. intros w Hw.
           apply list_elem_of_In, repeat_spec in Hw. now subst w.
      * destruct (stoi t) as [v|e] eqn:Hv; cbn [bind]; [|discriminate].
        apply stoi_value in Hv as [_ Hv].
        intros Hp Hacc. apply (IH _ _ Hp).
        apply Forall_app. split; [exact Hacc | now repeat constructor].
Qed.

(** X3.  Every entry of a parsed sequence is an [int]: it lies between
    [INT_MIN] and [INT_MAX]. *)
Theorem parsed_entries_are_ints (text : string) (sequence : list Z) :
  function_sequence_parse text = Ok sequence ->
  Forall (fun v => (INT_MIN <= v <= INT_MAX)%Z) sequence.
Proof.
  intros Hp. apply parse_tokens_range in Hp; [|constructor].
  eapply Forall_impl; [exact Hp|]. intros v Hv. unfold in_int_range in Hv.
  apply andb_true_iff in Hv as [Hlo Hhi].
  apply Z.leb_le in Hlo. apply Z.leb_le in Hhi. now split.
Qed.

Lemma parsed_entries_are_ints_witness :
  Forall (fun v => (INT_MIN <= v <= INT_MAX)%Z) [2147483647; -5; -1]%Z.
Proof.
  apply (parsed_entries_are_ints "2147483647 -5 x"). reflexivity.
Defined.

(** *** Writing and reading back *)

Lemma uint_digits (d : Decimal.uint) :
  all_digits (NilEmpty.string_of_uint d) = true
  /\ forall acc, read_digits acc (NilEmpty.string_of_uint d) = uint_value acc d.
Proof.
  induction d as [|d [IHa IHv]|d [IHa IHv]|d [IHa IHv]|d [IHa IHv]|d [IHa IHv]
                  |d [IHa IHv]|d [IHa IHv]|d [IHa IHv]|d [IHa IHv]|d [IHa IHv]];
    (split; [try reflexivity; cbn; exact IHa | intros acc; try reflexivity;
             cbn; apply IHv]).
Qed.

Lemma of_uint_acc_value (d : Decimal.uint) :
  forall acc, Zpos (Pos.of_uint_acc d acc) = uint_value (Zpos acc) d.
Proof.
  induction d; intros acc; cbn [Pos.of_uint_acc uint_value];
    try reflexivity; rewrite IHd; f_equal; lia.
Qed.

Lemma of_uint_value (d : Decimal.uint) :
  Z.of_N (Pos.of_uint d) = uint_value 0 d.
Proof.
  induction d; cbn [Pos.of_uint uint_value Z.of_N]; try reflexivity;
    try exact IHd; apply of_uint_acc_value.
Qed.

Lemma to_uint_value (p : positive) : uint_value 0 (Pos.to_uint p) = Zpos p.
Proof.
  now rewrite <- of_uint_value, DecimalPos.Unsigned.of_to.
Qed.

Lemma all_digits_clean (s : string) :
  all_digits s = true ->
  no_space s = true /\ find_char "*" s = None.
Proof.
  induction s as [|c s IH]; [now split|]. cbn [all_digits no_space find_char].
  intros Hs. apply andb_true_iff in Hs as [Hc Hs].
  destruct (IH Hs) as [-> ->]. rewrite (digit_not_space c Hc).
  destruct (Ascii.eqb_spec "*" c) as [<-|_]; [discriminate Hc | now split].
Qed.

(** The decimal text of a positive number. *)
Lemma positive_text (p : positive) :
  exists c s,
    NilZero.string_of_uint (Pos.to_uint p) = String c s
    /\ isdigit c = true /\ all_digits (String c s) = true
    /\ read_digits 0 (String c s) = Zpos p.
Proof.
  pose proof (DecimalPos.Unsigned.to_uint_nonnil p) as Hnil.
  destruct (uint_digits (Pos.to_uint p)) as [Hall Hval].
  assert (Htext : NilZero.string_of_uint (Pos.to_uint p)
                  = NilEmpty.string_of_uint (Pos.to_uint p))
    by (destruct (Pos.to_uint p); [contradiction | reflexivity..]).
  rewrite Htext.
  destruct (NilEmpty.string_of_uint (Pos.to_uint p)) as [|c s] eqn:Hs.
  - destruct (Pos.to_uint p); [contradiction | discriminate Hs..].
  - exists c, s. split; [reflexivity|].
    cbn [all_digits] in Hall. apply andb_true_iff in Hall as [Hc Hrest].
    split; [exact Hc|]. split; [cbn [all_digits]; now rewrite Hc|].
    rewrite <- Hs in *. now rewrite Hval, to_uint_value.
Qed.

(** What the parser makes of a number as [std::to_string] writes it. *)
Lemma to_string_token (v : Z) :
  in_int_range v = true ->
  (v =? -1)%Z = false ->
  let t := Translate.to_string v in
  t <> "" /\ no_space t = true /\ String.eqb t "x" = false
  /\ find_char "*" t = None /\ stoi t = Ok v.
Proof.
  intros Hrange Hv. cbv zeta. unfold Translate.to_string.
  destruct v as [|p|p]; cbn [Z.to_int NilZero.string_of_int].
  - repeat split; reflexivity || discriminate.
  - destruct (positive_text p) as (c & s & -> & Hc & Hall & Hval).
    destruct (all_digits_clean _ Hall) as [Hclean Hstar].
    destruct (digit_is_not_sign c Hc) as [Hminus Hplus].
    split; [discriminate|]. split; [exact Hclean|]. split.
    { destruct (String.eqb_spec (String c s) "x") as [Hx|]; [|reflexivity].
      injection Hx as -> _. discriminate Hc. }
    split; [exact Hstar|].
    unfold stoi, begins_with_integer, leading_value.
    cbn [skip_space]. rewrite (digit_not_space c Hc).
    unfold strip_sign. rewrite Hminus, Hplus. cbn [snd starts_with_digit].
    rewrite Hc, Hval. now rewrite Hrange.
  - destruct (positive_text p) as (c & s & -> & Hc & Hall & Hval).
    destruct (all_digits_clean _ Hall) as [Hclean Hstar].
    split; [discriminate|]. split; [exact Hclean|].
    split; [reflexivity|]. split.
    { assert (Hstep :
        find_char "*" (String "-" (String c s))
        = match find_char "*" (String c s) with
          | Some q => Some (S q)
          | None => None
          end) by reflexivity.
      now rewrite Hstep, Hstar. }
    unfold stoi, begins_with_integer, leading_value.
    change (skip_space (String "-" (String c s)))
      with (String "-" (String c s)).
    change (strip_sign (String "-" (String c s))) with (true, String c s).
    cbn [snd starts_with_digit]. rewrite Hc, Hval.
    change (- Z.pos p)%Z with (Z.neg p). now rewrite Hrange.
Qed.

Lemma print_entry_token (v : Z) :
  in_int_range v = true ->
  print_entry v <> "" /\ no_space (print_entry v) = true
  /\ forall acc, parse_tokens [print_entry v] acc = Ok (acc ++ [v])%list.
Proof.
  intros Hrange. unfold print_entry.
  destruct (v =? -1)%Z eqn:Hv.
  - apply Z.eqb_eq in Hv. subst v. repeat split; discriminate || reflexivity.
  - destruct (to_string_token v Hrange Hv) as (Hne & Hclean & Hx & Hstar & Hstoi).
    split; [exact Hne|]. split; [exact Hclean|].
    intros acc. cbn [parse_tokens]. now rewrite Hx, Hstar, Hstoi.
Qed.

Lemma print_sequence_parses (result : list Z) :
  Forall (fun v => in_int_range v = true) result ->
  parse_tokens (tokens (print_sequence result)) [] = Ok result.
Proof.
  induction result as [|v rest IH]; intros Hall; [reflexivity|].
  apply Forall_cons in Hall as [Hv Hrest].
  destruct (print_entry_token v Hv) as (Hne & Hclean & Hparse).
  destruct rest as [|w rest].
  - cbn [print_sequence]. rewrite (tokens_single _ Hne Hclean).
    apply (Hparse []).
  - change (print_sequence (v :: w :: rest))
      with (print_entry v ++ String " " (print_sequence (w :: rest))).
    unfold tokens at 1.
    rewrite (tokens_from_separator " " (print_entry v) _ eq_refl).
    fold (tokens (print_entry v)). rewrite (tokens_single _ Hne Hclean).
    rewrite parse_tokens_app, (Hparse []). cbn [bind app].
    rewrite parse_tokens_shift, (IH Hrest). reflexivity.
Qed.

(** X4.  A sequence of [int]s written the way [function_print_vector]
    writes it ([x] for -1, entries separated by one space) parses back to
    the same sequence. *)
Theorem print_then_parse (result : list Z) :
  Forall (fun v => (INT_MIN <= v <= INT_MAX)%Z) result ->
  function_sequence_parse (print_sequence result) = Ok result.
Proof.
  intros Hall. apply print_sequence_parses.
  eapply Forall_impl; [exact Hall|]. intros v [Hlo Hhi].
  unfold in_int_range. apply andb_true_iff.
  split; now apply Z.leb_le.
Qed.

Lemma print_then_parse_witness :
  function_sequence_parse (print_sequence [3; -1; 12; -7; 0]%Z)
  = Ok [3; -1; 12; -7; 0]%Z.
Proof.
  apply print_then_parse.
  repeat constructor; unfold INT_MIN, INT_MAX; lia.
Defined.

End ParseMore.

(** ** More on the sequence-translation feature *)

Section TranslateMore.

Import Parse Translate.
Local Open Scope string_scope.

Lemma to_string_nonempty (v : Z) : to_string v <> "".
Proof.
  unfold to_string. destruct v as [|p|p]; cbn [Z.to_int NilZero.string_of_int].
  - discriminate.
  - destruct (positive_text p) as (c & t & -> & _). discriminate.
  - discriminate.
Qed.

Lemma insert_by_length_Forall (P : string * string -> Prop) r sorted :
  P r -> Forall P sorted -> Forall P (insert_by_length r sorted).
Proof.
  intros Hr. induction sorted as [|r' rest IH]; intros Hs; cbn.
  - now repeat constructor.
  - apply Forall_cons in Hs as [Hr' Hrest].
    match goal with
    | |- context [if ?b then _ else _] => destruct b
    end; repeat constructor; auto.
Qed.

Lemma sort_by_length_Forall (P : string * string -> Prop) l :
  Forall P l -> Forall P (sort_by_length l).
Proof.
  unfold sort_by_length. induction 1 as [|r l Hr Hl IH]; cbn; [constructor|].
  now apply insert_by_length_Forall.
Qed.

Lemma apply_replacements_terminates (rs : list (string * string)) :
  Forall (fun r => fst r <> "") rs ->
  forall text, exists result, apply_replacements rs text = Some result.
Proof.
  induction 1 as [|[first second] rs Hr Hrs IH]; intros text;
    cbn [apply_replacements].
  - now eexists.
  - destruct (replace_all_terminates first second text Hr) as [text' ->].
    apply IH.
Qed.

Lemma translate_option_terminates (st : translation_state) mapping :
  exists text, translate_option st mapping = Some text.
Proof.
  unfold translate_option. apply apply_replacements_terminates.
  apply sort_by_length_Forall. unfold replacements_of.
  destruct (old_ids st) as [[o0 o1] o2]. destruct mapping as [[m0 m1] m2].
  repeat constructor; cbn [fst]; apply to_string_nonempty.
Qed.

(** X5.  Whatever the sequence text and the channels of the three
    objects, every replacement loop of the feature ends: when hopping is on
    and the sequence is not empty exactly six texts are printed, and
    otherwise none. *)
Theorem six_translations_are_printed (st : translation_state) :
  (g_use_grain_hopping st = true ->
   g_grain_sequence st <> [] ->
   exists texts,
     length texts = 6%nat
     /\ show_sequence_translations st = map Some texts)
  /\ (g_use_grain_hopping st = false \/ g_grain_sequence st = [] ->
      show_sequence_translations st = []).
Proof.
  unfold show_sequence_translations. split.
  - intros -> Hne.
    destruct (g_grain_sequence st) as [|x l]; [contradiction|]. cbn [length].
    cbn [Nat.eqb negb andb]. unfold mappings.
    destruct (old_ids st) as [[n0 n1] n2] eqn:Hold.
    destruct (translate_option_terminates st (n0, n1, n2)) as [t1 H1].
    destruct (translate_option_terminates st (n0, n2, n1)) as [t2 H2].
    destruct (translate_option_terminates st (n1, n0, n2)) as [t3 H3].
    destruct (translate_option_terminates st (n1, n2, n0)) as [t4 H4].
    destruct (translate_option_terminates st (n2, n0, n1)) as [t5 H5].
    destruct (translate_option_terminates st (n2, n1, n0)) as [t6 H6].
    exists [t1; t2; t3; t4; t5; t6]. split; [reflexivity|].
    cbn [map]. now rewrite H1, H2, H3, H4, H5, H6.
  - intros [-> | ->]; [reflexivity|]. cbn [length Nat.eqb negb].
    now rewrite andb_false_r.
Qed.

Lemma six_translations_are_printed_witness :
  exists texts,
    length texts = 6%nat
    /\ show_sequence_translations translation_example = map Some texts.
Proof.
  apply (proj1 (six_translations_are_printed translation_example)).
  - reflexivity.
  - discriminate.
Defined.

Lemma find_at_sound (pat s : string) :
  forall here pos i,
    find_at pat s here pos = Some i ->
    String.prefix pat (substr_from (i - here) s) = true.
Proof.
  induction s as [|c s IH]; intros here pos i; cbn [find_at].
  - destruct (Nat.leb pos here && String.prefix pat "") eqn:Hhit;
      [|discriminate].
    intros [= <-]. apply andb_true_iff in Hhit as [_ Hp].
    now rewrite Nat.sub_diag.
  - destruct (Nat.leb pos here && String.prefix pat (String c s)) eqn:Hhit.
    + intros [= <-]. apply andb_true_iff in Hhit as [_ Hp].
      now rewrite Nat.sub_diag.
    + intros Hfind. pose proof (find_at_bounds _ _ _ _ _ Hfind) as (_ & Hlt & _).
      apply IH in Hfind.
      replace (i - here)%nat with (S (i - S here)) by lia. exact Hfind.
Qed.

Lemma prefix_split (pat t : string) :
  String.prefix pat t = true ->
  t = pat ++ substr_from (String.length pat) t.
Proof.
  revert pat. induction t as [|c t IH]; intros [|d pat]; cbn;
    try reflexivity; try discriminate.
  destruct (Ascii.ascii_dec d c) as [->|]; [|discriminate].
  intros Hp. now rewrite <- (IH pat Hp).
Qed.

Lemma substr_split (i : nat) (s : string) :
  substr_to i s ++ substr_from i s = s.
Proof.
  revert i. induction s as [|c s IH]; intros [|i]; cbn; try reflexivity.
  now rewrite IH.
Qed.

Lemma substr_from_add (i j : nat) (s : string) :
  substr_from (i + j) s = substr_from j (substr_from i s).
Proof.
  revert s. induction i as [|i IH]; intros s; [reflexivity|].
  destruct s as [|c s]; cbn; [now destruct j | apply IH].
Qed.

Lemma replace_same (s pat : string) (i : nat) :
  find s pat 0 = Some i \/ (exists pos, find s pat pos = Some i) ->
  replace s i (String.length pat) pat = s.
Proof.
  intros Hfind.
  assert (Hp : String.prefix pat (substr_from i s) = true).
  { destruct Hfind as [Hf | [pos Hf]]; apply find_at_sound in Hf;
      now rewrite Nat.sub_0_r in Hf. }
  unfold replace. rewrite substr_from_add, <- (prefix_split _ _ Hp).
  apply substr_split.
Qed.

Lemma replace_loop_same (pat : string) :
  pat <> "" ->
  forall fuel text index_str,
    (index_str <= String.length text)%nat ->
    (String.length text - index_str < fuel)%nat ->
    replace_loop fuel pat pat text index_str = Some text.
Proof.
  intros Hne.
  assert (Hpos : (1 <= String.length pat)%nat)
    by (destruct pat; [contradiction | cbn; lia]).
  induction fuel as [|fuel IH]; intros text index_str Hidx Hfuel; [lia|].
  cbn [replace_loop].
  destruct (find text pat index_str) as [i|] eqn:Hfind; [|reflexivity].
  rewrite (replace_same text pat i) by (right; now exists index_str).
  apply find_at_bounds in Hfind as (Hlo & _ & Hhi). apply IH; lia.
Qed.

Lemma apply_same_replacements (rs : list (string * string)) :
  Forall (fun r => fst r <> "" /\ snd r = fst r) rs ->
  forall text, apply_replacements rs text = Some text.
Proof.
  induction 1 as [|[first second] rs [Hr Heq] Hrs IH]; intros text;
    cbn [apply_replacements]; [reflexivity|].
  cbn [fst snd] in Hr, Heq. subst second. unfold replace_all.
  rewrite (replace_loop_same first Hr) by lia. apply IH.
Qed.

(** X6.  The first option printed, which maps every object to itself, is
    always the sequence text as it was typed. *)
Theorem identity_translation_is_the_text (st : translation_state) :
  translate_option st (old_ids st) = Some (g_original_sequence_string st)
  /\ (g_use_grain_hopping st = true ->
      g_grain_sequence st <> [] ->
      show_sequence_translations st !! 0%nat
      = Some (Some (g_original_sequence_string st))).
Proof.
  assert (Hid : translate_option st (old_ids st)
                = Some (g_original_sequence_string st)).
  { unfold translate_option. apply apply_same_replacements.
    apply sort_by_length_Forall. unfold replacements_of.
    destruct (old_ids st) as [[o0 o1] o2].
    repeat constructor; cbn [fst snd]; apply to_string_nonempty. }
  split; [exact Hid|].
  intros Hhop Hne. unfold show_sequence_translations. rewrite Hhop.
  destruct (g_grain_sequence st) as [|x l]; [contradiction|].
  cbn [length Nat.eqb negb andb]. unfold mappings.
  destruct (old_ids st) as [[n0 n1] n2]. cbn [map lookup list_lookup].
  now rewrite Hid.
Qed.

Lemma identity_translation_is_the_text_witness :
  show_sequence_translations translation_example !! 0%nat
  = Some (Some "1 2 3").
Proof.
  apply (proj2 (identity_translation_is_the_text translation_example)).
  - reflexivity.
  - discriminate.
Defined.

End TranslateMore.

(** ** More on the grain engine *)

Section EngineMore.

Context {F : Type} `{SampleOps F}.

Import Engine.

Abbreviation grain' := (@struct_grain F).
Abbreviation state' := (@globals F).

(** *** Spawning *)

(** X7.  In a run, a spawn attempt made below the limit of 8 never fails
    for want of a slot: it takes the free slot of lowest index, starts the
    grain there at playhead 0, raises the active count by one, and leaves
    every other slot as it was. *)
Theorem spawn_below_limit_takes_first_free_slot (st0 st : state') d :
  starts st0 ->
  reachable st0 st ->
  active_count st < 8 ->
  exists k slot g,
    pool st !! k = Some slot /\ inactive slot
    /\ (forall j other, (j < k)%nat -> pool st !! j = Some other -> active other)
    /\ pool (function_process_grain st d) !! k = Some g
    /\ active g /\ address_present_grain g = 0
    /\ active_count (function_process_grain st d) = active_count st + 1
    /\ (forall j, j <> k ->
        pool (function_process_grain st d) !! j = pool st !! j).
Proof.
  intros Hstart Hreach Hfree.
  pose proof (reachable_invariant st0 st Hstart Hreach) as Hinv.
  destruct (free_slot_exists st Hinv Hfree) as (k & slot & Hfind).
  destruct (spawn_cases st d)
    as [[_ [Hfull | Hnone]] | (_ & k' & slot' & Hfind' & Heq)];
    [lia | congruence |].
  rewrite Hfind in Hfind'. injection Hfind' as <- <-. rewrite Heq.
  pose proof (inv_count st Hinv) as Hcount.
  pose proof (count_active_bounds (pool st)) as Hb.
  apply list_find_Some in Hfind as (Hk & Hslot & Hfirst).
  exists k, slot, (fst (initialize_grain st slot (spawn_start st d)
                          (spawn_length st d) f_one)).
  split; [exact Hk|]. split; [exact Hslot|]. split.
  { intros j other Hj Hother. specialize (Hfirst j other Hother Hj).
    unfold active, inactive in *.
    now destruct (status_callback_grain other). }
  unfold spawned, pool, active_count in *.
  cbn [set_sequence set_ProcessGrain global_ProcessGrain object_array_grains
       active_envelopes_grain].
  split; [apply list_lookup_insert_eq; now apply lookup_lt_Some in Hk|].
  split; [reflexivity|]. split; [reflexivity|]. split.
  - apply u32_small. unfold is_u32, u32. change (2 ^ 32) with 4294967296. lia.
  - intros j Hj. now apply list_lookup_insert_ne.
Qed.

(** *** The frame counter *)

Lemma callback_frame (st : state') a :
  let st' := snd (fst (function_callback_audio st a)) in
  g_status_audio_playback st' = g_status_audio_playback st
  /\ g_run_channel_order_test st' = g_run_channel_order_test st
  /\ total_frames st' = total_frames st
  /\ garray_channel_anchor st' = garray_channel_anchor st
  /\ g_original_sequence_channels st' = g_original_sequence_channels st
  /\ g_grain_sequence st' = g_grain_sequence st
  /\ frames_object_grain (global_ProcessGrain st')
     = frames_object_grain (global_ProcessGrain (trigger st a))
  /\ count_present_frame (global_ProcessGrain st')
     = count_present_frame (global_ProcessGrain (trigger st a)).
Proof.
  cbv zeta. rewrite callback_shape. cbv zeta.
  destruct (trigger_frame st a) as (Hfd & Hplay & Htest & Hanchor & Horig & Hseq).
  unfold total_frames. rewrite <- Hfd, <- Hplay, <- Htest, <- Hanchor, <- Horig,
    <- Hseq.
  destruct (grains_run (trigger st a)), (cursor_moves (trigger st a));
    cbn [fst snd]; repeat split; reflexivity.
Qed.

Lemma spawn_keeps_length (st : state') d :
  frames_object_grain (global_ProcessGrain (function_process_grain st d))
  = frames_object_grain (global_ProcessGrain st).
Proof.
  destruct (spawn_cases st d) as [[-> _] | (_ & k & slot & _ & ->)];
    reflexivity.
Qed.

Lemma trigger_keeps_length (st : state') a :
  frames_object_grain (global_ProcessGrain (trigger st a))
  = frames_object_grain (global_ProcessGrain st).
Proof.
  unfold trigger. destruct (interval_start_frames st <=? _); [|reflexivity].
  exact (spawn_keeps_length (set_count_present_frame _ st) (rng a)).
Qed.

Lemma spawn_count_step (st : state') d :
  invariant st ->
  active_count st <= active_count (function_process_grain st d)
                  <= active_count st + 1.
Proof.
  intros Hinv.
  destruct (spawn_cases st d) as [[-> _] | (Hfree & k & slot & _ & ->)]; [lia|].
  pose proof (inv_count st Hinv) as Hcount.
  pose proof (count_active_bounds (pool st)) as Hb.
  unfold spawned, active_count in *.
  cbn [set_sequence set_ProcessGrain global_ProcessGrain active_envelopes_grain].
  rewrite u32_small; [lia|].
  unfold pool in *. unfold is_u32, u32. change (2 ^ 32) with 4294967296. lia.
Qed.

(** X8.  In a run, a callback accumulates its frame count in the frame
    counter.  While the sum is below the trigger interval nothing is
    spawned and the counter keeps the sum; once it reaches the interval one
    spawn attempt is made and the counter restarts from 0, the frames
    beyond the interval being dropped.  So a callback raises the active
    count by at most one. *)
Theorem one_spawn_attempt_per_interval (st0 st : state') a :
  starts st0 ->
  reachable st0 st ->
  is_u32 (icount_frames a) ->
  let counted :=
    u32 (count_present_frame (global_ProcessGrain st) + icount_frames a) in
  let st' := snd (fst (function_callback_audio st a)) in
  active_count st' <= active_count st + 1
  /\ (counted < interval_start_frames st ->
      pool (trigger st a) = pool st
      /\ active_count st' <= active_count st
      /\ count_present_frame (global_ProcessGrain st') = counted)
  /\ (interval_start_frames st <= counted ->
      pool (trigger st a)
      = pool (function_process_grain
                (set_count_present_frame counted st) (rng a))
      /\ count_present_frame (global_ProcessGrain st') = 0).
Proof.
  intros Hstart Hreach HF. cbv zeta.
  pose proof (reachable_invariant st0 st Hstart Hreach) as Hinv.
  pose proof (trigger_invariant st a Hinv) as Hinv1.
  destruct (callback_frame st a) as (_ & _ & _ & _ & _ & _ & _ & Hcnt).
  rewrite Hcnt.
  assert (Hafter :
    active_count (snd (fst (function_callback_audio st a)))
    <= active_count (trigger st a)).
  { rewrite (callback_active_count st a Hinv).
    destruct (grains_run st); [|lia].
    rewrite (inv_count _ Hinv1). apply count_active_after. }
  assert (Htrig :
    active_count (trigger st a) <= active_count st + 1
    /\ (u32 (count_present_frame (global_ProcessGrain st) + icount_frames a)
        < interval_start_frames st ->
        trigger st a
        = set_count_present_frame
            (u32 (count_present_frame (global_ProcessGrain st)
                  + icount_frames a)) st)
    /\ (interval_start_frames st
        <= u32 (count_present_frame (global_ProcessGrain st) + icount_frames a)
        -> trigger st a
           = set_count_present_frame 0
               (function_process_grain
                  (set_count_present_frame
                     (u32 (count_present_frame (global_ProcessGrain st)
                           + icount_frames a)) st) (rng a)))).
  { unfold trigger.
    destruct (interval_start_frames st <=? _) eqn:Hreached;
      [apply Z.leb_le in Hreached | apply Z.leb_gt in Hreached].
    - split; [|split; [lia | reflexivity]].
      pose proof (spawn_count_step (set_count_present_frame
                    (u32 (count_present_frame (global_ProcessGrain st)
                          + icount_frames a)) st) (rng a)
                    (invariant_set_count _ st Hinv)) as Hstep.
      exact (proj2 Hstep).
    - split; [|split; [reflexivity | lia]].
      change (active_count st <= active_count st + 1). lia. }
  destruct Htrig as (Hone & Hbelow & Hreached).
  split; [lia|]. split.
  - intros Hlt. rewrite (Hbelow Hlt) in *.
    split; [reflexivity|]. split; [exact Hafter | reflexivity].
  - intros Hge. rewrite (Hreached Hge). split; reflexivity.
Qed.

Lemma step_keeps_grain_length (st st' : state') :
  step st st' ->
  256 <= frames_object_grain (global_ProcessGrain st) <= 8192 ->
  256 <= frames_object_grain (global_ProcessGrain st') <= 8192.
Proof.
  intros Hstep Hrange. destruct Hstep.
  - destruct (callback_frame st a) as (_ & _ & _ & _ & _ & _ & Hlen & _).
    rewrite Hlen, trigger_keeps_length. exact Hrange.
  - now rewrite spawn_keeps_length.
  - unfold setupGrainHopping in *.
    destruct enable;
      [destruct (Parse.function_sequence_parse text); [|discriminate]|];
      match goal with Hrun : Continues _ = Continues _ |- _ =>
        injection Hrun as <- end; exact Hrange.
  - exact Hrange.
  - unfold reset_sequence_cursor. now destruct (Nat.leb _ _).
  - unfold live_grain_length.
    destruct ((256 <=? n) && (n <=? 8192)) eqn:Hn; [|exact Hrange].
    apply andb_true_iff in Hn as [Hlo Hhi].
    apply Z.leb_le in Hlo. apply Z.leb_le in Hhi. cbn. lia.
  - exact Hrange.
  - unfold function_anchor_configure. destruct (channels <? 1); [exact Hrange|].
    destruct typed as [[t0 t1] t2]. exact Hrange.
  - exact Hrange.
Qed.

(** X9.  In a run, the grain length stays between 256 and 8192 frames:
    the ['g'] command installs a length inside these bounds and leaves the
    previous one in place for any other number, and nothing else writes
    it. *)
Theorem grain_length_stays_in_bounds (st0 st : state') :
  starts st0 ->
  reachable st0 st ->
  256 <= frames_object_grain (global_ProcessGrain st) <= 8192
  /\ (forall n,
        256 <= n <= 8192 ->
        frames_object_grain (global_ProcessGrain (live_grain_length st n)) = n)
  /\ (forall n, n < 256 \/ 8192 < n -> live_grain_length st n = st).
Proof.
  intros (channels & source & total & envelope & rms & _ & ->) Hreach.
  split; [|split].
  - induction Hreach as [|st st' _ IH Hstep]; [cbn; lia|].
    exact (step_keeps_grain_length st st' Hstep IH).
  - intros n [Hlo Hhi]. unfold live_grain_length.
    apply Z.leb_le in Hlo. apply Z.leb_le in Hhi. now rewrite Hlo, Hhi.
  - intros n Hout. unfold live_grain_length.
    destruct ((256 <=? n) && (n <=? 8192)) eqn:Hn; [|reflexivity].
    apply andb_true_iff in Hn as [Hlo Hhi].
    apply Z.leb_le in Hlo. apply Z.leb_le in Hhi. lia.
Qed.

(** *** The life of a grain *)

(** X10.  Callback after callback of [F] frames, a grain of [L] frames
    that starts at playhead 0 has, after [n] passes of the loop over the
    pool, its playhead at [min(n * F, L)]; it is still active exactly
    while [n * F < L], and its start, length and target never change.  So
    it is released in pass number [ceil(L / F)], and stays released. *)
Theorem grain_plays_to_its_length (a : callback_args) (g : grain') (n : nat) :
  is_u32 (icount_frames a) ->
  status_callback_grain g = true ->
  address_present_grain g = 0 ->
  0 < frames_grain g < 2 ^ 32 ->
  (forall (st : state') interval count mix g0,
     fst (fst (process_grain st a interval g0 count mix)) = grain_after a g0)
  /\ let g' := Nat.iter n (grain_after a) g in
     address_present_grain g'
     = Z.min (Z.of_nat n * icount_frames a) (frames_grain g)
     /\ status_callback_grain g'
        = (Z.of_nat n * icount_frames a <? frames_grain g)
     /\ address_start_frame g' = address_start_frame g
     /\ frames_grain g' = frames_grain g
     /\ target_object g' = target_object g.
Proof.
  intros HF Hact Hzero Hlen. split.
  { intros st interval count mix g0.
    destruct (process_grain_result st a interval g0 count mix) as [mix' ->].
    reflexivity. }
  cbv zeta. unfold is_u32 in HF. change (2 ^ 32) with 4294967296 in *.
  induction n as [|n (IHp & IHs & IHstart & IHlen & IHtarget)].
  - change (Nat.iter 0 (grain_after a) g) with g. rewrite Hzero, Hact.
    change (Z.of_nat 0 * icount_frames a) with 0.
    repeat split; try reflexivity; [lia|].
    symmetry. apply Z.ltb_lt. lia.
  - change (Nat.iter (S n) (grain_after a) g)
      with (grain_after a (Nat.iter n (grain_after a) g)).
    set (gn := Nat.iter n (grain_after a) g) in *.
    set (P := Z.of_nat n * icount_frames a) in *.
    assert (HP : 0 <= P) by (apply Z.mul_nonneg_nonneg; lia).
    assert (HS : Z.of_nat (S n) * icount_frames a = P + icount_frames a)
      by (unfold P; lia).
    rewrite HS.
    unfold grain_after, completes, frames_grain_process. rewrite IHs.
    destruct (P <? frames_grain g) eqn:Hrun;
      [apply Z.ltb_lt in Hrun | apply Z.ltb_ge in Hrun].
    + rewrite Z.min_l in IHp by lia.
      cbn [andb advance_grain address_present_grain status_callback_grain
           address_start_frame frames_grain target_object].
      rewrite IHp, IHlen.
      rewrite (u32_small (frames_grain g - P))
        by (unfold u32; change (2 ^ 32) with 4294967296; lia).
      rewrite u32_small
        by (unfold u32; change (2 ^ 32) with 4294967296; lia).
      repeat split; try assumption; [lia|].
      destruct (frames_grain g <=? _) eqn:Hdone;
        [apply Z.leb_le in Hdone | apply Z.leb_gt in Hdone]; cbn [negb];
        symmetry; [apply Z.ltb_ge | apply Z.ltb_lt]; lia.
    + repeat split; try assumption; [lia|]. rewrite IHs.
      symmetry. apply Z.ltb_ge. lia.
Qed.

(** *** The cursor over several callbacks *)

Lemma callback_conditions (st : state') a :
  cursor_moves (snd (fst (function_callback_audio st a))) = cursor_moves st
  /\ total_frames (snd (fst (function_callback_audio st a))) = total_frames st.
Proof.
  destruct (callback_frame st a) as (Hplay & Htest & Htotal & _).
  unfold cursor_moves. now rewrite Hplay, Htest, Htotal.
Qed.

(** X11.  With playback enabled and no channel test running, [n]
    callbacks of [F] frames each move the source cursor from [c] to
    [min(c + n * F, total)]: it advances by [F] per callback, stops at the
    end of the source and stays there. *)
Theorem cursor_after_callbacks (st : state') (args : list callback_args)
  (frames : Z) :
  Forall (fun a => icount_frames a = frames) args ->
  0 <= frames ->
  cursor_moves st = true ->
  0 <= cursor st <= total_frames st ->
  total_frames st + frames < 2 ^ 32 ->
  cursor (run_callbacks st args)
  = Z.min (cursor st + Z.of_nat (length args) * frames) (total_frames st).
Proof.
  intros Hargs Hframes. revert st.
  induction Hargs as [|a args Ha _ IH]; intros st Hmoves Hcur Hwrap.
  - cbn. lia.
  - unfold run_callbacks in *. cbn [fold_left length].
    destruct (callback_conditions st a) as [Hm Ht].
    assert (Hstep : cursor (snd (fst (function_callback_audio st a)))
                    = Z.min (cursor st + frames) (total_frames st)).
    { rewrite callback_cursor, Hmoves, Ha.
      rewrite u32_small;
        [reflexivity
        | unfold is_u32, u32; change (2 ^ 32) with 4294967296 in *; lia]. }
    rewrite IH; rewrite ?Hm, ?Ht, ?Hstep; try assumption; lia.
Qed.

(** X12.  Once the cursor is at the end of the source, no later callback
    touches a grain that is active: whatever the number of callbacks, it
    stays in its slot with the playhead where it was. *)
Theorem stranded_grains_stay_forever (st : state') (args : list callback_args)
  (k : nat) (g : grain') :
  Forall (fun a => 0 <= icount_frames a
                   /\ total_frames st + icount_frames a < 2 ^ 32) args ->
  0 <= total_frames st ->
  cursor st = total_frames st ->
  pool st !! k = Some g ->
  active g ->
  pool (run_callbacks st args) !! k = Some g
  /\ cursor (run_callbacks st args) = total_frames st.
Proof.
  intros Hargs Htotal. revert st Hargs Htotal.
  induction args as [|a args IH]; intros st Hargs Htotal Hend Hk Hact.
  - now split.
  - apply Forall_cons in Hargs as [[HF Hwrap] Hargs].
    unfold run_callbacks in *. cbn [fold_left].
    destruct (callback_conditions st a) as [_ Ht].
    assert (Hcur : cursor (snd (fst (function_callback_audio st a)))
                   = total_frames st).
    { rewrite callback_cursor. destruct (cursor_moves st); [|exact Hend].
      rewrite u32_small;
        [lia | unfold is_u32, u32; change (2 ^ 32) with 4294967296 in *; lia]. }
    assert (Hpool : pool (snd (fst (function_callback_audio st a))) !! k
                    = Some g).
    { rewrite callback_pool.
      replace (grains_run st) with false.
      - now apply trigger_keeps_active.
      - unfold grains_run. rewrite Hend, Z.ltb_irrefl.
        now rewrite andb_false_r. }
    rewrite <- Ht.
    apply IH; rewrite ?Ht; assumption.
Qed.


(** *** What a grain adds to the mix *)

Lemma mix_grain_frame_silent (st : state') a g gain f mix :
  target_object g = -1 -> mix_grain_frame st a g gain f mix = mix.
Proof.
  intros Ht. unfold mix_grain_frame. rewrite Ht.
  now destruct (frames_total _ <=? _).
Qed.

(** X13.  A silent grain (target -1, written [x] in a sequence) leaves
    the mix exactly as it was for all its frames, but it is advanced and
    released like any other grain: until its length has elapsed it keeps
    its slot and stays in the active count. *)
Theorem silent_grain_is_mute_but_holds_its_slot (st : state') a interval
  (g : grain') count mix :
  target_object g = -1 ->
  process_grain st a interval g count mix
  = (grain_after a g, if completes a g then u32 (count - 1) else count, mix)
  /\ (status_callback_grain g = true ->
      completes a g = false ->
      status_callback_grain (grain_after a g) = true
      /\ snd (fst (process_grain st a interval g count mix)) = count).
Proof.
  intros Ht.
  assert (Heq : process_grain st a interval g count mix
                = (grain_after a g,
                   if completes a g then u32 (count - 1) else count, mix)).
  { destruct (process_grain_result st a interval g count mix) as [mix' Heq].
    rewrite Heq. f_equal.
    apply (f_equal snd) in Heq. cbn [snd] in Heq. rewrite <- Heq.
    unfold process_grain.
    destruct (status_callback_grain g); cbn [negb]; [|reflexivity].
    assert (Hloop : forall gain,
              for_loop (frames_grain_process a g)
                (mix_grain_frame st a g gain) mix = mix)
      by (intros gain; apply for_loop_unchanged; intros i y;
          now apply mix_grain_frame_silent).
    rewrite Hloop. now destruct (frames_grain g <=? _). }
  split; [exact Heq|].
  intros Hact Hrun. rewrite Heq, grain_after_status, Hact, Hrun.
  now split.
Qed.

(** X14.  A grain that broadcasts (target -2) adds to the mix, for the
    frame being processed, one contribution in every output channel: the
    sample of source channel [ch mod channels_file] times the envelope and
    the gain.  The cells of the other frames are not touched and the mix
    keeps its size. *)
Theorem broadcast_grain_reaches_every_channel (st : state') a (g : grain')
  gain f mix :
  target_object g = -2 ->
  0 <= outChannels a ->
  0 <= f < icount_frames a ->
  u32 (address_start_frame g + address_present_grain g + f) < total_frames st ->
  let fd := global_AudioFileData st in
  let frame := u32 (address_start_frame g + address_present_grain g + f) in
  let mix' := mix_grain_frame st a g gain f mix in
  (forall ch,
     0 <= ch < outChannels a ->
     mix' !! mixIndex a ch f
     = (fun v =>
          f_add v
            (f_mul f_one
               (f_mul (samples fd (ch mod channels_file fd) frame)
                  (f_mul (frames_gain_envelope g (env_idx g f)) gain))))
         <$> mix !! mixIndex a ch f)
  /\ (forall ch fr,
        0 <= ch -> 0 <= fr < icount_frames a -> fr <> f ->
        mix' !! mixIndex a ch fr = mix !! mixIndex a ch fr)
  /\ length mix' = length mix.
Proof.
  intros Ht Hout Hf Hin. cbv zeta. unfold mix_grain_frame.
  unfold total_frames in Hin. apply Z.leb_gt in Hin. rewrite Hin, Ht.
  change (-2 =? -1) with false. change (-2 =? -2) with true. cbv iota.
  rewrite <- (Z2Nat.id (outChannels a)) by exact Hout.
  set (n := Z.to_nat (outChannels a)).
  pose proof (for_loop_alter
    (fun ch => mixIndex a ch f)
    (fun ch v =>
       f_add v
         (f_mul f_one
            (f_mul (samples (global_AudioFileData st)
                      (ch mod channels_file (global_AudioFileData st))
                      (u32 (address_start_frame g + address_present_grain g + f)))
               (f_mul (frames_gain_envelope g (env_idx g f)) gain))))
    mix n) as Hloop.
  cbv zeta in Hloop.
  destruct Hloop as [Hhit Hmiss].
  { intros i j Hi Hj Heq.
    apply mixIndex_injective in Heq; [tauto | lia..]. }
  split; [exact Hhit|]. split.
  - intros ch fr Hch Hfr Hne. apply Hmiss.
    intros j Hj Heq. apply mixIndex_injective in Heq; [tauto | lia..].
  - apply for_loop_length. intros i m. apply length_alter.
Qed.

(** *** The size of the mix *)

Lemma mix_grain_frame_length (st : state') a g gain f mix :
  length (mix_grain_frame st a g gain f mix) = length mix.
Proof.
  unfold mix_grain_frame.
  destruct (frames_total _ <=? _); [reflexivity|].
  destruct (target_object g =? -1); [reflexivity|].
  destruct (target_object g =? -2).
  - apply for_loop_length. intros i m. apply length_alter.
  - destruct (_ <? outChannels a); [apply length_alter | reflexivity].
Qed.

Lemma process_grain_length (st : state') a interval g count mix :
  length (snd (process_grain st a interval g count mix)) = length mix.
Proof.
  unfold process_grain.
  destruct (negb (status_callback_grain g)); [reflexivity|].
  assert (Hloop : forall gain,
            length (for_loop (frames_grain_process a g)
                      (mix_grain_frame st a g gain) mix) = length mix)
    by (intros gain; apply for_loop_length; intros i m;
        apply mix_grain_frame_length).
  destruct (frames_grain g <=? _); cbn [snd]; apply Hloop.
Qed.

Lemma process_grains_length (st : state') a interval grains :
  forall count mix,
    length (snd (process_grains st a interval grains count mix)) = length mix.
Proof.
  induction grains as [|g rest IH]; intros count mix; [reflexivity|].
  cbn [process_grains].
  pose proof (process_grain_length st a interval g count mix) as Hg.
  destruct (process_grain st a interval g count mix) as [[g' c'] m'].
  cbn [snd] in Hg. specialize (IH c' m').
  destruct (process_grains st a interval rest c' m') as [[r c''] m''].
  cbn [snd] in *. now rewrite IH.
Qed.

Lemma base_mix_length (st : state') a :
  length (base_mix st a) = Z.to_nat (u32 (outChannels a * icount_frames a)).
Proof.
  unfold base_mix, silent_mix.
  destruct (cursor_moves st); [|apply repeat_length].
  unfold dry_layer. rewrite for_loop_length; [apply repeat_length|].
  intros ch m. apply for_loop_length. intros fr m'. apply length_insert.
Qed.

(** X15.  Whatever the pool holds, the mix a callback builds has exactly
    [outChannels * icount_frames] cells (the product taken in 32 bits),
    and, when that product does not wrap, the cell of every channel and
    frame of the callback lies inside it. *)
Theorem mix_has_a_cell_per_channel_and_frame (st : state') a :
  length (snd (function_callback_audio st a))
  = Z.to_nat (u32 (outChannels a * icount_frames a))
  /\ (outChannels a * icount_frames a < 2 ^ 32 ->
      forall ch fr,
        0 <= ch < outChannels a ->
        0 <= fr < icount_frames a ->
        (mixIndex a ch fr < length (snd (function_callback_audio st a)))%nat).
Proof.
  assert (Hlen : length (snd (function_callback_audio st a))
                 = Z.to_nat (u32 (outChannels a * icount_frames a))).
  { rewrite callback_shape. cbv zeta.
    destruct (grains_run (trigger st a)); cbn [snd];
      [rewrite process_grains_length|]; apply base_mix_length. }
  split; [exact Hlen|].
  intros Hwrap ch fr Hch Hfr. rewrite Hlen, u32_small.
  - unfold mixIndex. apply Z2Nat.inj_lt; nia.
  - unfold is_u32, u32. change (2 ^ 32) with 4294967296 in *. nia.
Qed.

(** *** Choosing the channels of the three objects *)

Lemma u16_range z : 0 <= u16 z < 65536.
Proof. unfold u16. change (2 ^ 16) with 65536. apply Z.mod_pos_bound. lia. Qed.

Lemma resolve_is_an_anchor (st : state') target :
  maps_through_objects st target = true ->
  let '(a0, a1, a2) := garray_channel_anchor st in
  resolve_target_ch st target = a0
  \/ resolve_target_ch st target = a1
  \/ resolve_target_ch st target = a2.
Proof.
  unfold maps_through_objects, resolve_target_ch.
  destruct (g_original_sequence_channels st) as [[o0 o1] o2].
  destruct (garray_channel_anchor st) as [[a0 a1] a2].
  destruct (target =? o0 + 1); [tauto|].
  destruct (target =? o1 + 1); [tauto|].
  destruct (target =? o2 + 1); [tauto|].
  destruct (target =? 1); [tauto|].
  destruct (target =? 2); [tauto|].
  destruct (target =? 3); [tauto|]. discriminate.
Qed.

(** X16.  After [function_anchor_configure] on a device with between 1
    and 65535 channels, each object sits on an existing channel: a number
    typed between 1 and the channel count selects that channel, and any
    other number (0 included) selects channel 1.  The original sequence
    mapping is refreshed on initial setup and kept on a live change,
    playback is switched on, and a target that goes through one of the
    three objects then always resolves to an existing channel. *)
Theorem configured_channels_exist (st : state') channels t0 t1 t2
  (is_initial_setup : bool) :
  1 <= channels <= 65535 ->
  0 <= t0 < 65536 -> 0 <= t1 < 65536 -> 0 <= t2 < 65536 ->
  let st' :=
    function_anchor_configure st channels (t0, t1, t2) is_initial_setup in
  let chosen (t : Z) := if (1 <=? t) && (t <=? channels) then t - 1 else 0 in
  garray_channel_anchor st' = (chosen t0, chosen t1, chosen t2)
  /\ 0 <= chosen t0 < channels /\ 0 <= chosen t1 < channels
  /\ 0 <= chosen t2 < channels
  /\ g_original_sequence_channels st'
     = (if is_initial_setup then garray_channel_anchor st'
        else g_original_sequence_channels st)
  /\ g_status_audio_playback st' = true
  /\ (forall target,
        maps_through_objects st' target = true ->
        0 <= final_target_ch st' target < channels).
Proof.
  intros Hch H0 H1 H2. cbv zeta.
  assert (Hfix : forall t,
    0 <= t < 65536 ->
    (if channels <=? u16 (t - 1) then 0 else u16 (t - 1))
    = (if (1 <=? t) && (t <=? channels) then t - 1 else 0)
    /\ 0 <= (if (1 <=? t) && (t <=? channels) then t - 1 else 0) < channels).
  { intros t Ht. unfold u16. change (2 ^ 16) with 65536.
    destruct (Z.eq_dec t 0) as [-> | Hne].
    - change ((0 - 1) mod 65536) with 65535. cbn [Z.leb Z.compare andb].
      replace (channels <=? 65535) with true by (symmetry; apply Z.leb_le; lia).
      lia.
    - rewrite Z.mod_small by lia.
      replace (1 <=? t) with true by (symmetry; apply Z.leb_le; lia).
      cbn [andb].
      destruct (t <=? channels) eqn:Hle;
        [apply Z.leb_le in Hle | apply Z.leb_gt in Hle].
      + replace (channels <=? t - 1) with false
          by (symmetry; apply Z.leb_gt; lia). lia.
      + replace (channels <=? t - 1) with true
          by (symmetry; apply Z.leb_le; lia). lia. }
  destruct (Hfix t0 H0) as [E0 R0]. destruct (Hfix t1 H1) as [E1 R1].
  destruct (Hfix t2 H2) as [E2 R2].
  assert (Hanchor :
    garray_channel_anchor
      (function_anchor_configure st channels (t0, t1, t2) is_initial_setup)
    = (if (1 <=? t0) && (t0 <=? channels) then t0 - 1 else 0,
       if (1 <=? t1) && (t1 <=? channels) then t1 - 1 else 0,
       if (1 <=? t2) && (t2 <=? channels) then t2 - 1 else 0)).
  { unfold function_anchor_configure.
    replace (channels <? 1) with false by (symmetry; apply Z.ltb_ge; lia).
    cbn [set_flags set_channels garray_channel_anchor].
    now rewrite E0, E1, E2. }
  split; [exact Hanchor|]. split; [exact R0|]. split; [exact R1|].
  split; [exact R2|]. split; [|split].
  - rewrite Hanchor. unfold function_anchor_configure.
    replace (channels <? 1) with false by (symmetry; apply Z.ltb_ge; lia).
    cbn [set_flags set_channels g_original_sequence_channels].
    destruct is_initial_setup; [now rewrite E0, E1, E2 | reflexivity].
  - unfold function_anchor_configure.
    replace (channels <? 1) with false by (symmetry; apply Z.ltb_ge; lia).
    reflexivity.
  - intros target Hmaps.
    pose proof (resolve_is_an_anchor _ target Hmaps) as Hres.
    rewrite Hanchor in Hres.
    unfold final_target_ch, g_channel_offset. rewrite Z.add_0_r.
    assert (Hin : 0 <= resolve_target_ch
                         (function_anchor_configure st channels (t0, t1, t2)
                            is_initial_setup) target < channels)
      by (destruct Hres as [-> | [-> | ->]]; assumption).
    rewrite u32_small; [exact Hin|].
    unfold is_u32, u32. change (2 ^ 32) with 4294967296. lia.
Qed.

(** X17.  A live change of the channels keeps what the tokens of the
    sequence mean: the original sequence mapping is left as it was, the
    token that was the id of object 1 resolves to the new channel of
    object 1, and likewise for objects 2 and 3 when their original ids
    differ from those of the objects before them.  The pool, the sequence
    and its cursor are not touched. *)
Theorem live_channel_change_keeps_token_meaning (st : state') channels
  typed o0 o1 o2 a0 a1 a2 :
  1 <= channels ->
  g_original_sequence_channels st = (o0, o1, o2) ->
  let st' := function_anchor_configure st channels typed false in
  garray_channel_anchor st' = (a0, a1, a2) ->
  g_original_sequence_channels st' = (o0, o1, o2)
  /\ resolve_target_ch st' (o0 + 1) = a0
  /\ (o1 <> o0 -> resolve_target_ch st' (o1 + 1) = a1)
  /\ (o2 <> o0 -> o2 <> o1 -> resolve_target_ch st' (o2 + 1) = a2)
  /\ pool st' = pool st
  /\ g_grain_sequence st' = g_grain_sequence st
  /\ g_sequence_position st' = g_sequence_position st.
Proof.
  intros Hch Horig. cbv zeta. intros Hanchor.
  assert (Horig' :
    g_original_sequence_channels
      (function_anchor_configure st channels typed false) = (o0, o1, o2)).
  { unfold function_anchor_configure.
    replace (channels <? 1) with false by (symmetry; apply Z.ltb_ge; lia).
    destruct typed as [[t0 t1] t2]. exact Horig. }
  split; [exact Horig'|].
  unfold resolve_target_ch. rewrite Horig', Hanchor.
  split; [now rewrite Z.eqb_refl|]. split; [|split].
  - intros Hne. replace (o1 + 1 =? o0 + 1) with false
      by (symmetry; apply Z.eqb_neq; lia).
    now rewrite Z.eqb_refl.
  - intros Hne0 Hne1.
    replace (o2 + 1 =? o0 + 1) with false by (symmetry; apply Z.eqb_neq; lia).
    replace (o2 + 1 =? o1 + 1) with false by (symmetry; apply Z.eqb_neq; lia).
    now rewrite Z.eqb_refl.
  - unfold function_anchor_configure.
    replace (channels <? 1) with false by (symmetry; apply Z.ltb_ge; lia).
    destruct typed as [[t0 t1] t2]. repeat split; reflexivity.
Qed.

(** *** Hopping switched off, or nothing to hop through *)

(** X18.  When hopping is disabled or the sequence is empty, a spawn
    gives the grain the target -2 (all channels) and leaves the sequence
    cursor where it was. *)
Theorem spawn_without_sequence_broadcasts (st : state') d k slot :
  active_count st < 8 ->
  list_find inactive (pool st) = Some (k, slot) ->
  g_use_grain_hopping st = false \/ g_grain_sequence st = [] ->
  exists g,
    pool (function_process_grain st d) !! k = Some g
    /\ target_object g = -2
    /\ g_sequence_position (function_process_grain st d)
       = g_sequence_position st.
Proof.
  intros Hfree Hfind Hoff.
  destruct (spawn_cases st d)
    as [[_ [Hfull | Hnone]] | (_ & k' & slot' & Hfind' & ->)];
    [lia | congruence |].
  rewrite Hfind in Hfind'. injection Hfind' as <- <-.
  apply list_find_Some in Hfind as (Hk & _). apply lookup_lt_Some in Hk.
  assert (Hhop :
    g_use_grain_hopping st && negb (Nat.eqb (length (g_grain_sequence st)) 0)
    = false).
  { destruct Hoff as [-> | ->]; [reflexivity|]. apply andb_false_r. }
  eexists. split; [|split].
  - unfold spawned, pool.
    cbn [set_sequence set_ProcessGrain global_ProcessGrain object_array_grains].
    apply list_lookup_insert_eq. exact Hk.
  - unfold initialize_grain. cbn [fst target_object]. now rewrite Hhop.
  - unfold spawned. cbn [set_sequence g_sequence_position].
    unfold initialize_grain. cbn [snd]. now rewrite Hhop.
Qed.

(** X19.  A line of the ['h'] command that holds only whitespace is not
    an empty line: it parses to the empty sequence, which replaces the
    current one, and the cursor goes back to 0. *)
Theorem blank_line_clears_the_sequence (st : state') (text : string) :
  text <> ""%string ->
  Print.all_space text = true ->
  Parse.function_sequence_parse text = Ok []
  /\ live_sequence_change st text
     = Continues (set_sequence [] 0 (g_use_grain_hopping st) st).
Proof.
  intros Hne Hblank.
  assert (Hparse : Parse.function_sequence_parse text = Ok []).
  { unfold Parse.function_sequence_parse.
    now rewrite (proj1 (tokens_all_space text) Hblank). }
  split; [exact Hparse|].
  unfold live_sequence_change. rewrite Hparse.
  destruct (String.eqb_spec text ""); [contradiction | reflexivity].
Qed.

(** *** Playback switched off *)

(** X20.  While playback is switched off, as it is during the channel
    test, a callback in a run leaves the source cursor and every active
    grain as they are and mixes nothing, yet it still counts its frames and
    makes its spawn attempt: when the counter reaches the interval and
    fewer than 8 grains are active, one more grain becomes active. *)
Theorem paused_callbacks_still_spawn (st0 st : state') a :
  starts st0 ->
  reachable st0 st ->
  g_status_audio_playback st = false ->
  let st' := snd (fst (function_callback_audio st a)) in
  let counted :=
    u32 (count_present_frame (global_ProcessGrain st) + icount_frames a) in
  snd (function_callback_audio st a) = silent_mix a
  /\ cursor st' = cursor st
  /\ (forall k g, pool st !! k = Some g -> active g -> pool st' !! k = Some g)
  /\ (interval_start_frames st <= counted ->
      active_count st < 8 ->
      active_count st' = active_count st + 1)
  /\ (counted < interval_start_frames st \/ 8 <= active_count st ->
      pool st' = pool st).
Proof.
  intros Hstart Hreach Hoff. cbv zeta.
  pose proof (reachable_invariant st0 st Hstart Hreach) as Hinv.
  destruct (trigger_conditions st a) as (Hcur & _ & Hmoves & Hruns).
  assert (Hgr : grains_run st = false)
    by (unfold grains_run; now rewrite Hoff).
  assert (Hcm : cursor_moves st = false)
    by (unfold cursor_moves; rewrite Hoff; apply andb_false_r).
  assert (Hcall :
    function_callback_audio st a = (noErr, trigger st a, silent_mix a)).
  { rewrite callback_shape. cbv zeta. rewrite Hruns, Hgr, Hmoves, Hcm.
    unfold base_mix. now rewrite Hmoves, Hcm. }
  rewrite Hcall. cbn [fst snd].
  split; [reflexivity|]. split; [exact Hcur|].
  split; [intros k g Hk Hg; now apply trigger_keeps_active|]. split.
  - intros Hreached Hfree. unfold trigger.
    apply Z.leb_le in Hreached. rewrite Hreached.
    set (st1 := set_count_present_frame _ st).
    change (active_count (function_process_grain st1 (rng a))
            = active_count st + 1).
    destruct (free_slot_exists st Hinv Hfree) as (k & slot & Hfind).
    destruct (spawn_cases st1 (rng a))
      as [[_ [Hfull | Hnone]] | (_ & k' & slot' & _ & ->)].
    + change (active_count st1) with (active_count st) in Hfull. lia.
    + change (pool st1) with (pool st) in Hnone. congruence.
    + pose proof (inv_count st Hinv) as Hcount.
      pose proof (count_active_bounds (pool st)) as Hb.
      unfold spawned, active_count, pool in *. subst st1.
      cbn [set_sequence set_ProcessGrain set_count_present_frame
           global_ProcessGrain active_envelopes_grain].
      apply u32_small. change (2 ^ 32) with 4294967296. lia.
  - intros [Hbelow | Hfull].
    + unfold trigger. apply Z.leb_gt in Hbelow. now rewrite Hbelow.
    + exact (proj1 (trigger_refused st a Hfull)).
Qed.

End EngineMore.

(** ** The channel-order test *)

Section ChannelTestFacts.

Context {F : Type} `{SampleOps F} {P : Type}.
Context (phase_zero : P) (tone : P -> F) (next_phase : Z -> P -> P).

Import Engine ChannelTest.

Abbreviation engine_state := (@globals F).
Abbreviation test_state := (@test_globals P).

Lemma channel_now_range (t : test_state) fr : 0 <= channel_now t fr < 2 ^ 32.
Proof.
  unfold channel_now.
  pose proof (u32_range (g_test_frame_cursor t + fr)) as Hr.
  change (2 ^ 32) with 4294967296 in *.
  destruct (0 <? block t) eqn:Hb; [apply Z.ltb_lt in Hb | lia].
  split; [apply Z.div_pos; lia|].
  apply Z.div_lt_upper_bound; [lia | nia].
Qed.

Lemma tone_channel_cell a (t : test_state) fr ch (pm : list P * list F) :
  length (snd (tone_channel phase_zero tone next_phase a t fr ch pm))
  = length (snd pm)
  /\ (forall idx,
        idx <> mixIndex a ch fr ->
        snd (tone_channel phase_zero tone next_phase a t fr ch pm) !! idx
        = snd pm !! idx)
  /\ ((mixIndex a ch fr < length (snd pm))%nat ->
      exists cell,
        snd (tone_channel phase_zero tone next_phase a t fr ch pm)
          !! mixIndex a ch fr = Some cell
        /\ test_cell tone t fr ch cell).
Proof.
  destruct pm as [phases mix].
  unfold tone_channel, test_cell, g_channel_offset.
  rewrite Z.add_0_r, (u32_small (channel_now t fr))
    by apply channel_now_range.
  destruct ((ch =? channel_now t fr)
            && (within t fr <? g_test_frames_per_channel t)); cbn [snd].
  - split; [apply length_insert|].
    split; [intros idx Hne; apply list_lookup_insert_ne; congruence|].
    intros Hlt. eexists. split; [now apply list_lookup_insert_eq|].
    eexists. reflexivity.
  - split; [apply length_insert|].
    split; [intros idx Hne; apply list_lookup_insert_ne; congruence|].
    intros Hlt. eexists. split; [now apply list_lookup_insert_eq|].
    reflexivity.
Qed.

Lemma tone_channels_cells a (t : test_state) fr (n : nat) pm :
  0 <= fr < icount_frames a ->
  length (snd (for_loop (Z.of_nat n)
                 (tone_channel phase_zero tone next_phase a t fr) pm))
  = length (snd pm)
  /\ (forall idx,
        (forall ch, 0 <= ch < Z.of_nat n -> idx <> mixIndex a ch fr) ->
        snd (for_loop (Z.of_nat n)
               (tone_channel phase_zero tone next_phase a t fr) pm) !! idx
        = snd pm !! idx)
  /\ (forall ch,
        0 <= ch < Z.of_nat n ->
        (mixIndex a ch fr < length (snd pm))%nat ->
        exists cell,
          snd (for_loop (Z.of_nat n)
                 (tone_channel phase_zero tone next_phase a t fr) pm)
            !! mixIndex a ch fr = Some cell
          /\ test_cell tone t fr ch cell).
Proof.
  intros Hfr. induction n as [|n (IHlen & IHout & IHin)].
  - split; [reflexivity|]. split; [reflexivity|]. intros ch Hch. lia.
  - rewrite for_loop_snoc.
    destruct (tone_channel_cell a t fr (Z.of_nat n)
                (for_loop (Z.of_nat n)
                   (tone_channel phase_zero tone next_phase a t fr) pm))
      as (Hlen & Hout & Hin).
    split; [now rewrite Hlen|]. split.
    + intros idx Hidx. rewrite Hout by (apply Hidx; lia).
      apply IHout. intros ch Hch. apply Hidx. lia.
    + intros ch Hch Hlt. destruct (Z.eq_dec ch (Z.of_nat n)) as [-> | Hne].
      * apply Hin. now rewrite IHlen.
      * rewrite Hout; [apply IHin; [lia | exact Hlt]|].
        intros Heq. apply mixIndex_injective in Heq; lia.
Qed.

Lemma test_frames_cells a (t : test_state) (n : nat) :
  forall (s : nat) phases mix,
    Z.of_nat (s + n) <= icount_frames a ->
    (forall fr, Z.of_nat s <= fr < Z.of_nat (s + n) ->
                channel_now t fr < g_output_channels t) ->
    0 <= outChannels a ->
    let r :=
      test_frames phase_zero tone next_phase a t (map Z.of_nat (seq s n))
        phases mix in
    fst (fst r) = false
    /\ length (snd r) = length mix
    /\ (forall idx,
          (forall fr ch, Z.of_nat s <= fr < Z.of_nat (s + n) ->
                         0 <= ch < outChannels a ->
                         idx <> mixIndex a ch fr) ->
          snd r !! idx = mix !! idx)
    /\ (forall fr ch,
          Z.of_nat s <= fr < Z.of_nat (s + n) ->
          0 <= ch < outChannels a ->
          (mixIndex a ch fr < length mix)%nat ->
          exists cell,
            snd r !! mixIndex a ch fr = Some cell
            /\ test_cell tone t fr ch cell).
Proof.
  induction n as [|n IH]; intros s phases mix Hbound Hnow Hout; cbv zeta.
  - cbn [seq map test_frames fst snd].
    split; [reflexivity|]. split; [reflexivity|]. split; [reflexivity|].
    intros fr ch Hfr. lia.
  - cbn [seq map test_frames].
    assert (Hs : channel_now t (Z.of_nat s) < g_output_channels t)
      by (apply Hnow; lia).
    apply Z.leb_gt in Hs. rewrite Hs. unfold tone_channels.
    destruct (tone_channels_cells a t (Z.of_nat s) (Z.to_nat (outChannels a))
                (phases, mix)) as (Hlen & Hother & Hcells); [lia|].
    rewrite Z2Nat.id in Hlen, Hother, Hcells by exact Hout.
    destruct (for_loop (outChannels a)
                (tone_channel phase_zero tone next_phase a t (Z.of_nat s))
                (phases, mix)) as [phases' mix'].
    cbn [snd] in Hlen, Hother, Hcells.
    specialize (IH (S s) phases' mix'). cbv zeta in IH.
    destruct IH as (IHrun & IHlen & IHother & IHcells).
    { lia. }
    { intros fr Hfr. apply Hnow. lia. }
    { exact Hout. }
    split; [exact IHrun|]. split; [now rewrite IHlen|]. split.
    + intros idx Hidx. rewrite IHother.
      * apply Hother. intros ch Hch. apply Hidx; lia.
      * intros fr ch Hfr Hch. apply Hidx; lia.
    + intros fr ch Hfr Hch Hlt.
      destruct (Z.eq_dec fr (Z.of_nat s)) as [-> | Hne].
      * rewrite IHother; [apply Hcells; assumption|].
        intros fr' ch' Hfr' Hch' Heq.
        apply mixIndex_injective in Heq; lia.
      * apply IHcells; [lia | exact Hch | now rewrite Hlen].
Qed.

Lemma test_frames_ended a (t : test_state) frames :
  forall phases mix,
    fst (fst (test_frames phase_zero tone next_phase a t frames phases mix))
    = existsb (fun fr => g_output_channels t <=? channel_now t fr) frames.
Proof.
  induction frames as [|fr rest IH]; intros phases mix; [reflexivity|].
  cbn [test_frames existsb].
  destruct (g_output_channels t <=? channel_now t fr); [reflexivity|].
  destruct (tone_channels phase_zero tone next_phase a t fr phases mix)
    as [phases' mix'].
  apply IH.
Qed.

Lemma frames_of_In a fr : In fr (frames_of a) <-> 0 <= fr < icount_frames a.
Proof.
  unfold frames_of. rewrite in_map_iff. split.
  - intros (i & <- & Hi). apply in_seq in Hi. lia.
  - intros Hfr. exists (Z.to_nat fr). split; [lia|]. apply in_seq. lia.
Qed.

Lemma channel_now_value (t : test_state) fr :
  0 < block t ->
  0 <= g_test_frame_cursor t + fr < 2 ^ 32 ->
  channel_now t fr = (g_test_frame_cursor t + fr) / block t
  /\ within t fr = (g_test_frame_cursor t + fr) mod block t.
Proof.
  intros Hblock Hrange. unfold channel_now, within.
  apply Z.ltb_lt in Hblock. rewrite Hblock, u32_small by exact Hrange.
  now split.
Qed.

Lemma test_ends_iff a (t : test_state) :
  0 < block t ->
  0 <= g_test_frame_cursor t <= g_output_channels t * block t ->
  0 <= icount_frames a ->
  g_test_frame_cursor t + icount_frames a < 2 ^ 32 ->
  existsb (fun fr => g_output_channels t <=? channel_now t fr) (frames_of a)
  = negb (g_test_frame_cursor t + icount_frames a
          <=? g_output_channels t * block t).
Proof.
  intros Hblock Hcursor Hframes Hwrap.
  destruct (g_test_frame_cursor t + icount_frames a
            <=? g_output_channels t * block t) eqn:Hle;
    [apply Z.leb_le in Hle | apply Z.leb_gt in Hle]; cbn [negb].
  - destruct (existsb _ (frames_of a)) eqn:Hex; [|reflexivity].
    apply existsb_exists in Hex as (fr & Hin & Hfr).
    apply frames_of_In in Hin. apply Z.leb_le in Hfr.
    rewrite (proj1 (channel_now_value t fr Hblock ltac:(lia))) in Hfr.
    pose proof (Z.mul_div_le (g_test_frame_cursor t + fr) (block t) Hblock).
    nia.
  - apply existsb_exists. exists (icount_frames a - 1). split.
    + apply frames_of_In. lia.
    + apply Z.leb_le.
      rewrite (proj1 (channel_now_value t (icount_frames a - 1) Hblock
                        ltac:(lia))).
      apply Z.div_le_lower_bound; [exact Hblock | lia].
Qed.

Lemma callback_mix_length (st : engine_state) a :
  length (snd (function_callback_audio st a))
  = Z.to_nat (u32 (outChannels a * icount_frames a)).
Proof.
  rewrite callback_shape. cbv zeta.
  destruct (grains_run (trigger st a)); cbn [snd];
    [rewrite process_grains_length|]; apply base_mix_length.
Qed.

Lemma after_render_running (st : engine_state) (t : test_state) a :
  g_run_channel_order_test st = true ->
  0 < g_output_channels t ->
  0 < block t ->
  0 <= g_test_frame_cursor t <= g_output_channels t * block t ->
  0 <= icount_frames a ->
  g_test_frame_cursor t + icount_frames a < 2 ^ 32 ->
  let s' := after_render phase_zero tone next_phase (st, t) a in
  g_run_channel_order_test (fst s')
  = (g_test_frame_cursor t + icount_frames a
     <=? g_output_channels t * block t)
  /\ g_test_frame_cursor (snd s') = g_test_frame_cursor t + icount_frames a
  /\ gstatus_mute_toanchors (snd s')
     = (if g_run_channel_order_test (fst s') then gstatus_mute_toanchors t
        else true)
  /\ g_output_channels (snd s') = g_output_channels t
  /\ block (snd s') = block t.
Proof.
  intros Hrunning Hchannels Hblock Hcursor Hframes Hwrap. cbv zeta.
  unfold after_render, render. cbn [fst snd].
  pose proof (callback_frame st a) as Hframe. cbv zeta in Hframe.
  destruct Hframe as (_ & Hrun & _).
  destruct (function_callback_audio st a) as [[status st1] mix].
  cbn [fst snd] in Hrun. unfold channel_order_test.
  rewrite Hrun, Hrunning.
  replace (0 <? g_output_channels t) with true
    by (symmetry; apply Z.ltb_lt; exact Hchannels).
  cbn [andb].
  pose proof (test_frames_ended a t (frames_of a) (g_test_phase t) mix) as Hend.
  rewrite test_ends_iff in Hend by assumption.
  destruct (test_frames phase_zero tone next_phase a t (frames_of a)
              (g_test_phase t) mix) as [[ended phases] mix'].
  cbn [fst] in Hend. subst ended.
  assert (Hsum : u32 (g_test_frame_cursor t + icount_frames a)
                 = g_test_frame_cursor t + icount_frames a)
    by (apply u32_small; lia).
  destruct (g_test_frame_cursor t + icount_frames a
            <=? g_output_channels t * block t);
    cbn [negb fst snd g_test_frame_cursor gstatus_mute_toanchors
         g_output_channels set_flags g_run_channel_order_test];
    rewrite ?Hrun, ?Hrunning; repeat split; assumption || reflexivity.
Qed.

Lemma after_render_over (st : engine_state) (t : test_state) a :
  g_run_channel_order_test st = false ->
  g_run_channel_order_test
    (fst (after_render phase_zero tone next_phase (st, t) a)) = false
  /\ snd (after_render phase_zero tone next_phase (st, t) a) = t.
Proof.
  intros Hover. unfold after_render, render. cbn [fst snd].
  pose proof (callback_frame st a) as Hframe. cbv zeta in Hframe.
  destruct Hframe as (_ & Hrun & _).
  destruct (function_callback_audio st a) as [[status st1] mix].
  cbn [fst snd] in Hrun. unfold channel_order_test.
  rewrite Hrun, Hover. cbn [andb fst snd]. now rewrite Hrun.
Qed.

Lemma run_renders_over args :
  forall (st : engine_state) (t : test_state),
    g_run_channel_order_test st = false ->
    g_run_channel_order_test
      (fst (run_renders phase_zero tone next_phase st t args)) = false
    /\ snd (run_renders phase_zero tone next_phase st t args) = t.
Proof.
  induction args as [|a rest IH]; intros st t Hover; [now split|].
  unfold run_renders. cbn [fold_left].
  destruct (after_render_over st t a Hover) as (Hrun & Ht).
  destruct (after_render phase_zero tone next_phase (st, t) a) as [st1 t1].
  cbn [fst snd] in Hrun, Ht. subst t1. exact (IH st1 t Hrun).
Qed.

Lemma run_renders_running args frames :
  forall (st : engine_state) (t : test_state),
    Forall (fun a => icount_frames a = frames) args ->
    0 < frames ->
    0 < g_output_channels t ->
    0 < block t ->
    g_output_channels t * block t + frames < 2 ^ 32 ->
    g_run_channel_order_test st = true ->
    0 <= g_test_frame_cursor t <= g_output_channels t * block t ->
    let s' := run_renders phase_zero tone next_phase st t args in
    let target := g_test_frame_cursor t + Z.of_nat (length args) * frames in
    g_run_channel_order_test (fst s')
    = (target <=? g_output_channels t * block t)
    /\ (g_run_channel_order_test (fst s') = true ->
        g_test_frame_cursor (snd s') = target
        /\ gstatus_mute_toanchors (snd s') = gstatus_mute_toanchors t)
    /\ (g_run_channel_order_test (fst s') = false ->
        gstatus_mute_toanchors (snd s') = true).
Proof.
  induction args as [|a rest IH];
    intros st t Hall Hframes Hchannels Hblock Hwrap Hrunning Hcursor; cbv zeta.
  - cbn [run_renders fold_left fst snd length]. rewrite Hrunning.
    split; [symmetry; apply Z.leb_le; lia|].
    split; [intros _; split; [cbn; lia | reflexivity] | discriminate].
  - inversion Hall as [|a' rest' Ha Hrest]; subst.
    destruct (after_render_running st t a Hrunning Hchannels Hblock Hcursor)
      as (Hrun & Hcur & Hmute & Hch & Hbl); [lia | lia |].
    unfold run_renders. cbn [fold_left length].
    rewrite Nat2Z.inj_succ, Z.mul_succ_l.
    destruct (after_render phase_zero tone next_phase (st, t) a) as [st1 t1].
    cbn [fst snd] in Hrun, Hcur, Hmute, Hch, Hbl.
    destruct (g_test_frame_cursor t + icount_frames a
              <=? g_output_channels t * block t) eqn:Hle;
      [apply Z.leb_le in Hle | apply Z.leb_gt in Hle].
    + specialize (IH st1 t1 Hrest Hframes). cbv zeta in IH.
      rewrite Hch, Hbl, Hcur in IH. rewrite Hrun in Hmute.
      destruct IH as (IHrun & IHon & IHoff);
        [assumption | assumption | assumption | exact Hrun | lia |].
      unfold run_renders in IHrun, IHon, IHoff.
      replace (g_test_frame_cursor t
               + (Z.of_nat (length rest) * icount_frames a + icount_frames a))
        with (g_test_frame_cursor t + icount_frames a
              + Z.of_nat (length rest) * icount_frames a) by lia.
      split; [exact IHrun|]. split; [|exact IHoff].
      intros Hon. destruct (IHon Hon) as (-> & ->). now split.
    + destruct (run_renders_over rest st1 t1 Hrun) as (Hfinal & Ht).
      unfold run_renders in Hfinal, Ht. rewrite Hfinal, Ht.
      rewrite Hrun in Hmute. split; [|split; [discriminate | intros _; exact Hmute]].
      symmetry. apply Z.leb_gt. nia.
Qed.

(** X21.  The channel test started by [triggerChannelOrderTest] runs for
    [g_output_channels] blocks of [framesPerChannel + silenceFrames]
    frames: with callbacks of [frames] frames it is still running after
    [n] of them exactly when [n * frames] does not exceed that length.
    While it runs the cursor of the test counts the frames played and
    [gstatus_mute_toanchors] stays false; in the callback that passes the
    end the test switches itself off and sets [gstatus_mute_toanchors],
    and it stays off in all later callbacks. *)
Theorem channel_test_ends_on_time (st0 : engine_state) (t0 : test_state)
  framesPerChannel silenceFrames args frames :
  Forall (fun a => icount_frames a = frames) args ->
  0 < frames ->
  0 < g_output_channels t0 ->
  0 <= framesPerChannel -> 0 <= silenceFrames ->
  0 < framesPerChannel + silenceFrames ->
  g_output_channels t0 * (framesPerChannel + silenceFrames) + frames
  < 2 ^ 32 ->
  let started :=
    triggerChannelOrderTest phase_zero framesPerChannel silenceFrames st0 t0 in
  let finished :=
    run_renders phase_zero tone next_phase (fst started) (snd started) args in
  let played := Z.of_nat (length args) * frames in
  g_run_channel_order_test (fst finished)
  = (played <=? g_output_channels t0 * (framesPerChannel + silenceFrames))
  /\ (g_run_channel_order_test (fst finished) = true ->
      g_test_frame_cursor (snd finished) = played
      /\ gstatus_mute_toanchors (snd finished) = false)
  /\ (g_run_channel_order_test (fst finished) = false ->
      gstatus_mute_toanchors (snd finished) = true).
Proof.
  intros Hall Hframes Hchannels Hfpc Hsil Hblock Hwrap. cbv zeta.
  assert (Hb : block (snd (triggerChannelOrderTest phase_zero framesPerChannel
                             silenceFrames st0 t0))
               = framesPerChannel + silenceFrames).
  { unfold block. cbn [triggerChannelOrderTest snd g_test_frames_per_channel
                       g_test_silence_frames].
    apply u32_small. change (2 ^ 32) with 4294967296 in *. nia. }
  pose proof (run_renders_running args frames
                (fst (triggerChannelOrderTest phase_zero framesPerChannel
                        silenceFrames st0 t0))
                (snd (triggerChannelOrderTest phase_zero framesPerChannel
                        silenceFrames st0 t0)) Hall Hframes) as Hrun.
  cbv zeta in Hrun. rewrite Hb in Hrun.
  cbn [triggerChannelOrderTest fst snd g_output_channels g_test_frame_cursor
       gstatus_mute_toanchors] in Hrun.
  rewrite Z.add_0_l in Hrun.
  apply Hrun; [assumption | lia | assumption | reflexivity | nia].
Qed.

(** X22.  In a callback during which the channel test keeps running,
    every cell of the mix is written by the test, whatever the grains put
    there: at frame [fr] the channel number [(cursor + fr) / block] holds
    a value of the tone while [(cursor + fr) mod block] is below
    [g_test_frames_per_channel], and every other cell is exactly zero.  So
    the channels sound one at a time, in order, each followed by
    silence. *)
Theorem channel_test_sounds_one_channel (st : engine_state) (t : test_state)
  a :
  g_run_channel_order_test st = true ->
  0 < block t ->
  0 <= g_test_frame_cursor t ->
  g_test_frame_cursor t + icount_frames a <= g_output_channels t * block t ->
  g_output_channels t * block t < 2 ^ 32 ->
  0 <= outChannels a -> 0 < icount_frames a ->
  outChannels a * icount_frames a < 2 ^ 32 ->
  let mix := snd (render phase_zero tone next_phase st t a) in
  let s' := after_render phase_zero tone next_phase (st, t) a in
  g_run_channel_order_test (fst s') = true
  /\ g_test_frame_cursor (snd s') = g_test_frame_cursor t + icount_frames a
  /\ forall ch fr,
       0 <= ch < outChannels a ->
       0 <= fr < icount_frames a ->
       exists cell,
         mix !! mixIndex a ch fr = Some cell
         /\ (ch = (g_test_frame_cursor t + fr) / block t ->
             (g_test_frame_cursor t + fr) mod block t
             < g_test_frames_per_channel t ->
             exists phase, cell = tone phase)
         /\ (ch <> (g_test_frame_cursor t + fr) / block t
             \/ g_test_frames_per_channel t
                <= (g_test_frame_cursor t + fr) mod block t ->
             cell = f_zero).
Proof.
  intros Hrunning Hblock Hcursor Hend Hwrap Hout Hframes Hsize. cbv zeta.
  assert (Hchannels : 0 < g_output_channels t) by nia.
  destruct (after_render_running st t a Hrunning Hchannels Hblock)
    as (Hrun & Hcur & _); [lia | lia | lia |].
  apply Z.leb_le in Hend. rewrite Hend in Hrun. apply Z.leb_le in Hend.
  split; [exact Hrun|]. split; [exact Hcur|].
  intros ch fr Hch Hfr. unfold render.
  pose proof (callback_frame st a) as Hframe. cbv zeta in Hframe.
  destruct Hframe as (_ & Hflag & _).
  pose proof (callback_mix_length st a) as Hlen.
  destruct (function_callback_audio st a) as [[status st1] mix0].
  cbn [fst snd] in Hflag, Hlen. unfold channel_order_test.
  rewrite Hflag, Hrunning.
  replace (0 <? g_output_channels t) with true
    by (symmetry; apply Z.ltb_lt; exact Hchannels).
  cbn [andb].
  assert (Hnow : forall fr',
    0 <= fr' < icount_frames a ->
    channel_now t fr' = (g_test_frame_cursor t + fr') / block t
    /\ within t fr' = (g_test_frame_cursor t + fr') mod block t).
  { intros fr' Hfr'. apply channel_now_value; [exact Hblock | lia]. }
  destruct (test_frames_cells a t (Z.to_nat (icount_frames a)) 0
              (g_test_phase t) mix0) as (_ & _ & _ & Hcells).
  { lia. }
  { intros fr' Hfr'. rewrite (proj1 (Hnow fr' ltac:(lia))).
    apply Z.div_lt_upper_bound; [exact Hblock | lia]. }
  { exact Hout. }
  fold (frames_of a) in Hcells.
  destruct (Hcells fr ch) as (cell & Hcell & Htest); [lia | exact Hch | |].
  { rewrite Hlen, u32_small by (change (2 ^ 32) with 4294967296 in *; nia).
    unfold mixIndex. apply Z2Nat.inj_lt; nia. }
  destruct (test_frames phase_zero tone next_phase a t (frames_of a)
              (g_test_phase t) mix0) as [[ended phases] mix'].
  cbn [snd] in Hcell |- *. exists cell. split; [exact Hcell|].
  unfold test_cell in Htest.
  destruct (Hnow fr Hfr) as (Hchan & Hwithin). rewrite Hchan, Hwithin in Htest.
  split.
  - intros Hsame Hsound. apply Z.eqb_eq in Hsame. apply Z.ltb_lt in Hsound.
    now rewrite Hsame, Hsound in Htest.
  - intros Hsilent.
    destruct ((ch =? (g_test_frame_cursor t + fr) / block t)
              && ((g_test_frame_cursor t + fr) mod block t
                  <? g_test_frames_per_channel t)) eqn:Hboth;
      [|exact Htest].
    apply andb_true_iff in Hboth as [Hsame Hsound].
    apply Z.eqb_eq in Hsame. apply Z.ltb_lt in Hsound. lia.
Qed.

End ChannelTestFacts.

Section MoreExamples.

Import Engine.

Lemma grain_plays_to_its_length_witness :
  address_present_grain (Nat.iter 3 (grain_after (example_args 0)) example_grain)
  = Z.min (3 * 512) 2048.
Proof.
  refine (proj1 (proj2 (grain_plays_to_its_length
                          (example_args 0) example_grain 3 _ _ _ _))).
  - vm_compute. split; [discriminate | reflexivity].
  - reflexivity.
  - reflexivity.
  - vm_compute. split; reflexivity.
Defined.

Lemma cursor_after_callbacks_witness :
  cursor (run_callbacks (set_flags true false example_start) example_run)
  = Z.min (0 + 8 * 512) 4096.
Proof.
  apply (cursor_after_callbacks (set_flags true false example_start)
           example_run 512).
  - repeat constructor.
  - lia.
  - reflexivity.
  - vm_compute. split; discriminate.
  - vm_compute. reflexivity.
Defined.

Lemma stranded_grains_stay_forever_witness :
  pool (run_callbacks example_at_end (repeat (example_args 0) 5)) !! 1%nat
  = Some example_stranded.
Proof.
  refine (proj1 (stranded_grains_stay_forever example_at_end
                   (repeat (example_args 0) 5) 1 example_stranded _ _ _ _ _)).
  - repeat constructor; vm_compute; discriminate || reflexivity.
  - vm_compute. discriminate.
  - vm_compute. reflexivity.
  - vm_compute. reflexivity.
  - reflexivity.
Defined.

Lemma spawn_below_limit_takes_first_free_slot_witness :
  exists k slot g,
    pool example_start !! k = Some slot /\ inactive slot
    /\ (forall j other,
          (j < k)%nat -> pool example_start !! j = Some other -> active other)
    /\ pool (function_process_grain example_start example_draws) !! k = Some g
    /\ active g /\ address_present_grain g = 0
    /\ active_count (function_process_grain example_start example_draws)
       = active_count example_start + 1
    /\ (forall j, j <> k ->
        pool (function_process_grain example_start example_draws) !! j
        = pool example_start !! j).
Proof.
  apply (spawn_below_limit_takes_first_free_slot example_start example_start).
  - exists 1, (fun _ fr => fr + 1), 4096, (fun _ => 1), 1.
    split; [unfold is_u32; lia | reflexivity].
  - apply reachable_start.
  - vm_compute. reflexivity.
Defined.

Lemma one_spawn_attempt_per_interval_witness :
  active_count (snd (fst (function_callback_audio example_start
                            example_long_args)))
  <= active_count example_start + 1.
Proof.
  refine (proj1 (one_spawn_attempt_per_interval example_start example_start
                   example_long_args _ _ _)).
  - exists 1, (fun _ fr => fr + 1), 4096, (fun _ => 1), 1.
    split; [unfold is_u32; lia | reflexivity].
  - apply reachable_start.
  - vm_compute. split; [discriminate | reflexivity].
Defined.

Lemma grain_length_stays_in_bounds_witness :
  256 <= frames_object_grain
           (global_ProcessGrain (live_grain_length example_start 100000))
      <= 8192.
Proof.
  refine (proj1 (grain_length_stays_in_bounds example_start
                   (live_grain_length example_start 100000) _ _)).
  - exists 1, (fun _ fr => fr + 1), 4096, (fun _ => 1), 1.
    split; [unfold is_u32; lia | reflexivity].
  - apply (reachable_step _ example_start); [apply reachable_start|].
    apply step_grain_length.
Defined.

Lemma silent_grain_is_mute_but_holds_its_slot_witness :
  process_grain example_start (example_args 0) 1024
    (silenced example_grain) 1 (silent_mix (example_args 0))
  = (grain_after (example_args 0) (silenced example_grain),
     if completes (example_args 0) (silenced example_grain)
     then u32 (1 - 1) else 1,
     silent_mix (example_args 0)).
Proof.
  apply (silent_grain_is_mute_but_holds_its_slot example_start).
  reflexivity.
Defined.

Lemma broadcast_grain_reaches_every_channel_witness :
  length (mix_grain_frame example_start (example_args 0) example_grain 1 5
            (silent_mix (example_args 0)))
  = length (silent_mix (example_args 0)).
Proof.
  refine (proj2 (proj2 (broadcast_grain_reaches_every_channel example_start
                          (example_args 0) example_grain 1 5
                          (silent_mix (example_args 0)) _ _ _ _))).
  - reflexivity.
  - vm_compute. discriminate.
  - vm_compute. split; [discriminate | reflexivity].
  - vm_compute. reflexivity.
Defined.

Lemma mix_has_a_cell_per_channel_and_frame_witness :
  (mixIndex (example_args 0) 1 511
   < length (snd (function_callback_audio example_start (example_args 0))))%nat.
Proof.
  refine (proj2 (mix_has_a_cell_per_channel_and_frame example_start
                   (example_args 0)) _ 1 511 _ _).
  - vm_compute. reflexivity.
  - vm_compute. split; [discriminate | reflexivity].
  - vm_compute. split; [discriminate | reflexivity].
Defined.

Lemma configured_channels_exist_witness :
  garray_channel_anchor
    (function_anchor_configure example_start 6 (5, 0, 9) false)
  = (4, 0, 0).
Proof.
  refine (proj1 (configured_channels_exist example_start 6 5 0 9 false
                   _ _ _ _)); lia.
Defined.

Lemma live_channel_change_keeps_token_meaning_witness :
  resolve_target_ch
    (function_anchor_configure example_start 6 (5, 6, 4) false) 1
  = 4.
Proof.
  refine (proj1 (proj2 (live_channel_change_keeps_token_meaning example_start
                          6 (5, 6, 4) 0 1 2 4 5 3 _ _ _))).
  - lia.
  - reflexivity.
  - reflexivity.
Defined.

Lemma spawn_without_sequence_broadcasts_witness :
  exists g,
    pool (function_process_grain example_start example_draws) !! 0%nat = Some g
    /\ target_object g = -2
    /\ g_sequence_position (function_process_grain example_start example_draws)
       = g_sequence_position example_start.
Proof.
  apply (spawn_without_sequence_broadcasts example_start example_draws 0
           zero_grain).
  - vm_compute. reflexivity.
  - reflexivity.
  - left. reflexivity.
Defined.

Lemma blank_line_clears_the_sequence_witness :
  live_sequence_change example_hopping "  "
  = Continues (set_sequence [] 0 true example_hopping).
Proof.
  refine (proj2 (blank_line_clears_the_sequence example_hopping "  " _ _)).
  - discriminate.
  - reflexivity.
Defined.

Lemma paused_callbacks_still_spawn_witness :
  snd (function_callback_audio example_start (example_args 0))
  = silent_mix (example_args 0).
Proof.
  refine (proj1 (paused_callbacks_still_spawn example_start example_start
                   (example_args 0) _ _ _)).
  - exists 1, (fun _ fr => fr + 1), 4096, (fun _ => 1), 1.
    split; [unfold is_u32; lia | reflexivity].
  - apply reachable_start.
  - reflexivity.
Defined.

Lemma channel_test_ends_on_time_witness :
  let started :=
    ChannelTest.triggerChannelOrderTest 0 600 424 example_start example_test in
  g_run_channel_order_test
    (fst (ChannelTest.run_renders 0 example_tone example_next_phase
            (fst started) (snd started)
            [example_args 0; example_args 0; example_args 0; example_args 0;
             example_args 0]))
  = false.
Proof.
  refine (proj1 (channel_test_ends_on_time 0 example_tone example_next_phase
                   example_start example_test 600 424
                   [example_args 0; example_args 0; example_args 0;
                    example_args 0; example_args 0] 512 _ _ _ _ _ _ _)).
  - repeat constructor.
  - lia.
  - reflexivity.
  - lia.
  - lia.
  - lia.
  - reflexivity.
Defined.

Lemma channel_test_sounds_one_channel_witness :
  let started :=
    ChannelTest.triggerChannelOrderTest 0 600 424 example_start example_test in
  g_run_channel_order_test
    (fst (ChannelTest.after_render 0 example_tone example_next_phase
            started (example_args 0)))
  = true.
Proof.
  refine (proj1 (channel_test_sounds_one_channel 0 example_tone
                   example_next_phase
                   (fst (ChannelTest.triggerChannelOrderTest 0 600 424
                           example_start example_test))
                   (snd (ChannelTest.triggerChannelOrderTest 0 600 424
                           example_start example_test))
                   (example_args 0) _ _ _ _ _ _ _ _)).
  - reflexivity.
  - reflexivity.
  - vm_compute. discriminate.
  - vm_compute. discriminate.
  - reflexivity.
  - vm_compute. discriminate.
  - reflexivity.
  - reflexivity.
Defined.

End MoreExamples.
